(** * littlevote: ticket lifecycle and vote accounting

    A shallow embedding of the Go services of the repository
    (internal/repository, internal/ticket, internal/service, internal/lock,
    internal/kafka and the GraphQL resolvers) together with the properties
    of the specification that concern them, and with further properties of
    the code: the release of the lock, the ticket producer, the read path
    of the tallies, the readers of the consumer.

    Conventions of the embedding.
    - A Go [error] is an [option string]: [None] is [nil], [Some msg] is an
      error whose [Error()] text is [msg]; [fmt.Errorf("p: %w", err)] is the
      concatenation of the prefix and the text of [err].
    - A Go [int] is a [Z]; the only arithmetic on it is [+ 1] and [- 1] on
      counters, guarded by [> 0] where it decreases.
    - Every round trip to an external store (Redis, MySQL, Kafka, etcd) may
      fail: the world carries, per store, a plan of the transport failures
      to come, one slot per call, consumed in order.  A failed call leaves
      the store unchanged.  An exhausted plan means that calls go through.
    - The world keeps the trace of the external calls and of the log lines,
      in program order. *)

From Stdlib Require Import ZArith String Ascii List DecimalString DecimalPos DecimalZ.
From stdpp Require Import gmap strings list fin_maps.

Local Open Scope string_scope.
Local Open Scope list_scope.
Local Open Scope Z_scope.

(** ** Go values *)

Definition error := option string.

(** [time.Time], as nanoseconds since the epoch. *)
Definition Time := Z.

(** [fmt.Sprintf("%d", n)] and the decimal rendering of an [int] argument
    of a Redis command. *)
Definition itoa (n : Z) : string := NilZero.string_of_int (Z.to_int n).

(** Reading of a decimal integer.  It stands for [fmt.Sscanf(s, "%d", &n)]
    on the Go side and for Lua's [tonumber] inside the script: both agree
    with it on the decimal renderings that the program itself writes
    ([itoa]); the other numeral syntaxes that they accept (blanks, hex,
    floats) are never written by the program and are read here as
    failures. *)
Definition atoi (s : string) : option Z :=
  option_map Z.of_int (NilZero.int_of_string s).

Definition Sscanf_d (s : string) : option Z := atoi s.
Definition tonumber (s : string) : option Z := atoi s.

(** The layout [time.RFC3339] of the Go standard library: [Format]
    renders a time, [Parse] reads one back or reports the library's error
    text.  The program only moves the rendered strings around, so the
    layout is a parameter of the embedding. *)
Class TimeLayout := {
  Format : Time -> string;
  Parse : string -> Time + string
}.

(** The zero [time.Time] (January 1, year 1, UTC). *)
Definition zeroTime : Time := -62135596800 * 1000000000.

(** The conversion [int32(n)] of an [int]: its low 32 bits, read as a
    signed number. *)
Definition int32 (n : Z) : Z := (n + 2147483648) mod 4294967296 - 2147483648.

(** ** internal/model *)

Record Ticket := {
  Value : string;
  Version : string;
  RemainingUsages : Z;
  ExpiresAt : Time;
  CreatedAt : Time
}.

Record VoteRequest := {
  req_Usernames : list string;
  req_Ticket : Ticket
}.

Record VoteResponse := {
  Success : bool;
  Message : string;
  Usernames : list string;
  Timestamp : Time
}.

Record VoteEvent := {
  ev_Usernames : list string;
  TicketVersion : string;
  VotedAt : Time
}.

Record UserVote := {
  Username : string;
  Votes : Z;
  UpdatedAt : Time
}.

(** [json.Marshal] and [json.Unmarshal] on a [UserVote], the one type that
    the program keeps as JSON in the fast tier.  The program only moves the
    encoded strings around, so the codec is a parameter of the embedding,
    as the time layout is. *)
Class UserVoteJSON := {
  Marshal : UserVote -> string + string;
  Unmarshal : string -> UserVote + string
}.

(** ** The fast tier: a Redis server *)

(** A key holds a string or a hash; the commands of the other kind answer
    WRONGTYPE. *)
Inductive RVal :=
| RStr (s : string)
| RHash (h : gmap string string).

(** The scripts of the program, named by what [SCRIPT LOAD] returns. *)
Inductive Script := DecrementTicketUsageScript.

Definition sha1 (s : Script) : string :=
  match s with
  | DecrementTicketUsageScript => "sha1:DecrementTicketUsageScript"
  end.

Record Redis := {
  rkeys : gmap string RVal;
  rttl : gmap string Z;
  rscripts : gmap string Script
}.

(** What [EVALSHA] hands back to Go as an [interface{}]. *)
Inductive Item :=
| RInt (n : Z)
| RBulk (s : string).

Inductive Reply :=
| RItem (i : Item)
| RArray (l : list Item).

(** The outcome of a round trip: a value, [redis.Nil], or an error with its
    text (a transport failure or an error reply of the server). *)
Inductive Answer (A : Type) :=
| Got (a : A)
| NilReply
| Failed (msg : string).
Arguments Got {A} a.
Arguments NilReply {A}.
Arguments Failed {A} msg.

Inductive RedisCmd :=
| GET (k : string)
| SET (k v : string)
| DEL (k : string)
| HGETALL (k : string)
| HMSET_EXPIRE (k : string) (fields : list (string * string)) (seconds : Z)
| EVALSHA (sha : string) (KEYS ARGV : list string)
| SCRIPT_LOAD (s : Script).

Definition WRONGTYPE : string :=
  "WRONGTYPE Operation against a key holding the wrong kind of value".
Definition NOSCRIPT : string :=
  "NOSCRIPT No matching script. Please use EVAL.".

(** ** The durable tier: a MySQL server *)

Record UserVoteRow := {
  votes : Z;
  updated_at : Time
}.

Record VoteLogRow := {
  log_username : string;
  log_ticket_version : string;
  voted_at : Time
}.

Record TicketRow := {
  t_value : string;
  t_remaining_usages : Z;
  t_expires_at : Time;
  t_created_at : Time
}.

(** [user_votes] and [tickets] are keyed by their primary key; [vote_logs]
    is append-only, a row's [id] being its rank. *)
Record MySQL := {
  user_votes : gmap string UserVoteRow;
  vote_logs : list VoteLogRow;
  tickets : gmap string TicketRow
}.

Inductive SqlCall :=
| TxBegin
| TxCommit
| TxRollback
| PrepareIncrement
| PrepareLog
| ExecIncrement (username : string)
| ExecLog (username ticketVersion : string)
| ExecSaveTicket (t : Ticket)
| QueryRemainingForUpdate (version : string)
| ExecSetRemaining (version : string) (n : Z)
| QueryTicket (version : string).

(** ** The event bus *)

Record KafkaMessage := {
  Key : string;
  Val : VoteEvent;
  msg_Time : Time
}.

(** ** The world of one replica *)

Inductive Event :=
| ERedis (c : RedisCmd)
| EMySQL (c : SqlCall)
| EKafka (m : KafkaMessage)
| ELog (line : string).

Record Config := {
  MaxUsageCount : Z;
  RefreshInterval : Z
}.

Record World := {
  redis : Redis;
  mysql : MySQL;
  kafka : list KafkaMessage;
  redis_faults : list (option string);
  mysql_faults : list (option string);
  kafka_faults : list (option string);
  scriptHashes : gmap string string;
  config : Config;
  clock : Time;
  entropy : list (option (list N));
  trace : list Event
}.

Definition set_redis (r : Redis) (w : World) : World :=
  {| redis := r; mysql := mysql w; kafka := kafka w;
     redis_faults := redis_faults w; mysql_faults := mysql_faults w;
     kafka_faults := kafka_faults w; scriptHashes := scriptHashes w;
     config := config w; clock := clock w; entropy := entropy w;
     trace := trace w |}.

Definition set_mysql (m : MySQL) (w : World) : World :=
  {| redis := redis w; mysql := m; kafka := kafka w;
     redis_faults := redis_faults w; mysql_faults := mysql_faults w;
     kafka_faults := kafka_faults w; scriptHashes := scriptHashes w;
     config := config w; clock := clock w; entropy := entropy w;
     trace := trace w |}.

Definition set_kafka (k : list KafkaMessage) (w : World) : World :=
  {| redis := redis w; mysql := mysql w; kafka := k;
     redis_faults := redis_faults w; mysql_faults := mysql_faults w;
     kafka_faults := kafka_faults w; scriptHashes := scriptHashes w;
     config := config w; clock := clock w; entropy := entropy w;
     trace := trace w |}.

Definition set_redis_faults (p : list (option string)) (w : World) : World :=
  {| redis := redis w; mysql := mysql w; kafka := kafka w;
     redis_faults := p; mysql_faults := mysql_faults w;
     kafka_faults := kafka_faults w; scriptHashes := scriptHashes w;
     config := config w; clock := clock w; entropy := entropy w;
     trace := trace w |}.

Definition set_mysql_faults (p : list (option string)) (w : World) : World :=
  {| redis := redis w; mysql := mysql w; kafka := kafka w;
     redis_faults := redis_faults w; mysql_faults := p;
     kafka_faults := kafka_faults w; scriptHashes := scriptHashes w;
     config := config w; clock := clock w; entropy := entropy w;
     trace := trace w |}.

Definition set_kafka_faults (p : list (option string)) (w : World) : World :=
  {| redis := redis w; mysql := mysql w; kafka := kafka w;
     redis_faults := redis_faults w; mysql_faults := mysql_faults w;
     kafka_faults := p; scriptHashes := scriptHashes w;
     config := config w; clock := clock w; entropy := entropy w;
     trace := trace w |}.

Definition set_scriptHashes (h : gmap string string) (w : World) : World :=
  {| redis := redis w; mysql := mysql w; kafka := kafka w;
     redis_faults := redis_faults w; mysql_faults := mysql_faults w;
     kafka_faults := kafka_faults w; scriptHashes := h;
     config := config w; clock := clock w; entropy := entropy w;
     trace := trace w |}.

Definition set_entropy (e : list (option (list N))) (w : World) : World :=
  {| redis := redis w; mysql := mysql w; kafka := kafka w;
     redis_faults := redis_faults w; mysql_faults := mysql_faults w;
     kafka_faults := kafka_faults w; scriptHashes := scriptHashes w;
     config := config w; clock := clock w; entropy := e;
     trace := trace w |}.

Definition record (e : Event) (w : World) : World :=
  {| redis := redis w; mysql := mysql w; kafka := kafka w;
     redis_faults := redis_faults w; mysql_faults := mysql_faults w;
     kafka_faults := kafka_faults w; scriptHashes := scriptHashes w;
     config := config w; clock := clock w; entropy := entropy w;
     trace := trace w ++ [e] |}.

(** ** The monad of the services: state passing over the world *)

Definition M (A : Type) : Type := World -> A * World.

Definition ret {A} (a : A) : M A := fun w => (a, w).

Definition bind {A B} (m : M A) (k : A -> M B) : M B :=
  fun w => let (a, w') := m w in k a w'.

Notation "x <- m ;; k" := (bind m (fun x => k))
  (at level 100, m at next level, right associativity).
Notation "m ;;; k" := (bind m (fun _ => k))
  (at level 100, right associativity).

(** The next slot of a plan of failures, and the rest of the plan. *)
Definition next_fault (plan : list (option string)) : option string * list (option string) :=
  match plan with
  | [] => (None, [])
  | f :: rest => (f, rest)
  end.

(** [log.Printf] *)
Definition Printf (line : string) : M unit :=
  fun w => (tt, record (ELog line) w).

(** [time.Now()] *)
Definition Now : M Time := fun w => (clock w, w).

(** One round trip to Redis: [run] is what the server does with the
    command when it arrives. *)
Definition redis_call {A} (c : RedisCmd) (run : Redis -> Answer A * Redis) : M (Answer A) :=
  fun w =>
    let (f, plan) := next_fault (redis_faults w) in
    let w1 := record (ERedis c) (set_redis_faults plan w) in
    match f with
    | Some msg => (Failed msg, w1)
    | None => let (a, r) := run (redis w1) in (a, set_redis r w1)
    end.

(** One round trip to MySQL; what the statement does is up to the caller,
    who holds the transaction. *)
Definition mysql_call (c : SqlCall) : M error :=
  fun w =>
    let (f, plan) := next_fault (mysql_faults w) in
    (f, record (EMySQL c) (set_mysql_faults plan w)).

(** [tx.Rollback()], whose result the program never reads. *)
Definition Rollback : M unit :=
  fun w => (tt, record (EMySQL TxRollback) w).

(** ** State passing over a larger state

    Two parts of the program carry more than the stores: the queries, whose
    calls are not among those of [RedisCmd] and [SqlCall] and are logged
    apart, and the ticket producer, which holds the lock client. *)

Definition pass (S A : Type) : Type := S -> A * S.

Definition pass_ret {S A} (a : A) : pass S A := fun s => (a, s).

Definition pass_bind {S A B} (m : pass S A) (k : A -> pass S B) : pass S B :=
  fun s => let (a, s') := m s in k a s'.

Notation "x <-- m ;; k" := (pass_bind m (fun x => k))
  (at level 100, m at next level, right associativity).

(** *** The queries

    [SET key value EX seconds] on Redis and
    [SELECT username, votes, updated_at FROM user_votes WHERE username = ?]
    on MySQL.  They take their failures from the plans of the world, as
    the other calls do. *)
Inductive Query :=
| SETEX (k v : string) (seconds : Z)
| SelectUserVote (username : string).

Record Reads := {
  stores : World;
  queries : list Query
}.

Definition Q : Type -> Type := pass Reads.

Definition on_stores {A} (m : M A) : Q A :=
  fun s => let (a, w) := m (stores s) in (a, {| stores := w; queries := queries s |}).

Definition redis_query {A} (c : Query) (run : Redis -> Answer A * Redis) : Q (Answer A) :=
  fun s =>
    let w := stores s in
    let (f, plan) := next_fault (redis_faults w) in
    let w1 := set_redis_faults plan w in
    match f with
    | Some msg => (Failed msg, {| stores := w1; queries := queries s ++ [c] |})
    | None =>
        let (a, r) := run (redis w1) in
        (a, {| stores := set_redis r w1; queries := queries s ++ [c] |})
    end.

Definition sql_query (c : Query) : Q error :=
  fun s =>
    let w := stores s in
    let (f, plan) := next_fault (mysql_faults w) in
    (f, {| stores := set_mysql_faults plan w; queries := queries s ++ [c] |}).

(** ** internal/repository/redis.go *)

Module RedisRepository.

Definition UserVoteKey : string := "user:vote:".
Definition TicketKey : string := "ticket:".
Definition TicketVersionKey : string := "ticket:newest:version".

(** *** What the server does with each command *)

Definition run_GET (k : string) (r : Redis) : Answer string * Redis :=
  match rkeys r !! k with
  | None => (NilReply, r)
  | Some (RStr s) => (Got s, r)
  | Some (RHash _) => (Failed WRONGTYPE, r)
  end.

(** [SET key value] with no expiration: the key becomes a string and loses
    its time to live. *)
Definition run_SET (k v : string) (r : Redis) : Answer unit * Redis :=
  (Got tt, {| rkeys := <[k := RStr v]> (rkeys r);
              rttl := delete k (rttl r);
              rscripts := rscripts r |}).

(** [SET key value EX seconds]: the key becomes a string that lives for
    [seconds]. *)
Definition run_SETEX (k v : string) (seconds : Z) (r : Redis) : Answer unit * Redis :=
  (Got tt, {| rkeys := <[k := RStr v]> (rkeys r);
              rttl := <[k := seconds]> (rttl r);
              rscripts := rscripts r |}).

Definition run_DEL (k : string) (r : Redis) : Answer unit * Redis :=
  (Got tt, {| rkeys := delete k (rkeys r);
              rttl := delete k (rttl r);
              rscripts := rscripts r |}).

(** [HGETALL] of a key that does not exist answers the empty map. *)
Definition run_HGETALL (k : string) (r : Redis) : Answer (gmap string string) * Redis :=
  match rkeys r !! k with
  | None => (Got ∅, r)
  | Some (RHash h) => (Got h, r)
  | Some (RStr _) => (Failed WRONGTYPE, r)
  end.

(** [HMSET]: the fields given are written over those of the hash. *)
Definition hmset (fields : list (string * string)) (h : gmap string string) : gmap string string :=
  list_to_map fields ∪ h.

(** The pipeline of [CreateTicket]: [HMSET key fields] then
    [EXPIRE key seconds].  [Exec] reports the first error of the two
    commands; [EXPIRE] runs whatever [HMSET] answered. *)
Definition run_HMSET_EXPIRE (k : string) (fields : list (string * string)) (seconds : Z)
  (r : Redis) : Answer unit * Redis :=
  match rkeys r !! k with
  | Some (RStr _) =>
      (Failed WRONGTYPE,
       {| rkeys := rkeys r; rttl := <[k := seconds]> (rttl r); rscripts := rscripts r |})
  | Some (RHash h) =>
      (Got tt,
       {| rkeys := <[k := RHash (hmset fields h)]> (rkeys r);
          rttl := <[k := seconds]> (rttl r); rscripts := rscripts r |})
  | None =>
      (Got tt,
       {| rkeys := <[k := RHash (hmset fields ∅)]> (rkeys r);
          rttl := <[k := seconds]> (rttl r); rscripts := rscripts r |})
  end.

(** The Lua script [DecrementTicketUsageScript]:
<<
   local remaining = tonumber(redis.call('HGET', KEYS[1], 'remainingUsages'))
   if not remaining then return {-1, "票据数据损坏"} end
   if remaining <= 0 then return {-1, "票据使用次数已耗尽"} end
   remaining = remaining - 1
   redis.call('HSET', KEYS[1], 'remainingUsages', remaining)
   return {0, remaining}
>>
    The server runs it in one piece. *)
Definition lua_DecrementTicketUsage (KEYS : list string) (r : Redis) : Answer Reply * Redis :=
  match KEYS with
  | [] => (Failed "ERR wrong number of arguments for 'hget' command", r)
  | k :: _ =>
      match rkeys r !! k with
      | Some (RStr _) => (Failed WRONGTYPE, r)
      | None => (Got (RArray [RInt (-1); RBulk "票据数据损坏"]), r)
      | Some (RHash h) =>
          match from_option tonumber None (h !! "remainingUsages") with
          | None => (Got (RArray [RInt (-1); RBulk "票据数据损坏"]), r)
          | Some remaining =>
              if remaining <=? 0
              then (Got (RArray [RInt (-1); RBulk "票据使用次数已耗尽"]), r)
              else
                let remaining := remaining - 1 in
                (Got (RArray [RInt 0; RInt remaining]),
                 {| rkeys := <[k := RHash (<["remainingUsages" := itoa remaining]> h)]> (rkeys r);
                    rttl := rttl r; rscripts := rscripts r |})
          end
      end
  end.

Definition run_script (s : Script) (KEYS ARGV : list string) (r : Redis) : Answer Reply * Redis :=
  match s with
  | DecrementTicketUsageScript => lua_DecrementTicketUsage KEYS r
  end.

Definition run_EVALSHA (sha : string) (KEYS ARGV : list string) (r : Redis) : Answer Reply * Redis :=
  match rscripts r !! sha with
  | None => (Failed NOSCRIPT, r)
  | Some s => run_script s KEYS ARGV r
  end.

Definition run_SCRIPT_LOAD (s : Script) (r : Redis) : Answer string * Redis :=
  (Got (sha1 s), {| rkeys := rkeys r; rttl := rttl r;
                    rscripts := <[sha1 s := s]> (rscripts r) |}).

(** *** The client *)

Definition Get (k : string) : M (Answer string) := redis_call (GET k) (run_GET k).
Definition Set_ (k v : string) : M (Answer unit) := redis_call (SET k v) (run_SET k v).
Definition Del (k : string) : M (Answer unit) := redis_call (DEL k) (run_DEL k).
Definition HGetAll (k : string) : M (Answer (gmap string string)) :=
  redis_call (HGETALL k) (run_HGETALL k).
Definition HMSetExpire (k : string) (fields : list (string * string)) (seconds : Z) : M (Answer unit) :=
  redis_call (HMSET_EXPIRE k fields seconds) (run_HMSET_EXPIRE k fields seconds).
Definition EvalSha (sha : string) (KEYS ARGV : list string) : M (Answer Reply) :=
  redis_call (EVALSHA sha KEYS ARGV) (run_EVALSHA sha KEYS ARGV).
Definition ScriptLoad (s : Script) : M (Answer string) :=
  redis_call (SCRIPT_LOAD s) (run_SCRIPT_LOAD s).

(** The text of the error of a call that did not answer a value;
    [redis.Nil] reads "redis: nil". *)
Definition err_text {A} (a : Answer A) : string :=
  match a with
  | Got _ => ""
  | NilReply => "redis: nil"
  | Failed msg => msg
  end.

Definition DeleteUserVoteCache (username : string) : M error :=
  let key := UserVoteKey +:+ username in
  a <- Del key ;;
  match a with
  | Got _ => ret None
  | _ => ret (Some ("删除用户票数缓存失败: " +:+ err_text a))
  end.

Definition GetNewestTicketVersion : M (string * error) :=
  a <- Get TicketVersionKey ;;
  match a with
  | Got version => ret (version, None)
  | NilReply => ret ("", None)
  | Failed msg => ret ("", Some ("获取最新票据版本失败: " +:+ msg))
  end.

Definition SetNewestTicketVersion (version : string) : M error :=
  a <- Set_ TicketVersionKey version ;;
  match a with
  | Got _ => ret None
  | _ => ret (Some ("设置最新票据版本失败: " +:+ err_text a))
  end.

(** [data[f]] on a Go map: the empty string when [f] is missing. *)
Definition field (data : gmap string string) (f : string) : string :=
  default "" (data !! f).

Section WithLayout.
Context `{TimeLayout}.

(** The part of [GetTicket] that reads the fields of the hash. *)
Definition parse_ticket (version : string) (data : gmap string string) : Ticket + string :=
  let remaining :=
    if decide (field data "remainingUsages" = "") then inl 0
    else match Sscanf_d (field data "remainingUsages") with
         | Some n => inl n
         | None => inr "expected integer"
         end in
  match remaining with
  | inr e => inr ("解析票据剩余使用次数失败: " +:+ e)
  | inl remainingUsages =>
      let expires :=
        if decide (field data "expiresAt" = "") then inl zeroTime
        else Parse (field data "expiresAt") in
      match expires with
      | inr e => inr ("解析票据过期时间失败: " +:+ e)
      | inl expiresAt =>
          let created :=
            if decide (field data "createdAt" = "") then inl zeroTime
            else Parse (field data "createdAt") in
          match created with
          | inr e => inr ("解析票据创建时间失败: " +:+ e)
          | inl createdAt =>
              inl {| Value := field data "value"; Version := version;
                     RemainingUsages := remainingUsages;
                     ExpiresAt := expiresAt; CreatedAt := createdAt |}
          end
      end
  end.

(** A pointer to a ticket and an error, of which exactly one is [nil], make
    a sum. *)
Definition GetTicket (version : string) : M (Ticket + string) :=
  let key := TicketKey +:+ version in
  a <- HGetAll key ;;
  match a with
  | Got data =>
      if decide (size data = 0%nat) then ret (inr "票据不存在")
      else ret (parse_ticket version data)
  | _ => ret (inr ("获取票据失败: " +:+ err_text a))
  end.

Definition ticket_fields (ticket : Ticket) : list (string * string) :=
  [("value", Value ticket);
   ("remainingUsages", itoa (RemainingUsages ticket));
   ("expiresAt", Format (ExpiresAt ticket));
   ("createdAt", Format (CreatedAt ticket))].

Definition CreateTicket (ticket : Ticket) : M error :=
  let key := TicketKey +:+ Version ticket in
  a <- HMSetExpire key (ticket_fields ticket) 10 ;;
  match a with
  | Got _ => ret None
  | _ => ret (Some ("创建票据失败: " +:+ err_text a))
  end.

Definition ValidateTicket (ticket : Ticket) : M (bool * error) :=
  r <- GetNewestTicketVersion ;;
  let (newestVersion, err) := r in
  match err with
  | Some e => ret (false, Some ("获取最新票据版本失败: " +:+ e))
  | None =>
      if negb (String.eqb (Version ticket) newestVersion)
      then ret (false, Some ("票据版本已过期，当前: " +:+ Version ticket +:+ ", 最新: " +:+ newestVersion))
      else
        r <- GetTicket (Version ticket) ;;
        match r with
        | inr e => ret (false, Some ("获取票据失败: " +:+ e))
        | inl storedTicket =>
            if negb (String.eqb (Value ticket) (Value storedTicket))
            then ret (false, Some "票据值不匹配")
            else ret (true, None)
        end
  end.

End WithLayout.

(** The Go side of the script's answer. *)
Definition parse_script_result (result : Reply) : Z * error :=
  match result with
  | RItem _ => (0, Some "LUA脚本返回类型错误")
  | RArray resultSlice =>
      match resultSlice with
      | status :: payload :: _ =>
          match status with
          | RBulk _ => (0, Some "LUA脚本返回状态码类型错误")
          | RInt status =>
              if negb (status =? 0)
              then match payload with
                   | RBulk errorMsg => (0, Some errorMsg)
                   | RInt _ => (0, Some "")
                   end
              else match payload with
                   | RInt remaining => (remaining, None)
                   | RBulk _ => (0, Some "LUA脚本返回剩余次数类型错误")
                   end
          end
      | _ => (0, Some "LUA脚本返回格式错误")
      end
  end.

Definition DecrementTicketUsage (version : string) : M (Z * error) :=
  let key := TicketKey +:+ version in
  fun w =>
  match scriptHashes w !! "decrementTicketUsage" with
  | None => (0, Some "脚本未预加载", w)
  | Some sha =>
      (a <- EvalSha sha [key; TicketVersionKey] [version] ;;
       match a with
       | Got result => ret (parse_script_result result)
       | _ =>
           if String.eqb (err_text a) NOSCRIPT
           then
             l <- ScriptLoad DecrementTicketUsageScript ;;
             match l with
             | Got sha =>
                 (fun w => (tt, set_scriptHashes (<["decrementTicketUsage" := sha]> (scriptHashes w)) w)) ;;;
                 a <- EvalSha sha [key; TicketVersionKey] [version] ;;
                 match a with
                 | Got result => ret (parse_script_result result)
                 | _ => ret (0, Some ("执行票据使用次数脚本失败: " +:+ err_text a))
                 end
             | _ => ret (0, Some ("重新加载票据使用次数脚本失败: " +:+ err_text l))
             end
           else ret (0, Some ("执行票据使用次数脚本失败: " +:+ err_text a))
       end) w
  end.

(** [preloadScripts], which [NewRedisRepository] runs once the connection
    is up. *)
Definition preloadScripts : M error :=
  l <- ScriptLoad DecrementTicketUsageScript ;;
  match l with
  | Got sha1 =>
      fun w => (None, set_scriptHashes (<["decrementTicketUsage" := sha1]> (scriptHashes w)) w)
  | _ => ret (Some ("加载票据使用次数脚本失败: " +:+ err_text l))
  end.

Section WithJSON.
Context `{UserVoteJSON}.

(** The answer is the triple [(userVote, found, err)]. *)
Definition GetUserVote (username : string) : Q (option UserVote * bool * error) :=
  let key := UserVoteKey +:+ username in
  a <-- on_stores (Get key) ;;
  match a with
  | Got data =>
      match Unmarshal data with
      | inr e => pass_ret (None, false, Some ("解析用户票数缓存失败: " +:+ e))
      | inl userVote => pass_ret (Some userVote, true, None)
      end
  | NilReply => pass_ret (None, false, None)
  | Failed msg => pass_ret (None, false, Some ("获取用户票数缓存失败: " +:+ msg))
  end.

(** The entry lives for [time.Hour]. *)
Definition SetUserVote (userVote : UserVote) : Q error :=
  let key := UserVoteKey +:+ Username userVote in
  match Marshal userVote with
  | inr e => pass_ret (Some ("序列化用户票数失败: " +:+ e))
  | inl data =>
      a <-- redis_query (SETEX key data 3600) (run_SETEX key data 3600) ;;
      match a with
      | Got _ => pass_ret None
      | _ => pass_ret (Some ("设置用户票数缓存失败: " +:+ err_text a))
      end
  end.

End WithJSON.

End RedisRepository.

(** ** internal/repository/mysql.go

    Reads go to the replica and writes to the primary; the embedding has one
    database, that is, a replica that has caught up.  A transaction works on
    its own copy of the tables, which [Commit] installs and [Rollback]
    drops. *)

Module MySQLRepository.

Definition set_user_votes (u : gmap string UserVoteRow) (db : MySQL) : MySQL :=
  {| user_votes := u; vote_logs := vote_logs db; tickets := tickets db |}.
Definition set_vote_logs (l : list VoteLogRow) (db : MySQL) : MySQL :=
  {| user_votes := user_votes db; vote_logs := l; tickets := tickets db |}.
Definition set_tickets (t : gmap string TicketRow) (db : MySQL) : MySQL :=
  {| user_votes := user_votes db; vote_logs := vote_logs db; tickets := t |}.

(** The loop of [IncrementVotes] over [usernames], inside the transaction
    [tx]: [UPDATE user_votes SET votes = votes + 1 WHERE username = ?],
    then, unless no row was affected,
    [INSERT INTO vote_logs (username, ticket_version) VALUES (?, ?)].
    ([RowsAffected] itself does not fail with this driver.) *)
Fixpoint IncrementVotes_loop (usernames : list string) (ticketVersion : string) (tx : MySQL)
  : M (MySQL + string) :=
  match usernames with
  | [] => ret (inl tx)
  | username :: rest =>
      e <- mysql_call (ExecIncrement username) ;;
      match e with
      | Some msg =>
          Rollback ;;;
          ret (inr ("更新用户 " +:+ username +:+ " 票数失败: " +:+ msg))
      | None =>
          now <- Now ;;
          match user_votes tx !! username with
          | None =>
              Rollback ;;;
              ret (inr ("用户 " +:+ username +:+ " 不存在"))
          | Some row =>
              let tx := set_user_votes
                          (<[username := {| votes := votes row + 1; updated_at := now |}]>
                             (user_votes tx)) tx in
              e <- mysql_call (ExecLog username ticketVersion) ;;
              match e with
              | Some msg =>
                  Rollback ;;;
                  ret (inr ("记录用户 " +:+ username +:+ " 投票日志失败: " +:+ msg))
              | None =>
                  let tx := set_vote_logs
                              (vote_logs tx ++
                               [{| log_username := username;
                                   log_ticket_version := ticketVersion;
                                   voted_at := now |}]) tx in
                  IncrementVotes_loop rest ticketVersion tx
              end
          end
      end
  end.

Definition IncrementVotes (usernames : list string) (ticketVersion : string) : M error :=
  e <- mysql_call TxBegin ;;
  match e with
  | Some msg => ret (Some ("开始事务失败: " +:+ msg))
  | None =>
      tx <- (fun w => (mysql w, w)) ;;
      e <- mysql_call PrepareIncrement ;;
      match e with
      | Some msg => Rollback ;;; ret (Some ("准备更新票数语句失败: " +:+ msg))
      | None =>
          e <- mysql_call PrepareLog ;;
          match e with
          | Some msg => Rollback ;;; ret (Some ("准备投票日志语句失败: " +:+ msg))
          | None =>
              r <- IncrementVotes_loop usernames ticketVersion tx ;;
              match r with
              | inr err => ret (Some err)
              | inl tx =>
                  e <- mysql_call TxCommit ;;
                  match e with
                  | Some msg => ret (Some ("提交事务失败: " +:+ msg))
                  | None => fun w => (None, set_mysql tx w)
                  end
              end
          end
      end
  end.

(** [INSERT INTO tickets (version, value, remaining_usages, expires_at)
    ... ON DUPLICATE KEY UPDATE value, remaining_usages, expires_at]:
    [created_at] is the server's time when the row is inserted and is kept
    when the row is updated. *)
Definition SaveTicket (ticket : Ticket) : M error :=
  e <- mysql_call (ExecSaveTicket ticket) ;;
  match e with
  | Some msg => ret (Some ("保存票据到MySQL失败: " +:+ msg))
  | None =>
      fun w =>
        let db := mysql w in
        let created :=
          match tickets db !! Version ticket with
          | Some row => t_created_at row
          | None => clock w
          end in
        (None,
         set_mysql
           (set_tickets
              (<[Version ticket :=
                   {| t_value := Value ticket;
                      t_remaining_usages := RemainingUsages ticket;
                      t_expires_at := ExpiresAt ticket;
                      t_created_at := created |}]> (tickets db)) db) w)
  end.

Definition DecrementTicketUsage (version : string) : M (Z * error) :=
  e <- mysql_call TxBegin ;;
  match e with
  | Some msg => ret (0, Some ("开始事务失败: " +:+ msg))
  | None =>
      tx <- (fun w => (mysql w, w)) ;;
      e <- mysql_call (QueryRemainingForUpdate version) ;;
      match e with
      | Some msg => Rollback ;;; ret (0, Some ("查询票据使用次数失败: " +:+ msg))
      | None =>
          match tickets tx !! version with
          | None => Rollback ;;; ret (0, Some "票据不存在")
          | Some row =>
              let remainingUsages := t_remaining_usages row in
              if remainingUsages <=? 0
              then Rollback ;;; ret (0, Some "票据使用次数已耗尽")
              else
                let remainingUsages := remainingUsages - 1 in
                e <- mysql_call (ExecSetRemaining version remainingUsages) ;;
                match e with
                | Some msg => Rollback ;;; ret (0, Some ("更新票据使用次数失败: " +:+ msg))
                | None =>
                    let tx := set_tickets
                                (<[version :=
                                     {| t_value := t_value row;
                                        t_remaining_usages := remainingUsages;
                                        t_expires_at := t_expires_at row;
                                        t_created_at := t_created_at row |}]> (tickets tx)) tx in
                    e <- mysql_call TxCommit ;;
                    match e with
                    | Some msg => ret (0, Some ("提交事务失败: " +:+ msg))
                    | None => fun w => ((remainingUsages, None), set_mysql tx w)
                    end
                end
          end
      end
  end.

Definition GetTicket (version : string) : M (Ticket + string) :=
  e <- mysql_call (QueryTicket version) ;;
  match e with
  | Some msg => ret (inr ("获取票据失败: " +:+ msg))
  | None =>
      fun w =>
        match tickets (mysql w) !! version with
        | None => (inr "票据不存在", w)
        | Some row =>
            (inl {| Value := t_value row; Version := version;
                    RemainingUsages := t_remaining_usages row;
                    ExpiresAt := t_expires_at row;
                    CreatedAt := t_created_at row |}, w)
        end
  end.

(** [QueryRow(...).Scan(...)] on the replica: no row is [sql.ErrNoRows]. *)
Definition GetUserVote (username : string) : Q (UserVote + string) :=
  e <-- sql_query (SelectUserVote username) ;;
  match e with
  | Some msg => pass_ret (inr ("查询用户票数失败: " +:+ msg))
  | None =>
      fun s =>
        match user_votes (mysql (stores s)) !! username with
        | None => (inr ("用户 " +:+ username +:+ " 不存在"), s)
        | Some row =>
            (inl {| Username := username; Votes := votes row;
                    UpdatedAt := updated_at row |}, s)
        end
  end.

End MySQLRepository.

(** ** internal/kafka/producer.go *)

Module Producer.

(** The routing key is the first username, or the ticket version when there
    is none.  ([json.Marshal] of a [VoteEvent] does not fail; the message
    carries the event itself.) *)
Definition SendVoteEvent (event : VoteEvent) : M error :=
  let key :=
    match ev_Usernames event with
    | username :: _ => username
    | [] => TicketVersion event
    end in
  now <- Now ;;
  let msg := {| Key := key; Val := event; msg_Time := now |} in
  fun w =>
    let (f, plan) := next_fault (kafka_faults w) in
    let w1 := record (EKafka msg) (set_kafka_faults plan w) in
    match f with
    | Some e => (Some ("发送投票事件失败: " +:+ e), w1)
    | None => (None, set_kafka (kafka w1 ++ [msg]) w1)
    end.

End Producer.

(** ** internal/ticket/ticket_service.go *)

Module TicketService.

Section WithLayout.
Context `{TimeLayout}.

(** [hex.EncodeToString] *)
Definition hex_digit (n : N) : ascii :=
  if (n <? 10)%N then ascii_of_N (48 + n) else ascii_of_N (87 + n).

Fixpoint EncodeToString (bytes : list N) : string :=
  match bytes with
  | [] => ""
  | b :: rest =>
      String (hex_digit (b / 16)) (String (hex_digit (b mod 16)) (EncodeToString rest))
  end.

(** [rand.Read] of 16 bytes: the next draw of the entropy of the world;
    a missing draw is a failed read. *)
Definition rand_Read : M (list N + string) :=
  fun w =>
    match entropy w with
    | Some bytes :: rest => (inl bytes, set_entropy rest w)
    | None :: rest => (inr "crypto/rand: read failed", set_entropy rest w)
    | [] => (inr "crypto/rand: read failed", w)
    end.

Definition generateVersion : M string :=
  timestamp <- Now ;;
  ret (itoa timestamp).

Definition generateTicketValue : M string :=
  r <- rand_Read ;;
  match r with
  | inr err =>
      Printf ("生成随机票据值失败: " +:+ err) ;;;
      now <- Now ;;
      ret (itoa now)
  | inl bytes => ret (EncodeToString bytes)
  end.

Definition generateTicket : M unit :=
  version <- generateVersion ;;
  ticketValue <- generateTicketValue ;;
  now <- Now ;;
  cfg <- (fun w => (config w, w)) ;;
  let expiresAt := now + RefreshInterval cfg in
  let ticket := {| Value := ticketValue; Version := version;
                   RemainingUsages := MaxUsageCount cfg;
                   ExpiresAt := expiresAt; CreatedAt := now |} in
  err <- MySQLRepository.SaveTicket ticket ;;
  match err with
  | Some e => Printf ("保存票据到MySQL失败: " +:+ e)
  | None =>
      err <- RedisRepository.CreateTicket ticket ;;
      match err with
      | Some e => Printf ("保存票据到Redis失败: " +:+ e)
      | None => ret tt
      end ;;;
      err <- RedisRepository.SetNewestTicketVersion version ;;
      match err with
      | Some e => Printf ("设置Redis最新票据版本失败: " +:+ e)
      | None => ret tt
      end
  end.

(** The error of [GetNewestTicketVersion] is overwritten by the next
    assignment of [err] before it is read: on a failed read the version is
    the empty string and the lookups go on with it. *)
Definition GetCurrentTicket (clientID : string) : M (Ticket + string) :=
  r <- RedisRepository.GetNewestTicketVersion ;;
  let version := r.1 in
  r <- RedisRepository.GetTicket version ;;
  match r with
  | inr err =>
      Printf ("从Redis获取票据失败: " +:+ err +:+ "，尝试从MySQL获取") ;;;
      r <- MySQLRepository.GetTicket version ;;
      match r with
      | inr mysqlErr => ret (inr ("获取票据失败: " +:+ mysqlErr))
      | inl mysqlTicket =>
          err <- RedisRepository.CreateTicket mysqlTicket ;;
          match err with
          | Some e => Printf ("将MySQL票据同步到Redis失败: " +:+ e)
          | None => ret tt
          end ;;;
          if RemainingUsages mysqlTicket <=? 0
          then ret (inr ("票据 " +:+ version +:+ " 使用次数已耗尽"))
          else ret (inl mysqlTicket)
      end
  | inl redisTicket =>
      if RemainingUsages redisTicket <=? 0
      then ret (inr ("票据 " +:+ version +:+ " 使用次数已耗尽"))
      else ret (inl redisTicket)
  end.

Definition ValidateTicket (ticket : Ticket) : M (bool * error) :=
  RedisRepository.ValidateTicket ticket.

Definition UseTicket (ticket : Ticket) : M (bool * error) :=
  r <- ValidateTicket ticket ;;
  let (valid, err) := r in
  match err with
  | Some e => ret (false, Some ("票据验证失败: " +:+ e))
  | None =>
      if negb valid then ret (false, Some "票据无效")
      else
        r <- RedisRepository.DecrementTicketUsage (Version ticket) ;;
        let (redisRemaining, err) := r in
        match err with
        | Some e => ret (false, Some ("减少Redis票据使用次数失败: " +:+ e))
        | None => ret (true, None)
        end
  end.

End WithLayout.

End TicketService.

(** ** internal/service/vote_service.go *)

Module VoteService.

(** [len(username) != 1 || username[0] < 'A' || username[0] > 'Z'],
    negated. *)
Definition valid_username (username : string) : bool :=
  match username with
  | String c EmptyString => (65 <=? nat_of_ascii c)%nat && (nat_of_ascii c <=? 90)%nat
  | _ => false
  end.

(** The validation loop of [Vote]: the first username that is refused. *)
Fixpoint first_invalid (usernames : list string) : option string :=
  match usernames with
  | [] => None
  | username :: rest =>
      if valid_username username then first_invalid rest else Some username
  end.

(** The loop that clears the cache entries; a failed deletion is logged
    with the prefix of the caller and the loop goes on. *)
Fixpoint delete_caches (before after : string) (usernames : list string) : M unit :=
  match usernames with
  | [] => ret tt
  | username :: rest =>
      err <- RedisRepository.DeleteUserVoteCache username ;;
      match err with
      | Some e => Printf (before +:+ username +:+ after +:+ e)
      | None => ret tt
      end ;;;
      delete_caches before after rest
  end.

Section WithLayout.
Context `{TimeLayout}.

Definition Vote (request : VoteRequest) : M (VoteResponse * error) :=
  now <- Now ;;
  let failedResponse := {| Success := false; Message := "投票失败";
                           Usernames := req_Usernames request; Timestamp := now |} in
  if decide (length (req_Usernames request) = 0%nat)
  then ret (failedResponse, Some "用户名列表不能为空")
  else
    match first_invalid (req_Usernames request) with
    | Some username =>
        ret (failedResponse,
             Some ("无效的用户名: " +:+ username +:+ ", 用户名必须是A-Z之间的单个字母"))
    | None =>
        r <- TicketService.UseTicket (req_Ticket request) ;;
        let (used, err) := r in
        match err with
        | Some e => ret (failedResponse, Some ("使用票据失败: " +:+ e))
        | None =>
            if negb used then ret (failedResponse, Some "票据使用失败")
            else
              now <- Now ;;
              let voteEvent := {| ev_Usernames := req_Usernames request;
                                  TicketVersion := Version (req_Ticket request);
                                  VotedAt := now |} in
              err <- Producer.SendVoteEvent voteEvent ;;
              match err with
              | Some e =>
                  Printf ("发送投票事件到Kafka失败: " +:+ e) ;;;
                  err <- MySQLRepository.IncrementVotes (req_Usernames request)
                           (Version (req_Ticket request)) ;;
                  match err with
                  | Some e => ret (failedResponse, Some ("更新数据库失败: " +:+ e))
                  | None =>
                      delete_caches "删除用户 " " 缓存失败: " (req_Usernames request) ;;;
                      now <- Now ;;
                      ret ({| Success := true; Message := "投票成功";
                              Usernames := req_Usernames request; Timestamp := now |}, None)
                  end
              | None =>
                  now <- Now ;;
                  ret ({| Success := true; Message := "投票成功";
                          Usernames := req_Usernames request; Timestamp := now |}, None)
              end
        end
    end.

Definition ProcessVoteEvent (event : VoteEvent) : M error :=
  err <- MySQLRepository.IncrementVotes (ev_Usernames event) (TicketVersion event) ;;
  match err with
  | Some e => ret (Some ("处理投票事件更新数据库失败: " +:+ e))
  | None =>
      r <- MySQLRepository.DecrementTicketUsage (TicketVersion event) ;;
      match r.2 with
      | Some e => ret (Some ("处理投票事件减少票据使用次数失败: " +:+ e))
      | None =>
          delete_caches "处理投票事件删除用户 " " 缓存失败: " (ev_Usernames event) ;;;
          ret None
      end
  end.

Definition TicketAndVote (usernames : list string) : M (VoteResponse * error) :=
  now <- Now ;;
  let clientID := "client-" +:+ itoa now in
  r <- TicketService.GetCurrentTicket clientID ;;
  match r with
  | inr err =>
      now <- Now ;;
      ret ({| Success := false; Message := "获取票据失败: " +:+ err;
              Usernames := usernames; Timestamp := now |}, None)
  | inl ticket =>
      Vote {| req_Usernames := usernames; req_Ticket := ticket |}
  end.

Definition GetTicket (clientID : string) : M (Ticket + string) :=
  TicketService.GetCurrentTicket clientID.

End WithLayout.

Section WithJSON.
Context `{UserVoteJSON}.

(** The errors of the two calls to the cache are dropped: a read that
    fails is a miss, a write that fails is no write. *)
Definition GetUserVote (username : string) : Q (UserVote + string) :=
  if negb (valid_username username)
  then pass_ret (inr ("无效的用户名: " +:+ username +:+ ", 用户名必须是A-Z之间的单个字母"))
  else
    r <-- RedisRepository.GetUserVote username ;;
    let '(userVote, found, err) := r in
    match found, userVote with
    | true, Some userVote => pass_ret (inl userVote)
    | _, _ =>
        r <-- MySQLRepository.GetUserVote username ;;
        match r with
        | inr err => pass_ret (inr ("获取用户 " +:+ username +:+ " 票数失败: " +:+ err))
        | inl userVote =>
            _ <-- RedisRepository.SetUserVote userVote ;;
            pass_ret (inl userVote)
        end
    end.

End WithJSON.

End VoteService.

(** ** The GraphQL resolvers

    A resolver answers a payload and an error; a non-[nil] error is what the
    GraphQL server reports in the [errors] member of its response, the
    protocol-level failure.  The debugging prints to the standard output
    are left out. *)

Module Resolver.

Record TicketInput := {
  in_Value : string;
  in_Version : string;
  in_RemainingUsages : Z;
  in_ExpiresAt : string;
  in_Holder : string;
  in_CreatedAt : string
}.

Record VoteInput := {
  in_Usernames : list string;
  in_Ticket : TicketInput
}.

Section WithLayout.
Context `{TimeLayout}.

Definition Vote (Input : VoteInput) : M (VoteResponse * error) :=
  now <- Now ;;
  let failResponse := {| Success := false; Message := "投票失败";
                         Usernames := in_Usernames Input; Timestamp := now |} in
  match Parse (in_ExpiresAt (in_Ticket Input)) with
  | inr err => ret (failResponse, Some ("解析票据过期时间失败: " +:+ err))
  | inl expiresAt =>
      match Parse (in_CreatedAt (in_Ticket Input)) with
      | inr err => ret (failResponse, Some ("解析票据创建时间失败: " +:+ err))
      | inl createdAt =>
          let ticket := {| Value := in_Value (in_Ticket Input);
                           Version := in_Version (in_Ticket Input);
                           RemainingUsages := in_RemainingUsages (in_Ticket Input);
                           ExpiresAt := expiresAt; CreatedAt := createdAt |} in
          let request := {| req_Usernames := in_Usernames Input; req_Ticket := ticket |} in
          r <- VoteService.Vote request ;;
          let (response, err) := r in
          match err with
          | Some e => ret (failResponse, Some e)
          | None => ret (response, None)
          end
      end
  end.

Definition TicketAndVote (usernames : list string) : M (VoteResponse * error) :=
  if decide (length usernames = 0%nat)
  then
    now <- Now ;;
    ret ({| Success := false; Message := "投票失败: 用户名列表不能为空";
            Usernames := []; Timestamp := now |}, None)
  else
    match VoteService.first_invalid usernames with
    | Some username =>
        now <- Now ;;
        ret ({| Success := false;
                Message := "投票失败: 无效的用户名: " +:+ username
                           +:+ ", 用户名必须是A-Z之间的单个字母";
                Usernames := usernames; Timestamp := now |}, None)
    | None =>
        r <- VoteService.TicketAndVote usernames ;;
        let (response, err) := r in
        match err with
        | Some e =>
            now <- Now ;;
            ret ({| Success := false; Message := "投票失败: " +:+ e;
                    Usernames := usernames; Timestamp := now |}, None)
        | None => ret (response, None)
        end
    end.

(** What the GraphQL server reads off a [TicketResolver] through its five
    methods, and off a [UserVoteResolver] through its three. *)
Record TicketFields := {
  f_value : string;
  f_version : string;
  f_remainingUsages : Z;
  f_expiresAt : string;
  f_createdAt : string
}.

Definition TicketResolver (ticket : Ticket) : TicketFields :=
  {| f_value := Value ticket;
     f_version := Version ticket;
     f_remainingUsages := int32 (RemainingUsages ticket);
     f_expiresAt := Format (ExpiresAt ticket);
     f_createdAt := Format (CreatedAt ticket) |}.

Record UserVoteFields := {
  f_username : string;
  f_votes : Z;
  f_updatedAt : string
}.

Definition UserVoteResolver (userVote : UserVote) : UserVoteFields :=
  {| f_username := Username userVote;
     f_votes := int32 (Votes userVote);
     f_updatedAt := Format (UpdatedAt userVote) |}.

Definition GetTicket : M (Ticket * error) :=
  expires <- Now ;;
  created <- Now ;;
  let failResponse := {| Value := ""; Version := ""; RemainingUsages := 0;
                         ExpiresAt := expires; CreatedAt := created |} in
  now <- Now ;;
  let clientID := "client-" +:+ itoa now in
  r <- VoteService.GetTicket clientID ;;
  match r with
  | inr err => ret (failResponse, Some err)
  | inl ticket => ret (ticket, None)
  end.

End WithLayout.

Section WithJSON.
Context `{UserVoteJSON}.

Definition GetUserVotes (username : string) : Q (UserVote * error) :=
  now <-- on_stores Now ;;
  let failResponse := {| Username := username; Votes := 0; UpdatedAt := now |} in
  r <-- VoteService.GetUserVote username ;;
  match r with
  | inr err => pass_ret (failResponse, Some err)
  | inl userVote => pass_ret (userVote, None)
  end.

End WithJSON.

End Resolver.

(** ** internal/lock/etcd_lock.go

    The coordination store binds a key to the lease it was put with; the
    keys of a lease go away when the lease is revoked.  One replica is the
    caller: [locks] is its map of held locks, and [renewers] the leases
    that one of its [keepAlive] tasks is renewing.  The other replicas are
    whoever else has put keys in the store.  The mutex of the lock object
    makes each operation below run in one piece. *)

Module EtcdLock.

Definition defaultTTL : Z := 10.

Record lockEntry := {
  leaseID : Z;
  key : string
}.

Record Etcd := {
  kv : gmap string Z;
  leases : gset Z;
  next_lease : Z
}.

Inductive EtcdCall :=
| LeaseGrant (ttl : Z)
| TxnPutIfAbsent (key : string) (lease : Z)
| LeaseRevoke (lease : Z)
| Delete (key : string).

Record State := {
  etcd : Etcd;
  etcd_faults : list (option string);
  locks : gmap string lockEntry;
  renewers : gset Z;
  calls : list EtcdCall
}.

Definition L (A : Type) : Type := State -> A * State.

(** One round trip to the coordination store. *)
Definition etcd_call {A} (c : EtcdCall) (run : Etcd -> A * Etcd) : L (A + string) :=
  fun s =>
    let (f, plan) := next_fault (etcd_faults s) in
    match f with
    | Some msg =>
        (inr msg, {| etcd := etcd s; etcd_faults := plan; locks := locks s;
                     renewers := renewers s; calls := calls s ++ [c] |})
    | None =>
        let (a, e) := run (etcd s) in
        (inl a, {| etcd := e; etcd_faults := plan; locks := locks s;
                   renewers := renewers s; calls := calls s ++ [c] |})
    end.

Definition set_locks (l : gmap string lockEntry) (s : State) : State :=
  {| etcd := etcd s; etcd_faults := etcd_faults s; locks := l;
     renewers := renewers s; calls := calls s |}.

Definition set_renewers (r : gset Z) (s : State) : State :=
  {| etcd := etcd s; etcd_faults := etcd_faults s; locks := locks s;
     renewers := r; calls := calls s |}.

(** [lease.Grant(ctx, defaultTTL)]: a lease that did not exist. *)
Definition run_Grant (e : Etcd) : Z * Etcd :=
  (next_lease e,
   {| kv := kv e; leases := {[next_lease e]} ∪ leases e;
      next_lease := next_lease e + 1 |}).

(** [If(CreateRevision(key) = 0).Then(Put(key, "", WithLease(id))).Else()]:
    the answer is [Succeeded]. *)
Definition run_Txn (key : string) (id : Z) (e : Etcd) : bool * Etcd :=
  match kv e !! key with
  | None => (true, {| kv := <[key := id]> (kv e); leases := leases e;
                      next_lease := next_lease e |})
  | Some _ => (false, e)
  end.

Definition run_Revoke (id : Z) (e : Etcd) : unit * Etcd :=
  (tt, {| kv := filter (fun kl => kl.2 ≠ id) (kv e);
          leases := leases e ∖ {[id]};
          next_lease := next_lease e |}).

Definition run_Delete (key : string) (e : Etcd) : unit * Etcd :=
  (tt, {| kv := delete key (kv e); leases := leases e;
          next_lease := next_lease e |}).

Definition lret {A} (a : A) : L A := fun s => (a, s).

Definition lbind {A B} (m : L A) (k : A -> L B) : L B :=
  fun s => let (a, s') := m s in k a s'.

Notation "x <~ m ;; k" := (lbind m (fun x => k))
  (at level 100, m at next level, right associativity).

Definition AcquireLock (lockName : string) (timeout : Z) : L (bool * error) :=
  fun s =>
  match locks s !! lockName with
  | Some _ => ((false, Some ("锁 " +:+ lockName +:+ " 已被当前实例持有")), s)
  | None =>
      let key := "/locks/" +:+ lockName in
      (grantResp <~ etcd_call (LeaseGrant defaultTTL) run_Grant ;;
       match grantResp with
       | inr err => lret (false, Some ("创建租约失败: " +:+ err))
       | inl id =>
           txnResp <~ etcd_call (TxnPutIfAbsent key id) (run_Txn key id) ;;
           match txnResp with
           | inr err =>
               _ <~ etcd_call (LeaseRevoke id) (run_Revoke id) ;;
               lret (false, Some ("事务执行失败: " +:+ err))
           | inl false =>
               _ <~ etcd_call (LeaseRevoke id) (run_Revoke id) ;;
               lret (false, None)
           | inl true =>
               fun s =>
                 ((true, None),
                  set_locks (<[lockName := {| leaseID := id; key := key |}]> (locks s))
                    (set_renewers ({[id]} ∪ renewers s) s))
           end
       end) s
  end.

Definition releaseLock (lockName : string) : L error :=
  fun s =>
  match locks s !! lockName with
  | None => (None, s)
  | Some entry =>
      (_ <~ (fun s => (tt, set_renewers (renewers s ∖ {[leaseID entry]}) s)) ;;
       r <~ etcd_call (Delete (key entry)) (run_Delete (key entry)) ;;
       match r with
       | inr err => lret (Some ("删除键失败: " +:+ err))
       | inl _ =>
           r <~ etcd_call (LeaseRevoke (leaseID entry)) (run_Revoke (leaseID entry)) ;;
           match r with
           | inr err => lret (Some ("释放租约失败: " +:+ err))
           | inl _ =>
               fun s => (None, set_locks (delete lockName (locks s)) s)
           end
       end) s
  end.

Definition ReleaseLock (lockName : string) : L error := releaseLock lockName.

End EtcdLock.

(** ** internal/kafka/consumer.go

    [NewConsumer], from the list of partitions that the broker answers
    (or the error of the dial) to the readers of the replica.  The topic
    and the group come from the configuration. *)

Module Consumer.

Record Partition := {
  Topic : string;
  ID : Z
}.

Inductive Reader :=
| PartitionReader (topic : string) (partition : Z)
| GroupReader (topic groupID : string).

Record Consumer := {
  readers : list Reader;
  numWorkers : Z
}.

Definition min (a b : Z) : Z := if a <? b then a else b.

(** [len] of a slice. *)
Definition len {A} (l : list A) : Z := Z.of_nat (length l).

(** [s[i]]: an index out of range is a run-time panic, [None]. *)
Definition index {A} (s : list A) (i : Z) : option A :=
  if (i <? 0) || (len s <=? i) then None else s !! Z.to_nat i.

(** The partitions of the topic, in the order of the answer. *)
Fixpoint topic_partitions (topic : string) (partitions : list Partition) : list Z :=
  match partitions with
  | [] => []
  | p :: rest =>
      if String.eqb (Topic p) topic
      then ID p :: topic_partitions topic rest
      else topic_partitions topic rest
  end.

(** [for i := 0; i < numWorkers; i++], with [todo] rounds to go. *)
Fixpoint assign (topic : string) (topicPartitions : list Z) (todo : nat) (i : Z)
  (readers : list Reader) : M (option (list Reader)) :=
  match todo with
  | O => ret (Some readers)
  | S todo =>
      let partitionIndex := Z.rem i (len topicPartitions) in
      match index topicPartitions partitionIndex with
      | None => ret None
      | Some partition =>
          let readers := readers ++ [PartitionReader topic partition] in
          Printf ("消费者工作线程 #" +:+ itoa i +:+ " 将处理分区: " +:+ itoa partition) ;;;
          assign topic topicPartitions todo (i + 1) readers
      end
  end.

(** The answer is [None] on a panic, an error, or the consumer. *)
Definition NewConsumer (topic groupID : string) (dial : list Partition + string)
  : M (option (Consumer + string)) :=
  let numWorkers := 8 in
  match dial with
  | inr err => ret (Some (inr err))
  | inl partitions =>
      let topicPartitions := topic_partitions topic partitions in
      Printf ("检测到Kafka主题 " +:+ topic +:+ " 有 " +:+ itoa (len topicPartitions)
              +:+ " 个分区") ;;;
      let actualWorkers := min numWorkers (len topicPartitions) in
      numWorkers <- (if actualWorkers <? numWorkers
                     then
                       Printf ("分区数量(" +:+ itoa (len topicPartitions)
                               +:+ ")小于期望的goroutine数量(" +:+ itoa numWorkers
                               +:+ "), 将使用" +:+ itoa actualWorkers
                               +:+ "个goroutine消费") ;;;
                       ret actualWorkers
                     else ret numWorkers) ;;
      r <- (if 0 <? len topicPartitions
            then assign topic topicPartitions (Z.to_nat numWorkers) 0 []
            else ret (Some [])) ;;
      match r with
      | None => ret None
      | Some readers =>
          if len readers =? 0
          then
            Printf "未检测到分区或分区Reader创建失败，将使用消费者组模式" ;;;
            let readers := readers ++ [GroupReader topic groupID] in
            Printf ("创建消费者组Reader，GroupID: " +:+ groupID) ;;;
            ret (Some (inl {| readers := readers; numWorkers := 1 |}))
          else ret (Some (inl {| readers := readers; numWorkers := numWorkers |}))
      end
  end.

End Consumer.

(** ** internal/ticket/ticket_service.go, the producer

    The ticket service of a replica that runs the producer: the stores, the
    lock client (in [main] the lock is the [EtcdLock]), and the fields of
    the service that its two tasks share.  [producerLockCh] is a channel of
    capacity one: it holds a signal or it does not.  [LockTimeout] is
    [config.AppConfig.Ticket.LockTimeout].  Each function below runs in one
    piece; the tickers that call them are left out. *)

Module TicketProducer.

Definition TicketProducerLockName : string := "ticket:producer:lock".

Record Service := {
  world : World;
  redlock : EtcdLock.State;
  isProducer : bool;
  producerLockCh : bool;
  LockTimeout : Z
}.

Definition P : Type -> Type := pass Service.

Definition on_world {A} (m : M A) : P A :=
  fun s =>
    let (a, w) := m (world s) in
    (a, {| world := w; redlock := redlock s; isProducer := isProducer s;
           producerLockCh := producerLockCh s; LockTimeout := LockTimeout s |}).

Definition on_lock {A} (m : EtcdLock.L A) : P A :=
  fun s =>
    let (a, l) := m (redlock s) in
    (a, {| world := world s; redlock := l; isProducer := isProducer s;
           producerLockCh := producerLockCh s; LockTimeout := LockTimeout s |}).

Definition set_isProducer (b : bool) : P unit :=
  fun s =>
    (tt, {| world := world s; redlock := redlock s; isProducer := b;
            producerLockCh := producerLockCh s; LockTimeout := LockTimeout s |}).

Definition set_producerLockCh (b : bool) : P unit :=
  fun s =>
    (tt, {| world := world s; redlock := redlock s; isProducer := isProducer s;
            producerLockCh := b; LockTimeout := LockTimeout s |}).

(** [select { case s.producerLockCh <- struct{}{}: default: }]: the
    signal goes in if there is room, and is dropped otherwise. *)
Definition signal : P unit := set_producerLockCh true.

(** [select { case <-s.producerLockCh: ... default: ... }]: whether a
    signal was there, which is then taken. *)
Definition take_signal : P bool :=
  fun s =>
    (producerLockCh s,
     {| world := world s; redlock := redlock s; isProducer := isProducer s;
        producerLockCh := false; LockTimeout := LockTimeout s |}).

Definition tryAcquireProducerLock : P unit :=
  timeout <-- (fun s => (LockTimeout s, s)) ;;
  r <-- on_lock (EtcdLock.AcquireLock TicketProducerLockName timeout) ;;
  let (acquired, err) := r in
  match err with
  | Some e => on_world (Printf ("检查票据生成器锁失败: " +:+ e))
  | None =>
      if acquired
      then _ <-- set_isProducer true ;; signal
      else pass_ret tt
  end.

Section WithLayout.
Context `{TimeLayout}.

(** The part of [refreshTicket] that runs once the lock is held. *)
Definition generate_and_release : P unit :=
  _ <-- on_world TicketService.generateTicket ;;
  err <-- on_lock (EtcdLock.ReleaseLock TicketProducerLockName) ;;
  match err with
  | Some e => on_world (Printf ("释放票据生成器锁失败: " +:+ e))
  | None => pass_ret tt
  end.

Definition refreshTicket : P unit :=
  signalled <-- take_signal ;;
  if signalled
  then generate_and_release
  else
    timeout <-- (fun s => (LockTimeout s, s)) ;;
    r <-- on_lock (EtcdLock.AcquireLock TicketProducerLockName timeout) ;;
    let (lockAcquired, err) := r in
    match err with
    | Some e => on_world (Printf ("获取票据生成器锁失败: " +:+ e))
    | None =>
        if negb lockAcquired
        then on_world (Printf "未能获取票据生成器锁，跳过当前刷新")
        else generate_and_release
    end.

End WithLayout.

End TicketProducer.

(** ** Observations *)

(** What the script would read as the remaining usages of a version in the
    fast tier. *)
Definition fast_remaining (r : Redis) (version : string) : option Z :=
  match rkeys r !! (RedisRepository.TicketKey +:+ version) with
  | Some (RHash h) => from_option tonumber None (h !! "remainingUsages")
  | _ => None
  end.

(** The remaining usages of a version in the durable tier. *)
Definition durable_remaining (db : MySQL) (version : string) : option Z :=
  t_remaining_usages <$> tickets db !! version.

(** The tally of a user in the durable tier. *)
Definition tally (db : MySQL) (username : string) : option Z :=
  votes <$> user_votes db !! username.

(** The calls to the stores among some events, log lines left out. *)
Definition store_calls (evs : list Event) : list Event :=
  List.filter (fun e => match e with ELog _ => false | _ => true end) evs.

(** [preserves R m]: the world after the service [m] is related by [R]
    to the world before. *)
Definition preserves {A} (R : relation World) (m : M A) : Prop :=
  forall w, R w (m w).2.

(** The observation [obs] of the world is kept. *)
Definition keeps {X} (obs : World -> X) : relation World :=
  fun w w' => obs w' = obs w.

(** A counter that is where it was, or lower and still not negative. *)
Definition declines (before after : option Z) : Prop :=
  after = before \/
  exists n m, before = Some n /\ after = Some m /\ 0 <= m < n.

(** No version has gained usages in the fast tier. *)
Definition fast_declines : relation World :=
  fun w w' =>
    forall version,
      declines (fast_remaining (redis w) version) (fast_remaining (redis w') version).

(** No version has gained usages in the durable tier. *)
Definition durable_declines : relation World :=
  fun w w' =>
    forall version,
      declines (durable_remaining (mysql w) version) (durable_remaining (mysql w') version).

(** No version has gained usages, in either tier. *)
Definition tiers_decline : relation World :=
  fun w w' =>
    forall version,
      declines (fast_remaining (redis w) version) (fast_remaining (redis w') version) /\
      declines (durable_remaining (mysql w) version) (durable_remaining (mysql w') version).

(** Whether the [n]-th round trip to come is planned to fail. *)
Definition fails (plan : list (option string)) (n : nat) : Prop :=
  exists msg, plan !! n = Some (Some msg).

(** The caller holds a lock: it has an entry for it, and the store binds
    the key of the entry to the lease of the entry. *)
Definition holds (s : EtcdLock.State) (lockName : string) : Prop :=
  exists entry,
    EtcdLock.locks s !! lockName = Some entry /\
    EtcdLock.kv (EtcdLock.etcd s) !! EtcdLock.key entry = Some (EtcdLock.leaseID entry).

(** What [GetCurrentTicket] answers for the record it has read. *)
Definition verdict (version : string) (ticket : Ticket) : Ticket + string :=
  if RemainingUsages ticket <=? 0
  then inr ("票据 " +:+ version +:+ " 使用次数已耗尽")
  else inl ticket.

(** The ticket that a row of the durable tier stands for. *)
Definition ticket_of_row (version : string) (row : TicketRow) : Ticket :=
  {| Value := t_value row; Version := version;
     RemainingUsages := t_remaining_usages row;
     ExpiresAt := t_expires_at row; CreatedAt := t_created_at row |}.

(** The row that [IncrementVotes] appends to the log for a username. *)
Definition log_row (ticketVersion : string) (now : Time) (username : string) : VoteLogRow :=
  {| log_username := username; log_ticket_version := ticketVersion; voted_at := now |}.

(** How many times a username occurs in a list. *)
Definition occurrences (usernames : list string) (username : string) : Z :=
  Z.of_nat (count_occ string_dec usernames username).

(** The answers of a service called on each input in turn. *)
Fixpoint in_turn {A B} (f : A -> M B) (inputs : list A) : M (list B) :=
  match inputs with
  | [] => ret []
  | a :: rest =>
      b <- f a ;;
      bs <- in_turn f rest ;;
      ret (b :: bs)
  end.

(** How many of the tickets presented for a version were accepted. *)
Definition accepted (version : string) (presented : list Ticket)
  (answers : list (bool * error)) : Z :=
  Z.of_nat (length (List.filter (fun p : Ticket * (bool * error) =>
                                   String.eqb (Version p.1) version && p.2.1)
                      (combine presented answers))).

(** A field of a record of the fast tier that [GetTicket] reads as a time:
    it is empty or it parses. *)
Definition reads_time `{TimeLayout} (s : string) : Prop :=
  s = "" \/ exists t, Parse s = inl t.

(** The fast tier answers every call, knows the script under the hash that
    the replica holds, points at the version of the ticket, and holds its
    record with the value of the ticket and [n] usages left. *)
Definition spendable `{TimeLayout} (ticket : Ticket) (n : Z) (w : World) : Prop :=
  (forall k, ~ fails (redis_faults w) k) /\
  (exists sha, scriptHashes w !! "decrementTicketUsage" = Some sha /\
               rscripts (redis w) !! sha = Some DecrementTicketUsageScript) /\
  rkeys (redis w) !! RedisRepository.TicketVersionKey = Some (RStr (Version ticket)) /\
  exists h,
    rkeys (redis w) !! (RedisRepository.TicketKey +:+ Version ticket) = Some (RHash h) /\
    h !! "value" = Some (Value ticket) /\
    h !! "remainingUsages" = Some (itoa n) /\
    reads_time (RedisRepository.field h "expiresAt") /\
    reads_time (RedisRepository.field h "createdAt").

(** What the calls to Redis and the log lines leave alone. *)
Definition beside_redis : relation World :=
  fun w w' =>
    mysql w' = mysql w /\ kafka w' = kafka w /\
    mysql_faults w' = mysql_faults w /\ kafka_faults w' = kafka_faults w /\
    config w' = config w /\ clock w' = clock w /\ entropy w' = entropy w.

(** The input of [vote] that a client makes of the ticket that [getTicket]
    answered, field by field. *)
Definition TicketInput_of (fields : Resolver.TicketFields) : Resolver.TicketInput :=
  {| Resolver.in_Value := Resolver.f_value fields;
     Resolver.in_Version := Resolver.f_version fields;
     Resolver.in_RemainingUsages := Resolver.f_remainingUsages fields;
     Resolver.in_ExpiresAt := Resolver.f_expiresAt fields;
     Resolver.in_Holder := "";
     Resolver.in_CreatedAt := Resolver.f_createdAt fields |}.

(** Services run one after the other. *)
Fixpoint in_sequence {S} (tasks : list (pass S unit)) : pass S unit :=
  match tasks with
  | [] => pass_ret tt
  | task :: rest => _ <-- task ;; in_sequence rest
  end.

(** ** Sample worlds

    A layout that renders a time as its decimal count, for the evaluation
    of the services on sample worlds; nothing below depends on what the
    rendering looks like. *)
Definition decimal_layout : TimeLayout :=
  {| Format := itoa;
     Parse := fun s => match atoi s with
                       | Some t => inl t
                       | None => inr ("parsing time " +:+ s)
                       end |}.

Definition ticket100 : Ticket :=
  {| Value := "c0ffee"; Version := "100"; RemainingUsages := 3;
     ExpiresAt := 2100; CreatedAt := 100 |}.

(** The same version and value, presented with other numbers. *)
Definition ticket100_forged : Ticket :=
  {| Value := "c0ffee"; Version := "100"; RemainingUsages := 1000000;
     ExpiresAt := 0; CreatedAt := 99 |}.

Definition row100 (remaining : Z) : TicketRow :=
  {| t_value := "c0ffee"; t_remaining_usages := remaining;
     t_expires_at := 2100; t_created_at := 100 |}.

Definition hash100 (remaining : Z) : gmap string string :=
  list_to_map [("value", "c0ffee"); ("remainingUsages", itoa remaining);
               ("expiresAt", "2100"); ("createdAt", "100")].

(** A fast tier that holds version 100 with [remaining] usages left and
    points at it, the script being loaded, and the tally of D cached. *)
Definition redis100 (remaining : Z) : Redis :=
  {| rkeys := <["ticket:newest:version" := RStr "100"]>
                (<["ticket:100" := RHash (hash100 remaining)]>
                   (<["user:vote:D" := RStr "D:5"]> ∅));
     rttl := {["ticket:100" := 10]};
     rscripts := {[sha1 DecrementTicketUsageScript := DecrementTicketUsageScript]} |}.

Definition mysql100 (remaining : Z) : MySQL :=
  {| user_votes := {["A" := {| votes := 0; updated_at := 0 |}]} ∪
                   {["D" := {| votes := 5; updated_at := 0 |}]};
     vote_logs := [];
     tickets := {["100" := row100 remaining]} |}.

(** A replica at rest: [fast] usages left in the fast tier, [durable] in
    the durable tier, and the failures to come on each store. *)
Definition world100 (fast durable : Z) (rf mf kf : list (option string)) : World :=
  {| redis := redis100 fast; mysql := mysql100 durable; kafka := [];
     redis_faults := rf; mysql_faults := mf; kafka_faults := kf;
     scriptHashes := {["decrementTicketUsage" := sha1 DecrementTicketUsageScript]};
     config := {| MaxUsageCount := 3; RefreshInterval := 2000 |};
     clock := 1000; entropy := []; trace := [] |}.

(** The same replica after the record of version 100 has left the fast tier
    (its time to live ran out); the pointer still names it. *)
Definition world100_evicted (durable : Z) : World :=
  set_redis
    {| rkeys := delete "ticket:100" (rkeys (redis100 0));
       rttl := ∅; rscripts := rscripts (redis100 0) |}
    (world100 0 durable [] [] []).

(** A coordination store in which another replica holds the producer lock,
    and one in which nobody does; the caller holds nothing. *)
Definition lock_taken : EtcdLock.State :=
  {| EtcdLock.etcd := {| EtcdLock.kv := {["/locks/ticket:producer:lock" := 7]};
                         EtcdLock.leases := {[7]}; EtcdLock.next_lease := 8 |};
     EtcdLock.etcd_faults := []; EtcdLock.locks := ∅;
     EtcdLock.renewers := ∅; EtcdLock.calls := [] |}.

Definition lock_free : EtcdLock.State :=
  {| EtcdLock.etcd := {| EtcdLock.kv := ∅; EtcdLock.leases := ∅;
                         EtcdLock.next_lease := 8 |};
     EtcdLock.etcd_faults := []; EtcdLock.locks := ∅;
     EtcdLock.renewers := ∅; EtcdLock.calls := [] |}.

(** The fast tier has counted version 100 down to zero while the durable
    tier, which trails it, still says 3; the read of the record is about
    to time out. *)
Definition world_lagging : World := world100 0 3 [None; Some "i/o timeout"] [] [].

(** A vote for D with the current ticket, while the bus refuses writes. *)
Definition request_D : VoteRequest :=
  {| req_Usernames := ["D"]; req_Ticket := ticket100 |}.

Definition world_bus_down : World :=
  world100 3 3 [] [] [Some "kafka: broker not available"].

(** A vote for a lowercase name, the ticket being well-formed. *)
Definition input_lowercase : Resolver.VoteInput :=
  {| Resolver.in_Usernames := ["a"];
     Resolver.in_Ticket :=
       {| Resolver.in_Value := "c0ffee"; Resolver.in_Version := "100";
          Resolver.in_RemainingUsages := 3; Resolver.in_ExpiresAt := "2100";
          Resolver.in_Holder := ""; Resolver.in_CreatedAt := "100" |} |}.

(** The caller holds the producer lock and the coordination store is about
    to time out. *)
Definition lock_held_unreachable : EtcdLock.State :=
  {| EtcdLock.etcd := {| EtcdLock.kv := {["/locks/ticket:producer:lock" := 8]};
                         EtcdLock.leases := {[8]}; EtcdLock.next_lease := 9 |};
     EtcdLock.etcd_faults := [Some "context deadline exceeded"];
     EtcdLock.locks := {["ticket:producer:lock" :=
                           {| EtcdLock.leaseID := 8;
                              EtcdLock.key := "/locks/ticket:producer:lock" |}]};
     EtcdLock.renewers := {[8]}; EtcdLock.calls := [] |}.

(** Neither the bus nor the database takes a write. *)
Definition world_bus_and_database_down : World :=
  world100 3 3 [] [Some "dial tcp: connection refused"] [Some "kafka: broker not available"].

(** The event of a vote for D with the ticket of version 100. *)
Definition event_D : VoteEvent :=
  {| ev_Usernames := ["D"]; TicketVersion := "100"; VotedAt := 1000 |}.

(** A replica whose connection to the fast tier is just up: it holds no
    script hash yet and the server has no script. *)
Definition world100_connecting : World :=
  set_scriptHashes ∅
    (set_redis {| rkeys := rkeys (redis100 3); rttl := rttl (redis100 3); rscripts := ∅ |}
       (world100 3 3 [] [] [])).

(** A codec that writes the three fields of a [UserVote] in decimal,
    colons between them, for the evaluation of the queries on sample
    worlds. *)
Fixpoint colon_fields (s : string) : list string :=
  match s with
  | EmptyString => [EmptyString]
  | String c rest =>
      if Ascii.eqb c ":"
      then EmptyString :: colon_fields rest
      else match colon_fields rest with
           | f :: fs => String c f :: fs
           | [] => [String c EmptyString]
           end
  end.

Definition colon_json : UserVoteJSON :=
  {| Marshal := fun userVote =>
       inl (Username userVote +:+ ":" +:+ itoa (Votes userVote) +:+ ":"
            +:+ itoa (UpdatedAt userVote));
     Unmarshal := fun data =>
       match colon_fields data with
       | [username; n; t] =>
           match atoi n, atoi t with
           | Some n, Some t => inl {| Username := username; Votes := n; UpdatedAt := t |}
           | _, _ => inr "invalid character looking for beginning of value"
           end
       | _ => inr "unexpected end of JSON input"
       end |}.

(** A ticket service at rest over given stores: the lock client holds
    nothing, no signal waits. *)
Definition service_at_rest (w : World) (l : EtcdLock.State) : TicketProducer.Service :=
  {| TicketProducer.world := w; TicketProducer.redlock := l;
     TicketProducer.isProducer := true; TicketProducer.producerLockCh := false;
     TicketProducer.LockTimeout := 5 |}.

(** The coordination store answers the first two calls and then times
    out. *)
Definition lock_free_then_unreachable : EtcdLock.State :=
  {| EtcdLock.etcd := {| EtcdLock.kv := ∅; EtcdLock.leases := ∅;
                         EtcdLock.next_lease := 8 |};
     EtcdLock.etcd_faults := [None; None; Some "context deadline exceeded"];
     EtcdLock.locks := ∅; EtcdLock.renewers := ∅; EtcdLock.calls := [] |}.

(** The replica with the durable count of version 100 run out and a
    cached entry for D that the codec reads. *)
Definition world100_cached : World :=
  set_redis {| rkeys := <["user:vote:D" := RStr "D:5:0"]> (rkeys (redis100 3));
               rttl := rttl (redis100 3); rscripts := rscripts (redis100 3) |}
    (world100 3 0 [] [] []).

(** * Properties *)

(** ** Round trips *)

Lemma atoi_itoa (n : Z) : atoi (itoa n) = Some n.
Proof.
  unfold atoi, itoa.
  rewrite NilZero.isi.
  - simpl. now rewrite DecimalZ.of_to.
  - destruct n as [|p|p]; simpl; try discriminate.
    intros [= Hp]. now apply DecimalPos.Unsigned.to_uint_nonnil in Hp.
  - destruct n as [|p|p]; simpl; try discriminate.
    intros [= Hp]. now apply DecimalPos.Unsigned.to_uint_nonnil in Hp.
Qed.

Lemma redis_call_through {A} (c : RedisCmd) (run : Redis -> Answer A * Redis) (w : World) plan :
  next_fault (redis_faults w) = (None, plan) ->
  redis_call c run w =
    ((run (redis w)).1,
     set_redis (run (redis w)).2 (record (ERedis c) (set_redis_faults plan w))).
Proof.
  intros Hf. unfold redis_call. rewrite Hf. cbn.
  now destruct (run (redis w)).
Qed.

(** ** Validation and spending read the version and the value only *)

(** C9. Two presented tickets that agree on [Version] and [Value] get the
    same answer, the same error and leave the same world behind, from
    [ValidateTicket] and from [UseTicket], whatever their remaining
    usages, expiry and creation time say. *)
Theorem UseTicket_reads_version_and_value `{TimeLayout} (t1 t2 : Ticket) (w : World) :
  Version t1 = Version t2 ->
  Value t1 = Value t2 ->
  TicketService.ValidateTicket t1 w = TicketService.ValidateTicket t2 w /\
  TicketService.UseTicket t1 w = TicketService.UseTicket t2 w.
Proof.
  intros Hversion Hvalue.
  unfold TicketService.UseTicket, TicketService.ValidateTicket,
    RedisRepository.ValidateTicket.
  now rewrite Hversion, Hvalue.
Qed.

Lemma UseTicket_reads_version_and_value_witness :
  RemainingUsages ticket100 <> RemainingUsages ticket100_forged /\
  (@TicketService.UseTicket decimal_layout ticket100 (world100 3 3 [] [] [])).1 = (true, None) /\
  @TicketService.UseTicket decimal_layout ticket100 (world100 3 3 [] [] []) =
  @TicketService.UseTicket decimal_layout ticket100_forged (world100 3 3 [] [] []).
Proof.
  split; [discriminate | split; [reflexivity |]].
  exact (proj2 (@UseTicket_reads_version_and_value decimal_layout
                  ticket100 ticket100_forged (world100 3 3 [] [] []) eq_refl eq_refl)).
Defined.

(** ** The spender *)

(** [ValidateTicket] answers [true] without an error, or [false] with one. *)
Lemma ValidateTicket_answers `{TimeLayout} (ticket : Ticket) (w : World) :
  (TicketService.ValidateTicket ticket w).1 = (true, None) \/
  exists e, (TicketService.ValidateTicket ticket w).1 = (false, Some e).
Proof.
  unfold TicketService.ValidateTicket, RedisRepository.ValidateTicket, bind.
  destruct (RedisRepository.GetNewestTicketVersion w) as [[newest [e|]] w1]; cbn.
  { right. eauto. }
  destruct (String.eqb (Version ticket) newest); cbn; [| right; eauto].
  destruct (RedisRepository.GetTicket (Version ticket) w1) as [[stored|e] w2]; cbn.
  - destruct (String.eqb (Value ticket) (Value stored)); cbn; [left | right]; eauto.
  - right. eauto.
Qed.

(** What validation checks: the version presented is the one the pointer
    of the fast tier holds, the record of that version can be read from the
    fast tier, and the value presented is the value of that record. *)
Lemma ValidateTicket_true_iff `{TimeLayout} (ticket : Ticket) (w : World) :
  (TicketService.ValidateTicket ticket w).1 = (true, None) <->
  exists w1 stored w2,
    RedisRepository.GetNewestTicketVersion w = ((Version ticket, None), w1) /\
    RedisRepository.GetTicket (Version ticket) w1 = (inl stored, w2) /\
    Value ticket = Value stored.
Proof.
  unfold TicketService.ValidateTicket, RedisRepository.ValidateTicket, bind.
  destruct (RedisRepository.GetNewestTicketVersion w) as [[newest [e|]] w1]; cbn.
  { split; [discriminate | intros (? & ? & ? & [=] & _)]. }
  destruct (String.eqb_spec (Version ticket) newest) as [->|Hne]; cbn.
  2:{ split; [discriminate | intros (? & ? & ? & [=] & _); congruence]. }
  destruct (RedisRepository.GetTicket newest w1) as [[stored|e] w2] eqn:Hget; cbn.
  - destruct (String.eqb_spec (Value ticket) (Value stored)) as [Hv|Hv]; cbn.
    + split; [intros _ | reflexivity]. exists w1, stored, w2. auto.
    + split; [discriminate |].
      intros (w1' & stored' & w2' & [= <-] & Hget' & Hv').
      rewrite Hget in Hget'. congruence.
  - split; [discriminate |].
    intros (w1' & stored' & w2' & [= <-] & Hget' & _).
    rewrite Hget in Hget'. discriminate.
Qed.

(** ** The atomic decrement of the fast tier *)

Section Script.
Import RedisRepository.

(** The script on a record that lacks the field. *)
Lemma lua_corrupt (key : string) (rest : list string) (r : Redis) :
  rkeys r !! key = None \/
  (exists h, rkeys r !! key = Some (RHash h) /\ h !! "remainingUsages" = None) ->
  lua_DecrementTicketUsage (key :: rest) r =
    (Got (RArray [RInt (-1); RBulk "票据数据损坏"]), r).
Proof.
  intros [Hk | (h & Hk & Hf)]; unfold lua_DecrementTicketUsage; rewrite Hk.
  - reflexivity.
  - now rewrite Hf.
Qed.

(** The script on a record whose count is used up. *)
Lemma lua_exhausted (key : string) (rest : list string) (r : Redis) h s n :
  rkeys r !! key = Some (RHash h) ->
  h !! "remainingUsages" = Some s ->
  tonumber s = Some n ->
  n <= 0 ->
  lua_DecrementTicketUsage (key :: rest) r =
    (Got (RArray [RInt (-1); RBulk "票据使用次数已耗尽"]), r).
Proof.
  intros Hk Hf Hn Hle. unfold lua_DecrementTicketUsage.
  rewrite Hk, Hf. cbn. rewrite Hn.
  now destruct (Z.leb_spec n 0); [| lia].
Qed.

(** The script on a record with usages left. *)
Lemma lua_decrements (key : string) (rest : list string) (r : Redis) h s n :
  rkeys r !! key = Some (RHash h) ->
  h !! "remainingUsages" = Some s ->
  tonumber s = Some n ->
  0 < n ->
  lua_DecrementTicketUsage (key :: rest) r =
    (Got (RArray [RInt 0; RInt (n - 1)]),
     {| rkeys := <[key := RHash (<["remainingUsages" := itoa (n - 1)]> h)]> (rkeys r);
        rttl := rttl r; rscripts := rscripts r |}).
Proof.
  intros Hk Hf Hn Hlt. unfold lua_DecrementTicketUsage.
  rewrite Hk, Hf. cbn. rewrite Hn.
  now destruct (Z.leb_spec n 0); [lia |].
Qed.

(** [DecrementTicketUsage] when the first [EVALSHA] reaches the server and
    the server knows the script. *)
Lemma DecrementTicketUsage_runs_script (version sha : string) (w : World) plan reply r' :
  scriptHashes w !! "decrementTicketUsage" = Some sha ->
  next_fault (redis_faults w) = (None, plan) ->
  rscripts (redis w) !! sha = Some DecrementTicketUsageScript ->
  lua_DecrementTicketUsage [TicketKey +:+ version; TicketVersionKey] (redis w) = (Got reply, r') ->
  DecrementTicketUsage version w =
    (parse_script_result reply,
     set_redis r'
       (record (ERedis (EVALSHA sha [TicketKey +:+ version; TicketVersionKey] [version]))
          (set_redis_faults plan w))).
Proof.
  intros Hsha Hplan Hscript Hlua.
  unfold DecrementTicketUsage. rewrite Hsha.
  unfold bind, EvalSha.
  rewrite (redis_call_through _ _ _ _ Hplan).
  unfold run_EVALSHA. rewrite Hscript. unfold run_script. now rewrite Hlua.
Qed.

Lemma fast_remaining_Some (r : Redis) (version : string) (n : Z) :
  fast_remaining r version = Some n ->
  exists h s, rkeys r !! (TicketKey +:+ version) = Some (RHash h) /\
              h !! "remainingUsages" = Some s /\ tonumber s = Some n.
Proof.
  unfold fast_remaining.
  destruct (rkeys r !! (TicketKey +:+ version)) as [[s|h]|]; try discriminate.
  destruct (h !! "remainingUsages") as [s|] eqn:Hf; try discriminate.
  cbn. eauto.
Qed.

End Script.

Lemma redis_call_trace {A} (c : RedisCmd) (run : Redis -> Answer A * Redis) (w : World) :
  trace (redis_call c run w).2 = trace w ++ [ERedis c].
Proof.
  unfold redis_call.
  destruct (next_fault (redis_faults w)) as [[msg|] plan]; cbn; [reflexivity |].
  now destruct (run (redis w)).
Qed.

Section Decrement.
Import RedisRepository.

Lemma DecrementTicketUsage_corrupt (version sha : string) (w : World) plan :
  scriptHashes w !! "decrementTicketUsage" = Some sha ->
  next_fault (redis_faults w) = (None, plan) ->
  rscripts (redis w) !! sha = Some DecrementTicketUsageScript ->
  (rkeys (redis w) !! (TicketKey +:+ version) = None \/
   exists h, rkeys (redis w) !! (TicketKey +:+ version) = Some (RHash h) /\
             h !! "remainingUsages" = None) ->
  (DecrementTicketUsage version w).1 = (0, Some "票据数据损坏") /\
  redis (DecrementTicketUsage version w).2 = redis w.
Proof.
  intros Hsha Hplan Hscript Habsent.
  rewrite (DecrementTicketUsage_runs_script _ _ _ _ _ _ Hsha Hplan Hscript
             (lua_corrupt _ _ _ Habsent)).
  split; reflexivity.
Qed.

Lemma DecrementTicketUsage_exhausted (version sha : string) (w : World) plan n :
  scriptHashes w !! "decrementTicketUsage" = Some sha ->
  next_fault (redis_faults w) = (None, plan) ->
  rscripts (redis w) !! sha = Some DecrementTicketUsageScript ->
  fast_remaining (redis w) version = Some n ->
  n <= 0 ->
  (DecrementTicketUsage version w).1 = (0, Some "票据使用次数已耗尽") /\
  redis (DecrementTicketUsage version w).2 = redis w.
Proof.
  intros Hsha Hplan Hscript Hn Hle.
  destruct (fast_remaining_Some _ _ _ Hn) as (h & s & Hk & Hf & Hs).
  rewrite (DecrementTicketUsage_runs_script _ _ _ _ _ _ Hsha Hplan Hscript
             (lua_exhausted _ _ _ _ _ _ Hk Hf Hs Hle)).
  split; reflexivity.
Qed.

Lemma DecrementTicketUsage_decrements (version sha : string) (w : World) plan n :
  scriptHashes w !! "decrementTicketUsage" = Some sha ->
  next_fault (redis_faults w) = (None, plan) ->
  rscripts (redis w) !! sha = Some DecrementTicketUsageScript ->
  fast_remaining (redis w) version = Some n ->
  0 < n ->
  (DecrementTicketUsage version w).1 = (n - 1, None) /\
  fast_remaining (redis (DecrementTicketUsage version w).2) version = Some (n - 1) /\
  scriptHashes (DecrementTicketUsage version w).2 = scriptHashes w /\
  rscripts (redis (DecrementTicketUsage version w).2) = rscripts (redis w) /\
  redis_faults (DecrementTicketUsage version w).2 = plan.
Proof.
  intros Hsha Hplan Hscript Hn Hlt.
  destruct (fast_remaining_Some _ _ _ Hn) as (h & s & Hk & Hf & Hs).
  rewrite (DecrementTicketUsage_runs_script _ _ _ _ _ _ Hsha Hplan Hscript
             (lua_decrements _ _ _ _ _ _ Hk Hf Hs Hlt)).
  repeat split; try reflexivity.
  unfold fast_remaining. cbn [snd redis set_redis rkeys].
  rewrite lookup_insert_eq, lookup_insert_eq. cbn.
  apply atoi_itoa.
Qed.

(** The calls that [DecrementTicketUsage] makes: one [EVALSHA]; when its
    error reads "script not cached", one [SCRIPT LOAD] and, if that went
    through, one more [EVALSHA], whose answer is final. *)
Lemma DecrementTicketUsage_calls (version sha : string) (w : World) :
  scriptHashes w !! "decrementTicketUsage" = Some sha ->
  let KEYS := [TicketKey +:+ version; TicketVersionKey] in
  let first := EvalSha sha KEYS [version] w in
  let reload := ScriptLoad DecrementTicketUsageScript first.2 in
  let after := DecrementTicketUsage version w in
  match first.1 with
  | Got result =>
      after.1 = parse_script_result result /\
      trace after.2 = trace w ++ [ERedis (EVALSHA sha KEYS [version])]
  | a =>
      if String.eqb (err_text a) NOSCRIPT
      then
        match reload.1 with
        | Got sha' =>
            let stored := set_scriptHashes
                            (<["decrementTicketUsage" := sha']> (scriptHashes reload.2))
                            reload.2 in
            let second := EvalSha sha' KEYS [version] stored in
            after.1 = match second.1 with
                      | Got result => parse_script_result result
                      | b => (0, Some ("执行票据使用次数脚本失败: " +:+ err_text b))
                      end /\
            after.2 = second.2 /\
            trace after.2 = trace w ++
              [ERedis (EVALSHA sha KEYS [version]);
               ERedis (SCRIPT_LOAD DecrementTicketUsageScript);
               ERedis (EVALSHA sha' KEYS [version])]
        | l =>
            after.1 = (0, Some ("重新加载票据使用次数脚本失败: " +:+ err_text l)) /\
            trace after.2 = trace w ++
              [ERedis (EVALSHA sha KEYS [version]);
               ERedis (SCRIPT_LOAD DecrementTicketUsageScript)]
        end
      else
        after.1 = (0, Some ("执行票据使用次数脚本失败: " +:+ err_text a)) /\
        trace after.2 = trace w ++ [ERedis (EVALSHA sha KEYS [version])]
  end.
Proof.
  intros Hsha. cbv zeta.
  unfold DecrementTicketUsage. rewrite Hsha. unfold bind, ret.
  set (KEYS := [TicketKey +:+ version; TicketVersionKey]).
  pose proof (redis_call_trace (EVALSHA sha KEYS [version])
                (run_EVALSHA sha KEYS [version]) w) as Ht1.
  pose proof (fun w1 => redis_call_trace (SCRIPT_LOAD DecrementTicketUsageScript)
                          (run_SCRIPT_LOAD DecrementTicketUsageScript) w1) as Ht2.
  pose proof (fun sha' w3 => redis_call_trace (EVALSHA sha' KEYS [version])
                               (run_EVALSHA sha' KEYS [version]) w3) as Ht3.
  fold (EvalSha sha KEYS [version]) in Ht1.
  fold (ScriptLoad DecrementTicketUsageScript) in Ht2.
  change (forall sha' w3, trace (EvalSha sha' KEYS [version] w3).2 =
                          trace w3 ++ [ERedis (EVALSHA sha' KEYS [version])]) in Ht3.
  destruct (EvalSha sha KEYS [version] w) as [a w1]. cbn [fst snd] in *.
  destruct a as [result| |msg]; cbn [err_text].
  1: now split.
  all: destruct (String.eqb _ NOSCRIPT); [| now split].
  all: specialize (Ht2 w1);
       destruct (ScriptLoad DecrementTicketUsageScript w1) as [l w2]; cbn [fst snd] in *.
  all: destruct l as [sha'| |msg']; cbn [err_text];
       try (cbn [fst snd]; split; [reflexivity | rewrite Ht2, Ht1, <- app_assoc; reflexivity]).
  all: specialize (Ht3 sha'
         (set_scriptHashes (<["decrementTicketUsage" := sha']> (scriptHashes w2)) w2));
       destruct (EvalSha sha' KEYS [version]
         (set_scriptHashes (<["decrementTicketUsage" := sha']> (scriptHashes w2)) w2))
         as [b w4]; cbn [fst snd trace set_scriptHashes] in *;
       (split; [now destruct b | split; [now destruct b |]]);
       destruct b; cbn [snd]; rewrite Ht3, Ht2, Ht1, <- !app_assoc; reflexivity.
Qed.

End Decrement.

(** C4. The decrement of the fast tier.  When the call reaches a server
    that knows the script: a record without the [remainingUsages] field
    gives the "corrupt" error; a count of zero or less gives the
    "exhausted" error and stays as it is; a positive count loses exactly
    one and the new count is returned, so that a call at 1 returns 0 and
    the next one is refused as exhausted.  And whatever the server
    answers, the caller sends one [EVALSHA]; when the error reads "script
    not cached" it loads the script again and sends one more [EVALSHA],
    whose answer, good or bad, is final. *)
Theorem DecrementTicketUsage_fast_tier (version sha : string) (w : World) :
  scriptHashes w !! "decrementTicketUsage" = Some sha ->
  (forall plan,
     next_fault (redis_faults w) = (None, plan) ->
     rscripts (redis w) !! sha = Some DecrementTicketUsageScript ->
     ((rkeys (redis w) !! (RedisRepository.TicketKey +:+ version) = None \/
       exists h, rkeys (redis w) !! (RedisRepository.TicketKey +:+ version) = Some (RHash h) /\
                 h !! "remainingUsages" = None) ->
      (RedisRepository.DecrementTicketUsage version w).1 = (0, Some "票据数据损坏") /\
      redis (RedisRepository.DecrementTicketUsage version w).2 = redis w) /\
     (forall n,
        fast_remaining (redis w) version = Some n -> n <= 0 ->
        (RedisRepository.DecrementTicketUsage version w).1 = (0, Some "票据使用次数已耗尽") /\
        redis (RedisRepository.DecrementTicketUsage version w).2 = redis w) /\
     (forall n,
        fast_remaining (redis w) version = Some n -> 0 < n ->
        (RedisRepository.DecrementTicketUsage version w).1 = (n - 1, None) /\
        fast_remaining (redis (RedisRepository.DecrementTicketUsage version w).2) version
          = Some (n - 1)) /\
     (forall plan',
        fast_remaining (redis w) version = Some 1 ->
        next_fault plan = (None, plan') ->
        (RedisRepository.DecrementTicketUsage version w).1 = (0, None) /\
        (RedisRepository.DecrementTicketUsage version
           (RedisRepository.DecrementTicketUsage version w).2).1
          = (0, Some "票据使用次数已耗尽"))) /\
  (let KEYS := [RedisRepository.TicketKey +:+ version; RedisRepository.TicketVersionKey] in
   let first := RedisRepository.EvalSha sha KEYS [version] w in
   let reload := RedisRepository.ScriptLoad DecrementTicketUsageScript first.2 in
   let after := RedisRepository.DecrementTicketUsage version w in
   match first.1 with
   | Got result =>
       after.1 = RedisRepository.parse_script_result result /\
       trace after.2 = trace w ++ [ERedis (EVALSHA sha KEYS [version])]
   | a =>
       if String.eqb (RedisRepository.err_text a) NOSCRIPT
       then
         match reload.1 with
         | Got sha' =>
             let stored := set_scriptHashes
                             (<["decrementTicketUsage" := sha']> (scriptHashes reload.2))
                             reload.2 in
             let second := RedisRepository.EvalSha sha' KEYS [version] stored in
             after.1 = match second.1 with
                       | Got result => RedisRepository.parse_script_result result
                       | b => (0, Some ("执行票据使用次数脚本失败: " +:+ RedisRepository.err_text b))
                       end /\
             after.2 = second.2 /\
             trace after.2 = trace w ++
               [ERedis (EVALSHA sha KEYS [version]);
                ERedis (SCRIPT_LOAD DecrementTicketUsageScript);
                ERedis (EVALSHA sha' KEYS [version])]
         | l =>
             after.1 = (0, Some ("重新加载票据使用次数脚本失败: " +:+ RedisRepository.err_text l)) /\
             trace after.2 = trace w ++
               [ERedis (EVALSHA sha KEYS [version]);
                ERedis (SCRIPT_LOAD DecrementTicketUsageScript)]
         end
       else
         after.1 = (0, Some ("执行票据使用次数脚本失败: " +:+ RedisRepository.err_text a)) /\
         trace after.2 = trace w ++ [ERedis (EVALSHA sha KEYS [version])]
   end).
Proof.
  intros Hsha. split; [| exact (DecrementTicketUsage_calls version sha w Hsha)].
  intros plan Hplan Hscript. repeat split.
  - now apply (DecrementTicketUsage_corrupt version sha w plan).
  - now apply (DecrementTicketUsage_corrupt version sha w plan).
  - now apply (DecrementTicketUsage_exhausted version sha w plan n).
  - now apply (DecrementTicketUsage_exhausted version sha w plan n).
  - now apply (DecrementTicketUsage_decrements version sha w plan n).
  - now apply (DecrementTicketUsage_decrements version sha w plan n).
  - now apply (DecrementTicketUsage_decrements version sha w plan 1).
  - destruct (DecrementTicketUsage_decrements version sha w plan 1 Hsha Hplan Hscript)
      as (_ & Hzero & Hhashes & Hscripts & Hfaults); [assumption | lia |].
    apply (DecrementTicketUsage_exhausted version sha _ plan' 0); try lia; try assumption.
    + now rewrite Hhashes.
    + now rewrite Hfaults.
    + now rewrite Hscripts.
Qed.

(** At one usage left: the spend goes through and the next one is
    refused. *)
Lemma DecrementTicketUsage_fast_tier_witness :
  (RedisRepository.DecrementTicketUsage "100" (world100 1 3 [] [] [])).1 = (0, None) /\
  (RedisRepository.DecrementTicketUsage "100"
     (RedisRepository.DecrementTicketUsage "100" (world100 1 3 [] [] [])).2).1
    = (0, Some "票据使用次数已耗尽").
Proof.
  pose proof (proj1 (DecrementTicketUsage_fast_tier "100" (sha1 DecrementTicketUsageScript)
                       (world100 1 3 [] [] []) eq_refl) [] eq_refl eq_refl)
    as (_ & _ & _ & Hseq).
  exact (Hseq [] eq_refl eq_refl).
Defined.

(** ** Running the services symbolically *)

(** Unfolds the services down to the stores, leaving the maps, the strings
    and the recursive loops alone. *)
Ltac exec :=
  cbv [bind ret Now Printf redis_call mysql_call Rollback next_fault
    record set_redis set_mysql set_kafka set_redis_faults set_mysql_faults
    set_kafka_faults set_scriptHashes set_entropy
    redis mysql kafka redis_faults mysql_faults kafka_faults scriptHashes config
    clock entropy trace rkeys rttl rscripts user_votes vote_logs tickets fst snd
    Version Value RemainingUsages ExpiresAt CreatedAt
    RedisRepository.Get RedisRepository.Set_ RedisRepository.Del RedisRepository.HGetAll
    RedisRepository.HMSetExpire RedisRepository.EvalSha RedisRepository.ScriptLoad
    RedisRepository.run_GET RedisRepository.run_SET RedisRepository.run_DEL
    RedisRepository.run_HGETALL RedisRepository.run_HMSET_EXPIRE
    RedisRepository.run_EVALSHA RedisRepository.run_SCRIPT_LOAD RedisRepository.run_script
    RedisRepository.err_text RedisRepository.DeleteUserVoteCache
    RedisRepository.GetNewestTicketVersion RedisRepository.SetNewestTicketVersion
    RedisRepository.GetTicket RedisRepository.CreateTicket RedisRepository.ValidateTicket
    RedisRepository.DecrementTicketUsage
    MySQLRepository.set_user_votes MySQLRepository.set_vote_logs MySQLRepository.set_tickets
    MySQLRepository.SaveTicket MySQLRepository.DecrementTicketUsage MySQLRepository.GetTicket
    MySQLRepository.IncrementVotes Producer.SendVoteEvent
    TicketService.rand_Read TicketService.generateVersion TicketService.generateTicketValue
    TicketService.generateTicket TicketService.GetCurrentTicket TicketService.ValidateTicket
    TicketService.UseTicket].

(** ** What a service leaves as it found it *)

Lemma preserves_ret {A} (R : relation World) `{!PreOrder R} (a : A) :
  preserves R (ret a).
Proof. intros w. reflexivity. Qed.

Lemma preserves_bind {A B} (R : relation World) `{!PreOrder R} (m : M A) (k : A -> M B) :
  preserves R m -> (forall a, preserves R (k a)) -> preserves R (bind m k).
Proof.
  intros Hm Hk w. unfold bind.
  specialize (Hm w). destruct (m w) as [a w1].
  specialize (Hk a w1). cbn in *. now transitivity w1.
Qed.

#[local] Instance keeps_preorder {X} (obs : World -> X) : PreOrder (keeps obs).
Proof.
  split.
  - intros w. reflexivity.
  - intros w1 w2 w3 H12 H23. unfold keeps in *. congruence.
Qed.

(** ** Minting *)

(** C5. The minting sequence.  The ticket gets the clock as its version
    and [MaxUsageCount] usages.  The durable tier is written first.  When
    that write fails nothing else is called: neither tier has changed and
    the failure is logged.  Otherwise the record of the fast tier is
    written next and the pointer of the fast tier last, in that order and
    both of them whatever the record write answered; a failure of either
    is logged. *)
Theorem generateTicket_write_order `{TimeLayout} (w : World) :
  exists value evs,
    let ticket := {| Value := value; Version := itoa (clock w);
                     RemainingUsages := MaxUsageCount (config w);
                     ExpiresAt := clock w + RefreshInterval (config w);
                     CreatedAt := clock w |} in
    let w' := (TicketService.generateTicket w).2 in
    trace w' = trace w ++ evs /\
    match mysql_faults w with
    | Some e :: _ =>
        store_calls evs = [EMySQL (ExecSaveTicket ticket)] /\
        In (ELog ("保存票据到MySQL失败: 保存票据到MySQL失败: " +:+ e)) evs /\
        redis w' = redis w /\
        mysql w' = mysql w
    | _ =>
        store_calls evs =
          [EMySQL (ExecSaveTicket ticket);
           ERedis (HMSET_EXPIRE (RedisRepository.TicketKey +:+ itoa (clock w))
                     (RedisRepository.ticket_fields ticket) 10);
           ERedis (SET RedisRepository.TicketVersionKey (itoa (clock w)))] /\
        durable_remaining (mysql w') (itoa (clock w)) = Some (MaxUsageCount (config w)) /\
        (forall msg rest,
           redis_faults w = Some msg :: rest ->
           In (ELog ("保存票据到Redis失败: 创建票据失败: " +:+ msg)) evs) /\
        (forall first msg rest,
           redis_faults w = first :: Some msg :: rest ->
           In (ELog ("设置Redis最新票据版本失败: 设置最新票据版本失败: " +:+ msg)) evs) /\
        (redis_faults w = [] ->
         rkeys (redis w') !! RedisRepository.TicketVersionKey = Some (RStr (itoa (clock w))))
    end.
Proof.
  destruct w as [[rk rt rs] [uv vl tk] k rf mf kf sh cfg clk ent tr].
  exec.
  destruct ent as [|[bytes|] erest]; destruct mf as [|[e|] mrest]; exec.
  all: try (eexists; eexists; split;
            [rewrite <- ?app_assoc; reflexivity
            | cbn; repeat split; auto using in_eq, in_cons]; fail).
  all: destruct rf as [|[m1|] [|[m2|] rrest]]; exec.
  all: try destruct (rk !! (RedisRepository.TicketKey +:+ itoa clk)) as [[s|h]|]; exec.
  all: eexists; eexists; (split; [rewrite <- ?app_assoc; reflexivity |]).
  all: unfold durable_remaining; cbn [store_calls List.filter app tickets mysql]; 
       rewrite ?lookup_insert_eq.
  all: repeat split; try discriminate; auto.
  all: try (intros ? ? [= <-]); try (intros ? ? ? [= <- <-]); try (intros ? ? ? [= _ <-]);
       cbn [In app]; auto 10.
Qed.

(** ** Reading the current ticket *)

Lemma hmset_remainingUsages `{TimeLayout} (ticket : Ticket) (h : gmap string string) :
  RedisRepository.hmset (RedisRepository.ticket_fields ticket) h !! "remainingUsages" =
    Some (itoa (RemainingUsages ticket)).
Proof.
  unfold RedisRepository.hmset, RedisRepository.ticket_fields.
  apply lookup_union_Some_l. cbn [list_to_map foldr fst snd uncurry].
  rewrite lookup_insert_ne by discriminate.
  apply lookup_insert_eq.
Qed.

(** C7. [GetCurrentTicket] reads the pointer of the fast tier, then the
    record of that version in the fast tier.  When the record is read, the
    answer is that record.  When it is not (a miss, or any failed read) the
    record is fetched from the durable tier and, when it is found there,
    written back to the fast tier before the answer is given.  On both
    paths a record with no usages left gives an error and never a ticket.
    In particular, on a plain miss with no failure the fast tier ends up
    holding the fields and the count of the durable row. *)
Theorem GetCurrentTicket_read_path `{TimeLayout} (clientID : string) (w : World) :
  let pointer := RedisRepository.GetNewestTicketVersion w in
  let version := pointer.1.1 in
  let fast := RedisRepository.GetTicket version pointer.2 in
  let r := TicketService.GetCurrentTicket clientID w in
  match fast.1 with
  | inl redisTicket =>
      r = (verdict version redisTicket, fast.2)
  | inr err =>
      let durable :=
        MySQLRepository.GetTicket version
          (record (ELog ("从Redis获取票据失败: " +:+ err +:+ "，尝试从MySQL获取")) fast.2) in
      match durable.1 with
      | inr mysqlErr => r = (inr ("获取票据失败: " +:+ mysqlErr), durable.2)
      | inl mysqlTicket =>
          let refill := RedisRepository.CreateTicket mysqlTicket durable.2 in
          r.1 = verdict version mysqlTicket /\
          redis r.2 = redis refill.2
      end
  end /\
  (forall ticket, r.1 = inl ticket -> 0 < RemainingUsages ticket) /\
  (forall version row,
     redis_faults w = [] ->
     mysql_faults w = [] ->
     rkeys (redis w) !! RedisRepository.TicketVersionKey = Some (RStr version) ->
     rkeys (redis w) !! (RedisRepository.TicketKey +:+ version) = None ->
     tickets (mysql w) !! version = Some row ->
     r.1 = verdict version (ticket_of_row version row) /\
     rkeys (redis r.2) !! (RedisRepository.TicketKey +:+ version) =
       Some (RHash (RedisRepository.hmset
                      (RedisRepository.ticket_fields (ticket_of_row version row)) ∅)) /\
     fast_remaining (redis r.2) version = Some (t_remaining_usages row)).
Proof.
  cbv zeta.
  assert (Hpath :
    match (RedisRepository.GetTicket (RedisRepository.GetNewestTicketVersion w).1.1
             (RedisRepository.GetNewestTicketVersion w).2).1 with
    | inl redisTicket =>
        TicketService.GetCurrentTicket clientID w =
          (verdict (RedisRepository.GetNewestTicketVersion w).1.1 redisTicket,
           (RedisRepository.GetTicket (RedisRepository.GetNewestTicketVersion w).1.1
              (RedisRepository.GetNewestTicketVersion w).2).2)
    | inr err =>
        match (MySQLRepository.GetTicket (RedisRepository.GetNewestTicketVersion w).1.1
                 (record (ELog ("从Redis获取票据失败: " +:+ err +:+ "，尝试从MySQL获取"))
                    (RedisRepository.GetTicket (RedisRepository.GetNewestTicketVersion w).1.1
                       (RedisRepository.GetNewestTicketVersion w).2).2)).1 with
        | inr mysqlErr =>
            TicketService.GetCurrentTicket clientID w =
              (inr ("获取票据失败: " +:+ mysqlErr),
               (MySQLRepository.GetTicket (RedisRepository.GetNewestTicketVersion w).1.1
                  (record (ELog ("从Redis获取票据失败: " +:+ err +:+ "，尝试从MySQL获取"))
                     (RedisRepository.GetTicket (RedisRepository.GetNewestTicketVersion w).1.1
                        (RedisRepository.GetNewestTicketVersion w).2).2)).2)
        | inl mysqlTicket =>
            (TicketService.GetCurrentTicket clientID w).1 =
              verdict (RedisRepository.GetNewestTicketVersion w).1.1 mysqlTicket /\
            redis (TicketService.GetCurrentTicket clientID w).2 =
              redis (RedisRepository.CreateTicket mysqlTicket
                       (MySQLRepository.GetTicket (RedisRepository.GetNewestTicketVersion w).1.1
                          (record (ELog ("从Redis获取票据失败: " +:+ err +:+ "，尝试从MySQL获取"))
                             (RedisRepository.GetTicket
                                (RedisRepository.GetNewestTicketVersion w).1.1
                                (RedisRepository.GetNewestTicketVersion w).2).2)).2).2
        end
    end).
  { unfold TicketService.GetCurrentTicket, bind.
    destruct (RedisRepository.GetNewestTicketVersion w) as [[version perr] w1].
    cbn [fst snd].
    destruct (RedisRepository.GetTicket version w1) as [[redisTicket|err] w2]; cbn [fst snd].
    - unfold verdict. now destruct (RemainingUsages redisTicket <=? 0).
    - cbv [Printf].
      destruct (MySQLRepository.GetTicket version
                  (record (ELog ("从Redis获取票据失败: " +:+ err +:+ "，尝试从MySQL获取")) w2))
        as [[mysqlTicket|mysqlErr] w3]; cbn [fst snd]; [| reflexivity].
      destruct (RedisRepository.CreateTicket mysqlTicket w3) as [[e|] w4]; cbn [fst snd].
      all: unfold verdict, ret; now destruct (RemainingUsages mysqlTicket <=? 0). }
  split; [exact Hpath | split].
  - intros ticket Hr.
    destruct (RedisRepository.GetTicket _ _).1 as [redisTicket|err].
    + rewrite Hpath in Hr. cbn in Hr. unfold verdict in Hr.
      destruct (Z.leb_spec (RemainingUsages redisTicket) 0); [discriminate |].
      injection Hr as <-. lia.
    + destruct (MySQLRepository.GetTicket _ _).1 as [mysqlTicket|mysqlErr].
      * destruct Hpath as [Hv _]. rewrite Hv in Hr. unfold verdict in Hr.
        destruct (Z.leb_spec (RemainingUsages mysqlTicket) 0); [discriminate |].
        injection Hr as <-. lia.
      * rewrite Hpath in Hr. discriminate.
  - clear Hpath. intros version row.
    destruct w as [[rk rt rs] [uv vl tk] k rf mf kf sh cfg clk ent tr].
    cbn [redis_faults mysql_faults redis mysql rkeys tickets].
    intros -> -> Hptr Hmiss Hrow.
    exec. rewrite Hptr. exec. rewrite Hmiss. exec.
    destruct (decide (size (∅ : gmap string string) = 0%nat)) as [_|Hne];
      [| exfalso; apply Hne, map_size_empty].
    exec. rewrite Hrow. exec. rewrite Hmiss. exec.
    unfold verdict, ticket_of_row. cbn [RemainingUsages].
    split; [now destruct (t_remaining_usages row <=? 0) |].
    split.
    + destruct (t_remaining_usages row <=? 0); exec; apply lookup_insert_eq.
    + unfold fast_remaining.
      destruct (t_remaining_usages row <=? 0); exec; rewrite lookup_insert_eq.
      all: change (from_option tonumber None
                     (RedisRepository.hmset
                        (RedisRepository.ticket_fields (ticket_of_row version row)) ∅
                      !! "remainingUsages") = Some (t_remaining_usages row)).
      all: rewrite hmset_remainingUsages; apply atoi_itoa.
Qed.

Lemma GetCurrentTicket_read_path_witness :
  (@TicketService.GetCurrentTicket decimal_layout "client-1" (world100_evicted 3)).1 =
    inl ticket100 /\
  fast_remaining
    (redis (@TicketService.GetCurrentTicket decimal_layout "client-1" (world100_evicted 3)).2)
    "100" = Some 3.
Proof.
  assert (Hptr : rkeys (redis (world100_evicted 3)) !! RedisRepository.TicketVersionKey
                 = Some (RStr "100")) by (vm_compute; reflexivity).
  assert (Hmiss : rkeys (redis (world100_evicted 3)) !! (RedisRepository.TicketKey +:+ "100")
                  = None) by (vm_compute; reflexivity).
  assert (Hrow : tickets (mysql (world100_evicted 3)) !! "100" = Some (row100 3))
    by (vm_compute; reflexivity).
  assert (Hrf : redis_faults (world100_evicted 3) = []) by reflexivity.
  assert (Hmf : mysql_faults (world100_evicted 3) = []) by reflexivity.
  pose proof (@GetCurrentTicket_read_path decimal_layout "client-1" (world100_evicted 3))
    as Hpath.
  cbv zeta in Hpath.
  destruct Hpath as (_ & _ & Hpath).
  destruct (Hpath "100" (row100 3) Hrf Hmf Hptr Hmiss Hrow) as (Hanswer & _ & Hcount).
  split; [exact Hanswer | exact Hcount].
Defined.

(** ** The distributed lock *)

Ltac lexec :=
  cbv [EtcdLock.AcquireLock EtcdLock.releaseLock EtcdLock.ReleaseLock EtcdLock.lbind EtcdLock.lret
    EtcdLock.etcd_call EtcdLock.set_locks EtcdLock.set_renewers
    EtcdLock.run_Grant EtcdLock.run_Txn EtcdLock.run_Revoke EtcdLock.run_Delete
    EtcdLock.etcd EtcdLock.etcd_faults EtcdLock.locks EtcdLock.renewers EtcdLock.calls
    EtcdLock.kv EtcdLock.leases EtcdLock.next_lease EtcdLock.leaseID EtcdLock.key
    next_fault fst snd].

Ltac settle :=
  repeat match goal with
         | |- _ -> _ => intro
         | H : _ /\ _ |- _ => destruct H
         | H : ex _ |- _ => destruct H
         | H : _ \/ _ |- _ => destruct H
         | H : is_Some None |- _ => destruct H
         end;
  try discriminate; try contradiction; try congruence;
  try match goal with
      | H : ~ _ |- _ => exfalso; apply H; eexists; reflexivity
      end.

Lemma fails_nil n : ~ fails [] n.
Proof. intros [msg Hn]. now rewrite lookup_nil in Hn. Qed.

Lemma AcquireLock_held (lockName : string) (timeout : Z) (s : EtcdLock.State) :
  is_Some (EtcdLock.locks s !! lockName) ->
  EtcdLock.AcquireLock lockName timeout s =
    ((false, Some ("锁 " +:+ lockName +:+ " 已被当前实例持有")), s).
Proof. intros [entry Hheld]. unfold EtcdLock.AcquireLock. now rewrite Hheld. Qed.

Lemma AcquireLock_grant_fails (lockName : string) (timeout : Z) (s : EtcdLock.State) msg plan :
  EtcdLock.locks s !! lockName = None ->
  EtcdLock.etcd_faults s = Some msg :: plan ->
  (EtcdLock.AcquireLock lockName timeout s).1 = (false, Some ("创建租约失败: " +:+ msg)) /\
  EtcdLock.locks (EtcdLock.AcquireLock lockName timeout s).2 = EtcdLock.locks s.
Proof.
  destruct s as [[kv leases next] faults locks renewers calls]. cbn.
  intros Hfree ->. lexec. now rewrite Hfree.
Qed.

Lemma AcquireLock_txn_fails (lockName : string) (timeout : Z) (s : EtcdLock.State) msg plan :
  EtcdLock.locks s !! lockName = None ->
  EtcdLock.etcd_faults s = None :: Some msg :: plan ->
  (EtcdLock.AcquireLock lockName timeout s).1 = (false, Some ("事务执行失败: " +:+ msg)) /\
  EtcdLock.locks (EtcdLock.AcquireLock lockName timeout s).2 = EtcdLock.locks s.
Proof.
  destruct s as [[kv leases next] faults locks renewers calls]. cbn.
  intros Hfree ->. lexec. rewrite Hfree.
  now destruct plan as [|[m3|] rest].
Qed.

Lemma AcquireLock_taken (lockName : string) (timeout : Z) (s : EtcdLock.State) other :
  EtcdLock.locks s !! lockName = None ->
  ~ fails (EtcdLock.etcd_faults s) 0 ->
  ~ fails (EtcdLock.etcd_faults s) 1 ->
  EtcdLock.kv (EtcdLock.etcd s) !! ("/locks/" +:+ lockName) = Some other ->
  (EtcdLock.AcquireLock lockName timeout s).1 = (false, None) /\
  EtcdLock.locks (EtcdLock.AcquireLock lockName timeout s).2 = EtcdLock.locks s.
Proof.
  destruct s as [[kv leases next] faults locks renewers calls]. cbn.
  intros Hfree H0 H1 Hkv. lexec. rewrite Hfree.
  destruct faults as [|[m1|] [|[m2|] [|[m3|] rest]]]; lexec; rewrite ?Hkv; lexec; try easy.
  all: try (exfalso; apply H0; eexists; reflexivity).
  all: try (exfalso; apply H1; eexists; reflexivity).
Qed.

Lemma AcquireLock_won (lockName : string) (timeout : Z) (s : EtcdLock.State) :
  EtcdLock.locks s !! lockName = None ->
  ~ fails (EtcdLock.etcd_faults s) 0 ->
  ~ fails (EtcdLock.etcd_faults s) 1 ->
  EtcdLock.kv (EtcdLock.etcd s) !! ("/locks/" +:+ lockName) = None ->
  (EtcdLock.AcquireLock lockName timeout s).1 = (true, None) /\
  EtcdLock.kv (EtcdLock.etcd (EtcdLock.AcquireLock lockName timeout s).2)
    !! ("/locks/" +:+ lockName) = Some (EtcdLock.next_lease (EtcdLock.etcd s)) /\
  EtcdLock.locks (EtcdLock.AcquireLock lockName timeout s).2 =
    <[lockName := {| EtcdLock.leaseID := EtcdLock.next_lease (EtcdLock.etcd s);
                     EtcdLock.key := "/locks/" +:+ lockName |}]> (EtcdLock.locks s) /\
  EtcdLock.renewers (EtcdLock.AcquireLock lockName timeout s).2 =
    {[EtcdLock.next_lease (EtcdLock.etcd s)]} ∪ EtcdLock.renewers s.
Proof.
  destruct s as [[kv leases next] faults locks renewers calls]. cbn.
  intros Hfree H0 H1 Hkv. lexec. rewrite Hfree.
  destruct faults as [|[m1|] [|[m2|] rest]]; lexec; rewrite ?Hkv; lexec;
    rewrite ?lookup_insert_eq; try easy.
  all: try (exfalso; apply H0; eexists; reflexivity).
  all: try (exfalso; apply H1; eexists; reflexivity).
Qed.

Lemma fails_cases (plan : list (option string)) :
  (exists msg rest, plan = Some msg :: rest) \/
  (exists msg rest, plan = None :: Some msg :: rest) \/
  (~ fails plan 0 /\ ~ fails plan 1).
Proof.
  destruct plan as [|[m1|] [|[m2|] rest]]; eauto 6.
  all: right; right; split; intros [msg [=]].
Qed.

(** C8. [AcquireLock] on a lock that the caller already holds is an error
    and changes nothing.  Otherwise: it answers [true] exactly when the
    caller holds the lock afterwards, which is exactly when the two round
    trips went through and the key was free, the key being then bound to
    the lease granted in this call and the lease being renewed; it answers
    [false] with no error exactly when the round trips went through and
    somebody holds the key; it answers an error exactly when a round trip
    failed; and there is no other answer.  Releasing a lock that the
    caller does not hold is no error and changes nothing. *)
Theorem AcquireLock_contract (lockName : string) (timeout : Z) (s : EtcdLock.State) :
  let r := EtcdLock.AcquireLock lockName timeout s in
  let key := "/locks/" +:+ lockName in
  (is_Some (EtcdLock.locks s !! lockName) ->
   r = ((false, Some ("锁 " +:+ lockName +:+ " 已被当前实例持有")), s)) /\
  (EtcdLock.locks s !! lockName = None ->
   (r.1.1 = true <-> holds r.2 lockName) /\
   (r.1 = (true, None) <->
    ~ fails (EtcdLock.etcd_faults s) 0 /\ ~ fails (EtcdLock.etcd_faults s) 1 /\
    EtcdLock.kv (EtcdLock.etcd s) !! key = None) /\
   (r.1 = (true, None) ->
    EtcdLock.kv (EtcdLock.etcd r.2) !! key = Some (EtcdLock.next_lease (EtcdLock.etcd s)) /\
    EtcdLock.locks r.2 !! lockName =
      Some {| EtcdLock.leaseID := EtcdLock.next_lease (EtcdLock.etcd s); EtcdLock.key := key |} /\
    EtcdLock.next_lease (EtcdLock.etcd s) ∈ EtcdLock.renewers r.2) /\
   (r.1 = (false, None) <->
    ~ fails (EtcdLock.etcd_faults s) 0 /\ ~ fails (EtcdLock.etcd_faults s) 1 /\
    is_Some (EtcdLock.kv (EtcdLock.etcd s) !! key)) /\
   (r.1 = (false, None) -> EtcdLock.locks r.2 = EtcdLock.locks s) /\
   ((exists e, r.1 = (false, Some e)) <->
    fails (EtcdLock.etcd_faults s) 0 \/ fails (EtcdLock.etcd_faults s) 1) /\
   (r.1 = (true, None) \/ r.1 = (false, None) \/ exists e, r.1 = (false, Some e)) /\
   EtcdLock.releaseLock lockName s = (None, s)).
Proof.
  cbv zeta. split; [apply AcquireLock_held |].
  intros Hfree.
  assert (Hrel : EtcdLock.releaseLock lockName s = (None, s)).
  { unfold EtcdLock.releaseLock. now rewrite Hfree. }
  destruct (fails_cases (EtcdLock.etcd_faults s))
    as [(msg & rest & Hplan) | [(msg & rest & Hplan) | [H0 H1]]].
  - destruct (AcquireLock_grant_fails lockName timeout s msg rest Hfree Hplan) as [Hr Hl].
    unfold holds. rewrite Hr, Hl, Hfree, Hplan. unfold fails. cbn.
    repeat split; try discriminate; eauto; try (intros; discriminate).
    all: settle.
  - destruct (AcquireLock_txn_fails lockName timeout s msg rest Hfree Hplan) as [Hr Hl].
    unfold holds. rewrite Hr, Hl, Hfree, Hplan. unfold fails. cbn.
    repeat split; try discriminate; eauto; try (intros; discriminate).
    all: settle.
  - destruct (EtcdLock.kv (EtcdLock.etcd s) !! ("/locks/" +:+ lockName)) as [other|] eqn:Hkv.
    + destruct (AcquireLock_taken lockName timeout s other Hfree H0 H1 Hkv) as [Hr Hl].
      unfold holds. rewrite Hr, Hl, Hfree.
      repeat split; try discriminate; eauto; try (intros; discriminate).
      all: settle.
    + destruct (AcquireLock_won lockName timeout s Hfree H0 H1 Hkv) as (Hr & Hk & Hl & Hn).
      unfold holds. rewrite Hr, Hk, Hl, Hn, lookup_insert_eq.
      repeat split; try discriminate; eauto; try (intros; discriminate).
      all: try (apply elem_of_union_l, elem_of_singleton; reflexivity).
      all: settle.
Qed.

Lemma AcquireLock_contract_witness :
  (EtcdLock.AcquireLock "ticket:producer:lock" 30 lock_free).1 = (true, None) /\
  holds (EtcdLock.AcquireLock "ticket:producer:lock" 30 lock_free).2 "ticket:producer:lock" /\
  (EtcdLock.AcquireLock "ticket:producer:lock" 30 lock_taken).1 = (false, None).
Proof.
  pose proof (proj2 (AcquireLock_contract "ticket:producer:lock" 30 lock_free) eq_refl)
    as (Hholds & Hwon & _).
  pose proof (proj2 (AcquireLock_contract "ticket:producer:lock" 30 lock_taken) eq_refl)
    as (_ & _ & _ & Htaken & _).
  assert (Hfree : (EtcdLock.AcquireLock "ticket:producer:lock" 30 lock_free).1 = (true, None)).
  { apply Hwon. split; [apply fails_nil | split; [apply fails_nil | reflexivity]]. }
  split; [exact Hfree | split].
  - apply Hholds. now rewrite Hfree.
  - apply Htaken. split; [apply fails_nil | split; [apply fails_nil | now eexists]].
Defined.

(** ** The settlement transaction *)

Section Increment.
Import MySQLRepository.

Lemma IncrementVotes_loop_spec (ticketVersion : string) (usernames : list string) :
  forall (tx : MySQL) (w : World),
    let r := IncrementVotes_loop usernames ticketVersion tx w in
    mysql r.2 = mysql w /\
    redis r.2 = redis w /\
    clock r.2 = clock w /\
    match r.1 with
    | inl tx' =>
        (forall u, tally tx' u = (fun n => n + occurrences usernames u) <$> tally tx u) /\
        vote_logs tx' = vote_logs tx ++ map (log_row ticketVersion (clock w)) usernames /\
        tickets tx' = tickets tx
    | inr _ => True
    end.
Proof.
  induction usernames as [|username rest IH]; intros tx w; cbv zeta.
  - cbn. repeat split; try reflexivity.
    + intros u. unfold occurrences. cbn. destruct (tally tx u); cbn; f_equal; lia.
    + now rewrite app_nil_r.
  - cbn [IncrementVotes_loop]. destruct w as [r m k rf mf kf sh cfg clk ent tr].
    destruct tx as [uv vl tk].
    exec.
    destruct mf as [|[e|] mrest]; exec; try (repeat split; reflexivity).
    all: destruct (uv !! username) as [row|] eqn:Hrow; exec; try (repeat split; reflexivity).
    all: try (destruct mrest as [|[e|] mrest]; exec; try (repeat split; reflexivity)).
    all: match goal with
         | |- context [IncrementVotes_loop ?l ?v ?tx1 ?w1] =>
             specialize (IH tx1 w1); cbv zeta in IH;
             destruct (IncrementVotes_loop l v tx1 w1) as [[tx'|err] w'];
             cbn [fst snd] in *
         end.
    all: destruct IH as (Hm & Hr & Hc & IH); cbn in Hm, Hr, Hc; repeat split; try assumption.
    all: destruct IH as (Htally & Hlogs & Htickets).
    all: destruct tx' as [uv' vl' tk']; cbn [vote_logs tickets clock] in Hlogs, Htickets.
    all: try (rewrite Hlogs; cbn; rewrite <- app_assoc; reflexivity).
    all: try (rewrite Htickets; reflexivity).
    all: intros u; rewrite Htally; unfold tally, occurrences; cbn [user_votes count_occ].
    all: destruct (string_dec username u) as [->|Hne].
    all: rewrite ?lookup_insert_eq, ?Hrow; try (rewrite lookup_insert_ne by assumption).
    all: try (cbn; f_equal; lia).
    all: destruct (uv !! u); cbn; f_equal; lia.
Qed.

Lemma IncrementVotes_loop_succeeds (ticketVersion : string) (usernames : list string) :
  forall (tx : MySQL) (w : World),
    mysql_faults w = [] ->
    Forall (fun u => is_Some (user_votes tx !! u)) usernames ->
    exists tx',
      (IncrementVotes_loop usernames ticketVersion tx w).1 = inl tx' /\
      mysql_faults (IncrementVotes_loop usernames ticketVersion tx w).2 = [].
Proof.
  induction usernames as [|username rest IH]; intros tx w Hplan Hall.
  - exists tx. now split.
  - apply Forall_cons in Hall as [[row Hrow] Hall].
    cbn [IncrementVotes_loop]. destruct w as [r m k rf mf kf sh cfg clk ent tr].
    destruct tx as [uv vl tk]. cbn in Hplan, Hrow. subst mf.
    exec. rewrite Hrow. exec.
    apply IH; [reflexivity |].
    eapply Forall_impl; [exact Hall |].
    intros u [row' Hu]. cbn in *.
    destruct (string_dec username u) as [->|Hne].
    + rewrite lookup_insert_eq. eauto.
    + rewrite lookup_insert_ne by assumption. eauto.
Qed.

Lemma IncrementVotes_spec (usernames : list string) (ticketVersion : string) (w : World) :
  let r := IncrementVotes usernames ticketVersion w in
  redis r.2 = redis w /\
  match r.1 with
  | None =>
      (forall u, tally (mysql r.2) u =
                 (fun n => n + occurrences usernames u) <$> tally (mysql w) u) /\
      vote_logs (mysql r.2) =
        vote_logs (mysql w) ++ map (log_row ticketVersion (clock w)) usernames /\
      tickets (mysql r.2) = tickets (mysql w)
  | Some _ => mysql r.2 = mysql w
  end.
Proof.
  cbv zeta. destruct w as [r m k rf mf kf sh cfg clk ent tr].
  exec.
  destruct mf as [|[e1|] [|[e2|] [|[e3|] mf]]]; exec; try (split; reflexivity).
  all: match goal with
       | |- context [IncrementVotes_loop ?l ?v ?tx1 ?w1] =>
           pose proof (IncrementVotes_loop_spec v l tx1 w1) as Hloop; cbv zeta in Hloop;
           destruct (IncrementVotes_loop l v tx1 w1) as [[tx'|err] w'];
           cbn [fst snd] in *
       end.
  all: destruct Hloop as (Hm & Hr & Hc & Hloop); cbn in Hm, Hr, Hc.
  all: destruct w' as [r' m' k' rf' mf' kf' sh' cfg' clk' ent' tr']; cbn in Hm, Hr, Hc; subst.
  all: exec; try (split; reflexivity).
  all: destruct mf' as [|[e4|] mf']; exec; split; try reflexivity; try assumption.
Qed.

Lemma IncrementVotes_succeeds (usernames : list string) (ticketVersion : string) (w : World) :
  mysql_faults w = [] ->
  Forall (fun u => is_Some (user_votes (mysql w) !! u)) usernames ->
  (IncrementVotes usernames ticketVersion w).1 = None.
Proof.
  destruct w as [r m k rf mf kf sh cfg clk ent tr]. cbn. intros -> Hall.
  exec.
  match goal with
  | |- context [IncrementVotes_loop ?l ?v ?tx1 ?w1] =>
      destruct (IncrementVotes_loop_succeeds v l tx1 w1 eq_refl Hall) as (tx' & Hok & Hplan);
      destruct (IncrementVotes_loop l v tx1 w1) as [res w']
  end.
  cbn in Hok, Hplan. subst res.
  destruct w' as [r' m' k' rf' mf' kf' sh' cfg' clk' ent' tr']. cbn in Hplan. subst mf'.
  reflexivity.
Qed.

End Increment.

Lemma first_invalid_None (usernames : list string) :
  VoteService.first_invalid usernames = None <->
  Forall (fun u => VoteService.valid_username u = true) usernames.
Proof.
  induction usernames as [|u rest IH]; cbn.
  - split; [constructor | reflexivity].
  - destruct (VoteService.valid_username u) eqn:Hu.
    + rewrite IH. split.
      * intros Hrest. now constructor.
      * intros Hall. now apply Forall_cons in Hall.
    + split; [discriminate |].
      intros Hall. apply Forall_cons in Hall as [Hu' _]. congruence.
Qed.

(** ** Counts that only go down

    The relations [fast_declines] and [durable_declines] are preorders, so
    a service keeps them as soon as each of its store calls does. *)

Lemma declines_refl (a : option Z) : declines a a.
Proof. now left. Qed.

Lemma declines_trans (a b c : option Z) : declines a b -> declines b c -> declines a c.
Proof.
  intros [-> | (n & m & -> & -> & Hnm)] [-> | (n' & m' & Hb & -> & Hnm')].
  - now left.
  - right. eauto.
  - right. exists n, m. auto.
  - injection Hb as <-. right. exists n, m'. repeat split; lia.
Qed.

#[local] Instance fast_declines_preorder : PreOrder fast_declines.
Proof.
  split.
  - intros w version. apply declines_refl.
  - intros w1 w2 w3 H12 H23 version. eapply declines_trans; [apply H12 | apply H23].
Qed.

#[local] Instance durable_declines_preorder : PreOrder durable_declines.
Proof.
  split.
  - intros w version. apply declines_refl.
  - intros w1 w2 w3 H12 H23 version. eapply declines_trans; [apply H12 | apply H23].
Qed.

Create HintDb frame discriminated.

(** Steps through a service, one store call at a time. *)
Ltac frame :=
  repeat first
    [ solve [eauto with frame]
    | progress cbv beta
    | lazymatch goal with
      | |- preserves _ (ret _) => apply preserves_ret; typeclasses eauto
      | |- preserves _ (bind _ _) =>
          apply preserves_bind; [typeclasses eauto | | intros ?]
      | |- preserves _ (match ?x with _ => _ end) => destruct x
      | |- preserves ?R (fun w => ?m w) => change (preserves R m)
      end ].

Lemma keeps_intro {A X} (obs : World -> X) (m : M A) :
  (forall w, obs (m w).2 = obs w) -> preserves (keeps obs) m.
Proof. intros Hm w. apply Hm. Qed.

(** *** The calls to Redis leave the durable tier alone *)

Lemma redis_call_keeps_mysql {A} (c : RedisCmd) (run : Redis -> Answer A * Redis) :
  preserves (keeps mysql) (redis_call c run).
Proof.
  intros w. unfold keeps, redis_call.
  destruct (next_fault (redis_faults w)) as [[msg|] plan]; [reflexivity |].
  cbn. now destruct (run (redis w)).
Qed.

Lemma Printf_keeps_mysql (line : string) : preserves (keeps mysql) (Printf line).
Proof. now intros w. Qed.

Lemma Printf_keeps_redis (line : string) : preserves (keeps redis) (Printf line).
Proof. now intros w. Qed.

Lemma Now_preserves (R : relation World) `{!PreOrder R} : preserves R Now.
Proof. intros w. reflexivity. Qed.

Lemma preserves_read {A C} (R : relation World) `{!PreOrder R}
  (f : World -> option C) (x : A) (m : C -> M A) :
  (forall c, preserves R (m c)) ->
  preserves R (fun w => match f w with None => (x, w) | Some c => m c w end).
Proof.
  intros Hm w. destruct (f w) as [c|]; [apply Hm | reflexivity].
Qed.

#[local] Hint Extern 3 (preserves (keeps _) (fun _ => _)) =>
  (apply keeps_intro; intros; reflexivity) : frame.
#[local] Hint Resolve redis_call_keeps_mysql Printf_keeps_mysql Printf_keeps_redis : frame.
#[local] Hint Extern 1 (preserves _ Now) => apply Now_preserves; typeclasses eauto : frame.

Section RedisSide.
Context `{TimeLayout}.

Lemma GetNewestTicketVersion_keeps_mysql :
  preserves (keeps mysql) RedisRepository.GetNewestTicketVersion.
Proof. unfold RedisRepository.GetNewestTicketVersion, RedisRepository.Get. frame. Qed.

Lemma redis_GetTicket_keeps_mysql version :
  preserves (keeps mysql) (RedisRepository.GetTicket version).
Proof. unfold RedisRepository.GetTicket, RedisRepository.HGetAll. frame. Qed.

Lemma CreateTicket_keeps_mysql ticket :
  preserves (keeps mysql) (RedisRepository.CreateTicket ticket).
Proof. unfold RedisRepository.CreateTicket, RedisRepository.HMSetExpire. frame. Qed.

Lemma DeleteUserVoteCache_keeps_mysql username :
  preserves (keeps mysql) (RedisRepository.DeleteUserVoteCache username).
Proof. unfold RedisRepository.DeleteUserVoteCache, RedisRepository.Del. frame. Qed.

Hint Resolve GetNewestTicketVersion_keeps_mysql redis_GetTicket_keeps_mysql
  CreateTicket_keeps_mysql DeleteUserVoteCache_keeps_mysql : frame.

Lemma ValidateTicket_keeps_mysql ticket :
  preserves (keeps mysql) (RedisRepository.ValidateTicket ticket).
Proof. unfold RedisRepository.ValidateTicket. frame. Qed.

Lemma redis_DecrementTicketUsage_keeps_mysql version :
  preserves (keeps mysql) (RedisRepository.DecrementTicketUsage version).
Proof.
  unfold RedisRepository.DecrementTicketUsage.
  apply preserves_read; [typeclasses eauto | intros sha].
  unfold RedisRepository.EvalSha, RedisRepository.ScriptLoad. frame.
Qed.

Hint Resolve ValidateTicket_keeps_mysql redis_DecrementTicketUsage_keeps_mysql : frame.

Lemma UseTicket_keeps_mysql ticket :
  preserves (keeps mysql) (TicketService.UseTicket ticket).
Proof. unfold TicketService.UseTicket, TicketService.ValidateTicket. frame. Qed.

Lemma delete_caches_keeps_mysql before after usernames :
  preserves (keeps mysql) (VoteService.delete_caches before after usernames).
Proof.
  induction usernames as [|username rest IH]; cbn [VoteService.delete_caches]; frame.
Qed.

Lemma SendVoteEvent_keeps_mysql event :
  preserves (keeps mysql) (Producer.SendVoteEvent event).
Proof.
  unfold Producer.SendVoteEvent. frame.
  apply keeps_intro. intros w.
  now destruct (next_fault (kafka_faults w)) as [[e|] plan].
Qed.

End RedisSide.
(** *** The fast tier under the calls to Redis *)

Lemma keeps_redis_fast_declines {A} (m : M A) :
  preserves (keeps redis) m -> preserves fast_declines m.
Proof. intros Hm w version. unfold keeps in Hm. rewrite (Hm w). apply declines_refl. Qed.

Lemma keeps_mysql_durable_declines {A} (m : M A) :
  preserves (keeps mysql) m -> preserves durable_declines m.
Proof. intros Hm w version. unfold keeps in Hm. rewrite (Hm w). apply declines_refl. Qed.

Lemma redis_call_keeps_redis {A} (c : RedisCmd) (run : Redis -> Answer A * Redis) :
  (forall r, (run r).2 = r) -> preserves (keeps redis) (redis_call c run).
Proof.
  intros Hrun w. unfold keeps, redis_call.
  destruct (next_fault (redis_faults w)) as [[msg|] plan]; [reflexivity |].
  cbn. specialize (Hrun (redis w)). now destruct (run (redis w)).
Qed.

Lemma redis_call_fast_declines {A} (c : RedisCmd) (run : Redis -> Answer A * Redis) :
  (forall r version,
     declines (fast_remaining r version) (fast_remaining (run r).2 version)) ->
  preserves fast_declines (redis_call c run).
Proof.
  intros Hrun w version. unfold redis_call.
  destruct (next_fault (redis_faults w)) as [[msg|] plan]; [apply declines_refl |].
  cbn. specialize (Hrun (redis w) version). now destruct (run (redis w)).
Qed.

Lemma run_GET_same k r : (RedisRepository.run_GET k r).2 = r.
Proof. unfold RedisRepository.run_GET. now destruct (rkeys r !! k) as [[s|h]|]. Qed.

Lemma run_HGETALL_same k r : (RedisRepository.run_HGETALL k r).2 = r.
Proof. unfold RedisRepository.run_HGETALL. now destruct (rkeys r !! k) as [[s|h]|]. Qed.

Lemma ticket_key_not_cache_key version username :
  RedisRepository.TicketKey +:+ version <> RedisRepository.UserVoteKey +:+ username.
Proof. discriminate. Qed.

Lemma ticket_key_inj v1 v2 :
  RedisRepository.TicketKey +:+ v1 = RedisRepository.TicketKey +:+ v2 -> v1 = v2.
Proof. intros Heq. now injection Heq. Qed.

Lemma run_DEL_cache_declines username r version :
  declines (fast_remaining r version)
    (fast_remaining (RedisRepository.run_DEL (RedisRepository.UserVoteKey +:+ username) r).2
       version).
Proof.
  left. unfold fast_remaining. cbn [RedisRepository.run_DEL snd rkeys].
  rewrite lookup_delete_ne; [reflexivity |].
  intros Heq. symmetry in Heq. now apply ticket_key_not_cache_key in Heq.
Qed.

(** The script lowers the count of the version whose key it is given, by
    one and not below zero, and touches no other. *)
Lemma lua_declines KEYS r version :
  declines (fast_remaining r version)
    (fast_remaining (RedisRepository.lua_DecrementTicketUsage KEYS r).2 version).
Proof.
  unfold RedisRepository.lua_DecrementTicketUsage.
  destruct KEYS as [|k rest]; [apply declines_refl |].
  destruct (rkeys r !! k) as [[s|h]|] eqn:Hk; try apply declines_refl.
  destruct (from_option tonumber None (h !! "remainingUsages")) as [n|] eqn:Hn;
    [| apply declines_refl].
  destruct (Z.leb_spec n 0); [apply declines_refl |].
  unfold fast_remaining. cbn [snd rkeys].
  destruct (decide (k = RedisRepository.TicketKey +:+ version)) as [->|Hne].
  - right. exists n, (n - 1).
    rewrite Hk, lookup_insert_eq, lookup_insert_eq. cbn.
    repeat split; [assumption | apply atoi_itoa | lia | lia].
  - left. now rewrite lookup_insert_ne.
Qed.

Lemma run_EVALSHA_declines sha KEYS ARGV r version :
  declines (fast_remaining r version)
    (fast_remaining (RedisRepository.run_EVALSHA sha KEYS ARGV r).2 version).
Proof.
  unfold RedisRepository.run_EVALSHA.
  destruct (rscripts r !! sha) as [[]|]; [| apply declines_refl].
  apply lua_declines.
Qed.

Lemma run_SCRIPT_LOAD_declines s r version :
  declines (fast_remaining r version)
    (fast_remaining (RedisRepository.run_SCRIPT_LOAD s r).2 version).
Proof. apply declines_refl. Qed.

#[local] Hint Extern 3 (preserves fast_declines (fun _ => _)) =>
  (apply keeps_redis_fast_declines, keeps_intro; intros; reflexivity) : frame.
#[local] Hint Extern 1 (preserves fast_declines (Printf _)) =>
  (apply keeps_redis_fast_declines, Printf_keeps_redis) : frame.

Section FastTier.
Context `{TimeLayout}.

Lemma GetNewestTicketVersion_keeps_redis :
  preserves (keeps redis) RedisRepository.GetNewestTicketVersion.
Proof.
  unfold RedisRepository.GetNewestTicketVersion, RedisRepository.Get.
  frame. apply redis_call_keeps_redis, run_GET_same.
Qed.

Lemma redis_GetTicket_keeps_redis version :
  preserves (keeps redis) (RedisRepository.GetTicket version).
Proof.
  unfold RedisRepository.GetTicket, RedisRepository.HGetAll.
  frame. apply redis_call_keeps_redis, run_HGETALL_same.
Qed.

Hint Resolve GetNewestTicketVersion_keeps_redis redis_GetTicket_keeps_redis : frame.

Lemma ValidateTicket_keeps_redis ticket :
  preserves (keeps redis) (RedisRepository.ValidateTicket ticket).
Proof. unfold RedisRepository.ValidateTicket. frame. Qed.

Lemma redis_DecrementTicketUsage_fast_declines version :
  preserves fast_declines (RedisRepository.DecrementTicketUsage version).
Proof.
  unfold RedisRepository.DecrementTicketUsage.
  apply preserves_read; [typeclasses eauto | intros sha].
  unfold RedisRepository.EvalSha, RedisRepository.ScriptLoad. frame.
  all: apply redis_call_fast_declines; intros r v;
    first [apply run_EVALSHA_declines | apply run_SCRIPT_LOAD_declines].
Qed.

Lemma DeleteUserVoteCache_fast_declines username :
  preserves fast_declines (RedisRepository.DeleteUserVoteCache username).
Proof.
  unfold RedisRepository.DeleteUserVoteCache, RedisRepository.Del. frame.
  apply redis_call_fast_declines. intros r v. apply run_DEL_cache_declines.
Qed.

Hint Resolve redis_DecrementTicketUsage_fast_declines DeleteUserVoteCache_fast_declines : frame.

Lemma ValidateTicket_fast_declines ticket :
  preserves fast_declines (RedisRepository.ValidateTicket ticket).
Proof. apply keeps_redis_fast_declines, ValidateTicket_keeps_redis. Qed.

Hint Resolve ValidateTicket_fast_declines : frame.

Lemma UseTicket_fast_declines ticket :
  preserves fast_declines (TicketService.UseTicket ticket).
Proof. unfold TicketService.UseTicket, TicketService.ValidateTicket. frame. Qed.

Lemma delete_caches_fast_declines before after usernames :
  preserves fast_declines (VoteService.delete_caches before after usernames).
Proof.
  induction usernames as [|username rest IH]; cbn [VoteService.delete_caches]; frame.
Qed.

End FastTier.
(** *** The durable tier under the settlement *)

Lemma mysql_DecrementTicketUsage_spec (version : string) (w : World) :
  let r := MySQLRepository.DecrementTicketUsage version w in
  redis r.2 = redis w /\
  user_votes (mysql r.2) = user_votes (mysql w) /\
  vote_logs (mysql r.2) = vote_logs (mysql w) /\
  (forall v, declines (durable_remaining (mysql w) v) (durable_remaining (mysql r.2) v)) /\
  (forall n, durable_remaining (mysql w) version = Some n -> n <= 0 ->
             mysql r.2 = mysql w /\ exists e, r.1 = (0, Some e)) /\
  (forall n, r.1 = (n, None) ->
             durable_remaining (mysql w) version = Some (n + 1) /\ 0 <= n /\
             durable_remaining (mysql r.2) version = Some n).
Proof.
  cbv zeta. destruct w as [r [uv vl tk] k rf mf kf sh cfg clk ent tr].
  unfold durable_remaining. exec.
  destruct mf as [|[e1|] [|[e2|] mf]]; exec.
  all: try destruct (tk !! version) as [row|] eqn:Hrow; exec.
  all: try destruct (Z.leb_spec (t_remaining_usages row) 0); exec.
  all: try (destruct mf as [|[e3|] [|[e4|] mf]]; exec).
  all: repeat lazymatch goal with |- _ /\ _ => split end; try reflexivity.
  all: try (intros v; apply declines_refl).
  all: try (intros n [=]; fail).
  all: try (intros n Hn Hle; split; [reflexivity | eauto]; fail).
  all: try (intros n Hn Hle; cbn in Hn; injection Hn as <-; lia).
  all: try (intros n [= <-]; rewrite lookup_insert_eq; cbn;
            repeat split; try lia; f_equal; lia).
  all: intros v; destruct (decide (version = v)) as [<-|Hne];
       [ right; exists (t_remaining_usages row), (t_remaining_usages row - 1);
         rewrite Hrow, lookup_insert_eq; cbn; repeat split; lia
       | left; now rewrite lookup_insert_ne ].
Qed.

Lemma mysql_DecrementTicketUsage_keeps_redis version :
  preserves (keeps redis) (MySQLRepository.DecrementTicketUsage version).
Proof. intros w. apply (mysql_DecrementTicketUsage_spec version w). Qed.

Lemma mysql_DecrementTicketUsage_durable_declines version :
  preserves durable_declines (MySQLRepository.DecrementTicketUsage version).
Proof. intros w v. apply (mysql_DecrementTicketUsage_spec version w). Qed.

Lemma IncrementVotes_keeps_redis usernames ticketVersion :
  preserves (keeps redis) (MySQLRepository.IncrementVotes usernames ticketVersion).
Proof. intros w. apply (IncrementVotes_spec usernames ticketVersion w). Qed.

Lemma IncrementVotes_keeps_tickets usernames ticketVersion :
  preserves (keeps (fun w => tickets (mysql w)))
    (MySQLRepository.IncrementVotes usernames ticketVersion).
Proof.
  intros w. unfold keeps.
  pose proof (IncrementVotes_spec usernames ticketVersion w) as [_ Hspec].
  cbv zeta in Hspec.
  destruct (MySQLRepository.IncrementVotes usernames ticketVersion w).1.
  - now rewrite Hspec.
  - apply Hspec.
Qed.

Lemma keeps_tickets_durable_declines {A} (m : M A) :
  preserves (keeps (fun w => tickets (mysql w))) m -> preserves durable_declines m.
Proof.
  intros Hm w version. unfold keeps in Hm. unfold durable_remaining.
  rewrite (Hm w). apply declines_refl.
Qed.

Lemma keeps_mysql_keeps_tickets {A} (m : M A) :
  preserves (keeps mysql) m -> preserves (keeps (fun w => tickets (mysql w))) m.
Proof. intros Hm w. unfold keeps in *. now rewrite (Hm w). Qed.

Lemma SendVoteEvent_keeps_redis event :
  preserves (keeps redis) (Producer.SendVoteEvent event).
Proof.
  unfold Producer.SendVoteEvent. frame.
  apply keeps_intro. intros w.
  now destruct (next_fault (kafka_faults w)) as [[e|] plan].
Qed.

Lemma tiers_decline_split (w w' : World) :
  tiers_decline w w' <-> fast_declines w w' /\ durable_declines w w'.
Proof.
  unfold tiers_decline, fast_declines, durable_declines. split.
  - intros Hboth. split; intros version; apply Hboth.
  - intros [Hfast Hdurable] version. split; [apply Hfast | apply Hdurable].
Qed.

Section Services.
Context `{TimeLayout}.

Hint Resolve UseTicket_keeps_mysql delete_caches_keeps_mysql SendVoteEvent_keeps_mysql
  UseTicket_fast_declines delete_caches_fast_declines : frame.
Hint Extern 2 (preserves fast_declines (Producer.SendVoteEvent _)) =>
  (apply keeps_redis_fast_declines, SendVoteEvent_keeps_redis) : frame.
Hint Extern 2 (preserves fast_declines (MySQLRepository.IncrementVotes _ _)) =>
  (apply keeps_redis_fast_declines, IncrementVotes_keeps_redis) : frame.
Hint Extern 2 (preserves fast_declines (MySQLRepository.DecrementTicketUsage _)) =>
  (apply keeps_redis_fast_declines, mysql_DecrementTicketUsage_keeps_redis) : frame.
Hint Resolve IncrementVotes_keeps_tickets : frame.
Hint Extern 4 (preserves (keeps (fun w => tickets (mysql w))) _) =>
  (apply keeps_mysql_keeps_tickets; solve [eauto with frame]) : frame.
Hint Extern 4 (preserves durable_declines _) =>
  (apply keeps_tickets_durable_declines; solve [eauto with frame]) : frame.
Hint Resolve mysql_DecrementTicketUsage_durable_declines : frame.

(** [Vote] never writes the tickets of the durable tier. *)
Lemma Vote_keeps_tickets request :
  preserves (keeps (fun w => tickets (mysql w))) (VoteService.Vote request).
Proof. unfold VoteService.Vote. frame. Qed.

Lemma Vote_fast_declines request :
  preserves fast_declines (VoteService.Vote request).
Proof. unfold VoteService.Vote. frame. Qed.

Lemma ProcessVoteEvent_fast_declines event :
  preserves fast_declines (VoteService.ProcessVoteEvent event).
Proof. unfold VoteService.ProcessVoteEvent. frame. Qed.

Lemma ProcessVoteEvent_durable_declines event :
  preserves durable_declines (VoteService.ProcessVoteEvent event).
Proof. unfold VoteService.ProcessVoteEvent. frame. Qed.

End Services.
(** *** The two services that write counts upward *)

Section Refill.
Context `{TimeLayout}.

Lemma mysql_GetTicket_spec (version : string) (w : World) :
  let r := MySQLRepository.GetTicket version w in
  redis r.2 = redis w /\
  mysql r.2 = mysql w /\
  forall ticket, r.1 = inl ticket ->
    exists row, tickets (mysql w) !! version = Some row /\ ticket = ticket_of_row version row.
Proof.
  cbv zeta. destruct w as [r m k rf mf kf sh cfg clk ent tr]. exec.
  destruct mf as [|[e|] mf]; exec.
  all: try destruct ((let (_, _, tickets) := m in tickets) !! version) as [row|] eqn:Hrow.
  all: repeat split; try discriminate.
  all: intros ticket [= <-]; eauto.
Qed.

Lemma CreateTicket_effect (ticket : Ticket) (w : World) :
  let r := RedisRepository.CreateTicket ticket w in
  mysql r.2 = mysql w /\
  forall version,
    fast_remaining (redis r.2) version = fast_remaining (redis w) version \/
    (version = Version ticket /\
     fast_remaining (redis r.2) version = Some (RemainingUsages ticket)).
Proof.
  cbv zeta. destruct w as [[rk rt rs] m k rf mf kf sh cfg clk ent tr].
  destruct ticket as [val ver rem exp cre].
  unfold fast_remaining. exec.
  destruct rf as [|[e|] rf]; exec.
  all: try destruct (rk !! (RedisRepository.TicketKey +:+ ver)) as [[s|h]|] eqn:Hk; exec.
  all: split; [reflexivity |]; intros version; try (left; reflexivity).
  all: destruct (decide (version = ver)) as [->|Hne];
       [ right; split; [reflexivity |];
         rewrite lookup_insert_eq, hmset_remainingUsages; apply atoi_itoa
       | left; rewrite lookup_insert_ne; [reflexivity |];
         intros Heq; apply ticket_key_inj in Heq; congruence ].
Qed.

(** [GetCurrentTicket] leaves the durable tier as it is; in the fast tier
    a count is where it was, or it is now the count of the durable row. *)
Lemma GetCurrentTicket_effect (clientID : string) (w : World) :
  let r := TicketService.GetCurrentTicket clientID w in
  mysql r.2 = mysql w /\
  forall version,
    fast_remaining (redis r.2) version = fast_remaining (redis w) version \/
    (is_Some (durable_remaining (mysql w) version) /\
     fast_remaining (redis r.2) version = durable_remaining (mysql w) version).
Proof.
  cbv zeta. unfold TicketService.GetCurrentTicket, bind.
  pose proof (GetNewestTicketVersion_keeps_redis w) as Hr1.
  pose proof (GetNewestTicketVersion_keeps_mysql w) as Hm1.
  destruct (RedisRepository.GetNewestTicketVersion w) as [[pointer perr] w1].
  pose proof (redis_GetTicket_keeps_redis pointer w1) as Hr2.
  pose proof (redis_GetTicket_keeps_mysql pointer w1) as Hm2.
  unfold keeps in *. cbn [fst snd] in *.
  destruct (RedisRepository.GetTicket pointer w1) as [[redisTicket|err] w2];
    cbn [fst snd] in *.
  { assert (Hsame : redis w2 = redis w /\ mysql w2 = mysql w)
      by (split; [now rewrite Hr2 | now rewrite Hm2]).
    destruct Hsame as [Hr Hm].
    destruct (RemainingUsages redisTicket <=? 0); unfold ret; cbn [snd];
      (split; [assumption | intros version; left; now rewrite Hr]). }
  cbv [Printf].
  pose proof (mysql_GetTicket_spec pointer
                (record (ELog ("从Redis获取票据失败: " +:+ err +:+ "，尝试从MySQL获取")) w2))
    as (Hr3 & Hm3 & Hrow).
  destruct (MySQLRepository.GetTicket pointer _) as [[mysqlTicket|mysqlErr] w3];
    cbn [fst snd] in *.
  2:{ unfold ret. cbn [snd]. cbn in Hr3, Hm3.
      split; [now rewrite Hm3, Hm2 |].
      intros version. left. now rewrite Hr3, Hr2, Hr1. }
  destruct (Hrow mysqlTicket eq_refl) as (row & Hlookup & ->).
  pose proof (CreateTicket_effect (ticket_of_row pointer row) w3) as [Hm4 Hfast].
  destruct (RedisRepository.CreateTicket (ticket_of_row pointer row) w3) as [cerr w4];
    cbn [fst snd] in *.
  cbn in Hr3, Hm3, Hlookup.
  assert (Hredis : redis w3 = redis w) by (now rewrite Hr3, Hr2).
  assert (Hmysql : mysql w4 = mysql w) by (now rewrite Hm4, Hm3, Hm2).
  assert (Hdur : tickets (mysql w) !! pointer = Some row)
    by (now rewrite <- Hm1, <- Hm2).
  assert (Hgoal : forall version,
            fast_remaining (redis w4) version = fast_remaining (redis w) version \/
            (is_Some (durable_remaining (mysql w) version) /\
             fast_remaining (redis w4) version = durable_remaining (mysql w) version)).
  { intros version. destruct (Hfast version) as [Hsame | [-> Hnew]].
    - left. now rewrite Hsame, Hredis.
    - right. unfold durable_remaining. cbn [Version ticket_of_row RemainingUsages] in *.
      rewrite Hdur. cbn. split; [eauto | exact Hnew]. }
  destruct cerr as [e|]; unfold Printf, ret;
    destruct (RemainingUsages (ticket_of_row pointer row) <=? 0); cbn [snd];
    (split; [assumption | exact Hgoal]).
Qed.

End Refill.
Lemma itoa_not_pointer (n : Z) :
  RedisRepository.TicketKey +:+ itoa n <> RedisRepository.TicketVersionKey.
Proof.
  change RedisRepository.TicketVersionKey
    with (RedisRepository.TicketKey +:+ "newest:version").
  intros Heq. apply ticket_key_inj in Heq.
  pose proof (atoi_itoa n) as Hn. rewrite Heq in Hn. discriminate.
Qed.

Section Creation.
Context `{TimeLayout}.

Lemma generateTicketValue_keeps (w : World) :
  let r := TicketService.generateTicketValue w in
  redis r.2 = redis w /\ mysql r.2 = mysql w /\ clock r.2 = clock w /\ config r.2 = config w.
Proof.
  cbv zeta. destruct w as [r m k rf mf kf sh cfg clk ent tr]. exec.
  now destruct ent as [|[bytes|] ent].
Qed.

Lemma SaveTicket_effect (ticket : Ticket) (w : World) :
  let r := MySQLRepository.SaveTicket ticket w in
  redis r.2 = redis w /\
  (forall version, version <> Version ticket ->
     durable_remaining (mysql r.2) version = durable_remaining (mysql w) version) /\
  (r.1 <> None -> mysql r.2 = mysql w) /\
  (r.1 = None ->
   durable_remaining (mysql r.2) (Version ticket) = Some (RemainingUsages ticket)).
Proof.
  cbv zeta. destruct w as [r [uv vl tk] k rf mf kf sh cfg clk ent tr].
  destruct ticket as [val ver rem exp cre].
  unfold durable_remaining. exec.
  destruct mf as [|[e|] mf]; exec.
  all: repeat lazymatch goal with |- _ /\ _ => split end; try reflexivity;
       try (intros; reflexivity); try (intros; congruence).
  all: try (intros version Hne; now rewrite lookup_insert_ne).
  all: intros _; now rewrite lookup_insert_eq.
Qed.

Lemma SetNewestTicketVersion_effect (pointer : string) (w : World) :
  let r := RedisRepository.SetNewestTicketVersion pointer w in
  mysql r.2 = mysql w /\
  forall version,
    (RedisRepository.TicketKey +:+ version <> RedisRepository.TicketVersionKey ->
     fast_remaining (redis r.2) version = fast_remaining (redis w) version) /\
    (fast_remaining (redis r.2) version = fast_remaining (redis w) version \/
     fast_remaining (redis r.2) version = None).
Proof.
  cbv zeta. destruct w as [[rk rt rs] m k rf mf kf sh cfg clk ent tr].
  unfold fast_remaining. exec.
  destruct rf as [|[e|] rf]; exec.
  all: split; [reflexivity |]; intros version.
  all: try (split; [intros _ |]; try left; reflexivity).
  all: destruct (decide (RedisRepository.TicketVersionKey = RedisRepository.TicketKey +:+ version))
         as [<-|Hne];
       [ rewrite lookup_insert_eq; split; [intros Hkey; now contradict Hkey | now right]
       | rewrite lookup_insert_ne by assumption; split; [intros _ |]; try left; reflexivity ].
Qed.

(** Minting writes the count of the version it creates, and raises no
    other. *)
Lemma generateTicket_creates (w : World) :
  let w' := (TicketService.generateTicket w).2 in
  (forall version, version <> itoa (clock w) ->
     durable_remaining (mysql w') version = durable_remaining (mysql w) version /\
     (fast_remaining (redis w') version = fast_remaining (redis w) version \/
      fast_remaining (redis w') version = None)) /\
  (durable_remaining (mysql w') (itoa (clock w)) = durable_remaining (mysql w) (itoa (clock w)) \/
   durable_remaining (mysql w') (itoa (clock w)) = Some (MaxUsageCount (config w))) /\
  (fast_remaining (redis w') (itoa (clock w)) = fast_remaining (redis w) (itoa (clock w)) \/
   fast_remaining (redis w') (itoa (clock w)) = Some (MaxUsageCount (config w))).
Proof.
  cbv zeta. unfold TicketService.generateTicket, TicketService.generateVersion.
  cbv [bind Now ret].
  pose proof (generateTicketValue_keeps w) as (Hr0 & Hm0 & Hc0 & Hg0).
  destruct (TicketService.generateTicketValue w) as [value w0]. cbn [fst snd] in *.
  rewrite Hc0, Hg0.
  set (ticket := {| Value := value; Version := itoa (clock w);
                    RemainingUsages := MaxUsageCount (config w);
                    ExpiresAt := clock w + RefreshInterval (config w);
                    CreatedAt := clock w |}).
  pose proof (SaveTicket_effect ticket w0) as (Hr1 & Hother & Hfail & Hsaved).
  destruct (MySQLRepository.SaveTicket ticket w0) as [[e|] w1]; cbn [fst snd] in *.
  { cbv [Printf]. cbn [snd]. cbn [mysql redis record].
    rewrite Hfail by discriminate. rewrite Hr1, Hr0, Hm0.
    repeat split; auto. }
  pose proof (CreateTicket_effect ticket w1) as (Hm2 & Hfast2).
  destruct (RedisRepository.CreateTicket ticket w1) as [cerr w2]; cbn [fst snd] in *.
  assert (Hlog : exists w2', redis w2' = redis w2 /\ mysql w2' = mysql w2 /\
                 (match cerr with
                  | Some e => Printf ("保存票据到Redis失败: " +:+ e)
                  | None => λ w : World, ((), w)
                  end w2) = (tt, w2')).
  { destruct cerr; eexists; (split; [| split; [| reflexivity]]); reflexivity. }
  destruct Hlog as (w2' & Hr2' & Hm2' & ->).
  pose proof (SetNewestTicketVersion_effect (itoa (clock w)) w2') as (Hm3 & Hfast3).
  destruct (RedisRepository.SetNewestTicketVersion (itoa (clock w)) w2') as [perr w3];
    cbn [fst snd] in *.
  assert (Hend : exists w3', redis w3' = redis w3 /\ mysql w3' = mysql w3 /\
                 (match perr with
                  | Some e => Printf ("设置Redis最新票据版本失败: " +:+ e)
                  | None => λ w : World, ((), w)
                  end w3) = (tt, w3')).
  { destruct perr; eexists; (split; [| split; [| reflexivity]]); reflexivity. }
  destruct Hend as (w3' & Hr3' & Hm3' & ->). cbn [snd].
  rewrite Hr3', Hm3', Hm3, Hm2', Hm2.
  repeat split.
  - rewrite Hother by assumption. now rewrite Hm0.
  - destruct (Hfast3 version) as [_ [Hsame | Hnone]]; [| now right].
    rewrite Hsame, Hr2'.
    destruct (Hfast2 version) as [Hsame2 | [Heq _]]; [| contradiction].
    left. now rewrite Hsame2, Hr1, Hr0.
  - right. now apply Hsaved.
  - destruct (Hfast3 (itoa (clock w))) as [Hkeep _].
    rewrite (Hkeep (itoa_not_pointer (clock w))), Hr2'.
    destruct (Hfast2 (itoa (clock w))) as [Hsame2 | [_ Hnew]].
    + left. now rewrite Hsame2, Hr1, Hr0.
    + right. exact Hnew.
Qed.

End Creation.
(** ** The fast-tier decrement, from its answer *)

Lemma lua_success (version : string) (rest : list string) (r r' : Redis) (reply : Reply) (n : Z) :
  RedisRepository.lua_DecrementTicketUsage ((RedisRepository.TicketKey +:+ version) :: rest) r
    = (Got reply, r') ->
  RedisRepository.parse_script_result reply = (n, None) ->
  fast_remaining r version = Some (n + 1) /\ 0 <= n /\ fast_remaining r' version = Some n.
Proof.
  unfold RedisRepository.lua_DecrementTicketUsage, fast_remaining.
  destruct (rkeys r !! (RedisRepository.TicketKey +:+ version)) as [[s|h]|]; try discriminate.
  - destruct (h !! "remainingUsages") as [s|] eqn:Hs; cbn.
    + destruct (tonumber s) as [m|] eqn:Hm.
      * destruct (Z.leb_spec m 0).
        -- intros [= <- <-]. discriminate.
        -- intros [= <- <-]. cbn. intros [= <-].
           rewrite lookup_insert_eq. cbn. rewrite lookup_insert_eq. cbn.
           rewrite atoi_itoa. repeat split; [f_equal|]; lia.
      * intros [= <- <-]. discriminate.
    + intros [= <- <-]. discriminate.
  - intros [= <- <-]. discriminate.
Qed.

Lemma EvalSha_cases (sha : string) (KEYS ARGV : list string) (w : World) :
  let r := RedisRepository.EvalSha sha KEYS ARGV w in
  scriptHashes r.2 = scriptHashes w /\
  match r.1 with
  | Got reply =>
      RedisRepository.lua_DecrementTicketUsage KEYS (redis w) = (Got reply, redis r.2)
  | _ => redis r.2 = redis w
  end.
Proof.
  destruct w as [rd my kf rf mf kff sh cfg clk ent tr].
  unfold RedisRepository.EvalSha, redis_call. cbn.
  destruct rf as [|[msg|] plan]; cbn; auto.
  all: unfold RedisRepository.run_EVALSHA;
       destruct (rscripts rd !! sha) as [[]|]; cbn; auto.
  all: destruct (RedisRepository.lua_DecrementTicketUsage KEYS rd) as [[reply| |msg] r'] eqn:Hl;
       cbn; auto.
  all: split; [reflexivity|]; revert Hl; unfold RedisRepository.lua_DecrementTicketUsage;
       destruct KEYS as [|k ks]; [now intros [= <-]|];
       destruct (rkeys rd !! k) as [[s|h]|]; try (now intros [= <-]);
       destruct (from_option tonumber None (h !! "remainingUsages")) as [m|];
       try (now intros [= <-]);
       destruct (m <=? 0); discriminate.
Qed.

Lemma ScriptLoad_cases (s : Script) (w : World) :
  rkeys (redis (RedisRepository.ScriptLoad s w).2) = rkeys (redis w).
Proof.
  destruct w as [rd my kf rf mf kff sh cfg clk ent tr].
  unfold RedisRepository.ScriptLoad, redis_call. cbn.
  destruct rf as [|[msg|] plan]; reflexivity.
Qed.

Lemma fast_remaining_rkeys (r r' : Redis) (version : string) :
  rkeys r' = rkeys r -> fast_remaining r' version = fast_remaining r version.
Proof. unfold fast_remaining. now intros ->. Qed.

Lemma redis_DecrementTicketUsage_success (version : string) (w : World) (n : Z) :
  (RedisRepository.DecrementTicketUsage version w).1 = (n, None) ->
  fast_remaining (redis w) version = Some (n + 1) /\ 0 <= n /\
  fast_remaining (redis (RedisRepository.DecrementTicketUsage version w).2) version = Some n.
Proof.
  unfold RedisRepository.DecrementTicketUsage.
  destruct (scriptHashes w !! "decrementTicketUsage") as [sha|]; [|discriminate].
  unfold bind, ret.
  set (KEYS := [RedisRepository.TicketKey +:+ version; RedisRepository.TicketVersionKey]).
  pose proof (EvalSha_cases sha KEYS [version] w) as H1. cbv zeta in H1.
  destruct (RedisRepository.EvalSha sha KEYS [version] w) as [a w1]. cbn [fst snd] in *.
  destruct H1 as [_ H1].
  destruct a as [reply| |msg]; cbn [RedisRepository.err_text].
  - cbn [fst snd]. intros Hp. exact (lua_success _ _ _ _ _ _ H1 Hp).
  - cbn. discriminate.
  - destruct (String.eqb msg NOSCRIPT); [|discriminate].
    pose proof (ScriptLoad_cases DecrementTicketUsageScript w1) as H2.
    destruct (RedisRepository.ScriptLoad DecrementTicketUsageScript w1) as [l w2].
    cbn [fst snd] in *.
    destruct l as [sha'| |msg']; try discriminate.
    pose proof (EvalSha_cases sha' KEYS [version]
                  (set_scriptHashes (<["decrementTicketUsage" := sha']> (scriptHashes w2)) w2))
      as H3. cbv zeta in H3.
    destruct (RedisRepository.EvalSha sha' KEYS [version]
                (set_scriptHashes (<["decrementTicketUsage" := sha']> (scriptHashes w2)) w2))
      as [b w3]. cbn [fst snd] in *.
    destruct H3 as [_ H3].
    destruct b as [reply| |msg'']; try discriminate.
    cbn [fst snd]. intros Hp. cbn [redis set_scriptHashes] in H3.
    destruct (lua_success _ _ _ _ _ _ H3 Hp) as (Hb & Hn & Ha).
    rewrite <- H1. rewrite <- (fast_remaining_rkeys _ _ version H2). auto.
Qed.

Lemma parse_script_result_error (reply : Reply) (k : Z) (e : string) :
  RedisRepository.parse_script_result reply = (k, Some e) -> k = 0.
Proof.
  unfold RedisRepository.parse_script_result.
  repeat match goal with
         | |- context [match ?x with _ => _ end] => destruct x; try discriminate
         end.
  all: now intros [= <- _].
Qed.

Lemma redis_DecrementTicketUsage_error (version : string) (w : World) (k : Z) (e : string) :
  (RedisRepository.DecrementTicketUsage version w).1 = (k, Some e) -> k = 0.
Proof.
  unfold RedisRepository.DecrementTicketUsage.
  destruct (scriptHashes w !! "decrementTicketUsage") as [sha|]; [|now intros [= <- _]].
  unfold bind, ret.
  destruct (RedisRepository.EvalSha sha _ [version] w) as [[reply| |msg] w1];
    cbn [RedisRepository.err_text fst snd].
  - apply parse_script_result_error.
  - cbn. now intros [= <- _].
  - destruct (String.eqb msg NOSCRIPT); [|now intros [= <- _]].
    destruct (RedisRepository.ScriptLoad DecrementTicketUsageScript w1) as [[sha'| |msg'] w2];
      cbn [fst snd]; try (now intros [= <- _]).
    destruct (RedisRepository.EvalSha sha' _ [version] _) as [[reply| |msg''] w3];
      cbn [fst snd]; try (now intros [= <- _]).
    apply parse_script_result_error.
Qed.

Lemma redis_DecrementTicketUsage_refuses (version : string) (w : World) (n : Z) :
  fast_remaining (redis w) version = Some n ->
  n <= 0 ->
  fast_remaining (redis (RedisRepository.DecrementTicketUsage version w).2) version = Some n /\
  exists e, (RedisRepository.DecrementTicketUsage version w).1 = (0, Some e).
Proof.
  intros Hn Hle. split.
  - destruct (redis_DecrementTicketUsage_fast_declines version w version)
      as [Hsame | (a & b & Ha & Hb & Hab)].
    + now rewrite Hsame.
    + rewrite Hn in Ha. injection Ha as <-. lia.
  - destruct (RedisRepository.DecrementTicketUsage version w).1 as [k [e|]] eqn:Hr.
    + rewrite (redis_DecrementTicketUsage_error _ _ _ _ Hr). eauto.
    + destruct (redis_DecrementTicketUsage_success _ _ _ Hr) as (Hb & Hk & _).
      rewrite Hn in Hb. injection Hb as ->. lia.
Qed.

(** ** The invariant on remaining usages *)

Section Invariant.
Context `{TimeLayout}.

Lemma tiers_decline_intro {A} (m : M A) :
  preserves fast_declines m -> preserves durable_declines m ->
  forall w, tiers_decline w (m w).2.
Proof. intros Hfast Hdurable w. apply tiers_decline_split. split; [apply Hfast | apply Hdurable]. Qed.

(** C6, as amended.  Neither decrement goes below zero or upward.  The
    script of the fast tier refuses at a count of zero or less and leaves
    the record as it was, and otherwise writes the count less one and
    returns it; [DecrementTicketUsage] of the fast tier, whatever calls
    fail, answers an error and leaves the count where it was when the
    count is zero or less, and when it answers [n] without error the count
    was [n + 1] and is now [n].  The transaction of the durable tier does
    the same on the row of the version.  Through a spend ([UseTicket]), a
    vote and the settlement of an event every count of every version, in
    both tiers, is where it was or lower and not negative.  Two services
    write a count upward.  Minting writes [MaxUsageCount] for the version
    it creates and raises no other version.  [GetCurrentTicket] leaves the
    durable tier alone and, when it falls back to it, rewrites the record
    of the fast tier with the count of the durable row. *)
Theorem remaining_usages_decline_except_refill :
  (forall key rest r h s n,
     rkeys r !! key = Some (RHash h) -> h !! "remainingUsages" = Some s ->
     tonumber s = Some n -> n <= 0 ->
     RedisRepository.lua_DecrementTicketUsage (key :: rest) r =
       (Got (RArray [RInt (-1); RBulk "票据使用次数已耗尽"]), r)) /\
  (forall key rest r h s n,
     rkeys r !! key = Some (RHash h) -> h !! "remainingUsages" = Some s ->
     tonumber s = Some n -> 0 < n ->
     RedisRepository.lua_DecrementTicketUsage (key :: rest) r =
       (Got (RArray [RInt 0; RInt (n - 1)]),
        {| rkeys := <[key := RHash (<["remainingUsages" := itoa (n - 1)]> h)]> (rkeys r);
           rttl := rttl r; rscripts := rscripts r |})) /\
  (forall version w n,
     fast_remaining (redis w) version = Some n -> n <= 0 ->
     fast_remaining (redis (RedisRepository.DecrementTicketUsage version w).2) version
       = Some n /\
     exists e, (RedisRepository.DecrementTicketUsage version w).1 = (0, Some e)) /\
  (forall version w n,
     (RedisRepository.DecrementTicketUsage version w).1 = (n, None) ->
     fast_remaining (redis w) version = Some (n + 1) /\ 0 <= n /\
     fast_remaining (redis (RedisRepository.DecrementTicketUsage version w).2) version
       = Some n) /\
  (forall version w n,
     durable_remaining (mysql w) version = Some n -> n <= 0 ->
     mysql (MySQLRepository.DecrementTicketUsage version w).2 = mysql w /\
     exists e, (MySQLRepository.DecrementTicketUsage version w).1 = (0, Some e)) /\
  (forall version w n,
     (MySQLRepository.DecrementTicketUsage version w).1 = (n, None) ->
     durable_remaining (mysql w) version = Some (n + 1) /\ 0 <= n /\
     durable_remaining (mysql (MySQLRepository.DecrementTicketUsage version w).2) version
       = Some n) /\
  (forall version w, tiers_decline w (RedisRepository.DecrementTicketUsage version w).2) /\
  (forall version w, tiers_decline w (MySQLRepository.DecrementTicketUsage version w).2) /\
  (forall ticket w, tiers_decline w (TicketService.UseTicket ticket w).2) /\
  (forall request w, tiers_decline w (VoteService.Vote request w).2) /\
  (forall event w, tiers_decline w (VoteService.ProcessVoteEvent event w).2) /\
  (forall w,
     let w' := (TicketService.generateTicket w).2 in
     (forall version, version <> itoa (clock w) ->
        durable_remaining (mysql w') version = durable_remaining (mysql w) version /\
        (fast_remaining (redis w') version = fast_remaining (redis w) version \/
         fast_remaining (redis w') version = None)) /\
     (durable_remaining (mysql w') (itoa (clock w))
        = durable_remaining (mysql w) (itoa (clock w)) \/
      durable_remaining (mysql w') (itoa (clock w)) = Some (MaxUsageCount (config w))) /\
     (fast_remaining (redis w') (itoa (clock w))
        = fast_remaining (redis w) (itoa (clock w)) \/
      fast_remaining (redis w') (itoa (clock w)) = Some (MaxUsageCount (config w)))) /\
  (forall clientID w,
     let w' := (TicketService.GetCurrentTicket clientID w).2 in
     mysql w' = mysql w /\
     forall version,
       fast_remaining (redis w') version = fast_remaining (redis w) version \/
       (is_Some (durable_remaining (mysql w) version) /\
        fast_remaining (redis w') version = durable_remaining (mysql w) version)).
Proof.
  repeat lazymatch goal with |- _ /\ _ => split end.
  - intros key rest r h s n. apply lua_exhausted.
  - intros key rest r h s n. apply lua_decrements.
  - intros version w n. apply redis_DecrementTicketUsage_refuses.
  - intros version w n. apply redis_DecrementTicketUsage_success.
  - intros version w n. apply (mysql_DecrementTicketUsage_spec version w).
  - intros version w n. apply (mysql_DecrementTicketUsage_spec version w).
  - intros version. apply tiers_decline_intro.
    + apply redis_DecrementTicketUsage_fast_declines.
    + apply keeps_mysql_durable_declines, redis_DecrementTicketUsage_keeps_mysql.
  - intros version. apply tiers_decline_intro.
    + apply keeps_redis_fast_declines, mysql_DecrementTicketUsage_keeps_redis.
    + apply mysql_DecrementTicketUsage_durable_declines.
  - intros ticket. apply tiers_decline_intro.
    + apply UseTicket_fast_declines.
    + apply keeps_mysql_durable_declines, UseTicket_keeps_mysql.
  - intros request. apply tiers_decline_intro.
    + apply Vote_fast_declines.
    + apply keeps_tickets_durable_declines, Vote_keeps_tickets.
  - intros event. apply tiers_decline_intro.
    + apply ProcessVoteEvent_fast_declines.
    + apply ProcessVoteEvent_durable_declines.
  - intros w. apply generateTicket_creates.
  - intros clientID w. apply GetCurrentTicket_effect.
Qed.

End Invariant.

(** C6, as stated, fails.  Version 100 exists in both tiers; the fast tier
    has it at 0 and refuses a spend; the durable tier still has it at 3.
    One [GetCurrentTicket] whose read of the record times out writes 3 over
    the 0, and the same ticket is spent again. *)
Lemma GetCurrentTicket_raises_fast_count :
  fast_remaining (redis world_lagging) "100" = Some 0 /\
  durable_remaining (mysql world_lagging) "100" = Some 3 /\
  fast_remaining
    (redis (@TicketService.GetCurrentTicket decimal_layout "client-1" world_lagging).2) "100"
    = Some 3 /\
  (@TicketService.UseTicket decimal_layout ticket100 (world100 0 3 [] [] [])).1 =
    (false, Some "减少Redis票据使用次数失败: 票据使用次数已耗尽") /\
  (@TicketService.UseTicket decimal_layout ticket100
     (@TicketService.GetCurrentTicket decimal_layout "client-1" world_lagging).2).1
    = (true, None).
Proof. vm_compute. repeat split; reflexivity. Qed.
(** ** Settlement *)

(** C1 on the bus-outage scenario.  The spend succeeds and the publish
    fails: [Vote] answers success, the tally of D is incremented in the
    durable tier and the cache entry of D is deleted, but the count of the
    ticket in the durable tier stays at 3, no statement on the tickets
    table being sent; the consumer path, on the same world, takes it to
    2. *)
Lemma Vote_fallback_skips_durable_decrement :
  (@VoteService.Vote decimal_layout request_D world_bus_down).1 =
    ({| Success := true; Message := "投票成功"; Usernames := ["D"]; Timestamp := 1000 |}, None) /\
  kafka (@VoteService.Vote decimal_layout request_D world_bus_down).2 = [] /\
  rkeys (redis world_bus_down) !! "user:vote:D" = Some (RStr "D:5") /\
  rkeys (redis (@VoteService.Vote decimal_layout request_D world_bus_down).2)
    !! "user:vote:D" = None /\
  tally (mysql (@VoteService.Vote decimal_layout request_D world_bus_down).2) "D" = Some 6 /\
  fast_remaining (redis (@VoteService.Vote decimal_layout request_D world_bus_down).2) "100"
    = Some 2 /\
  durable_remaining (mysql world_bus_down) "100" = Some 3 /\
  durable_remaining (mysql (@VoteService.Vote decimal_layout request_D world_bus_down).2) "100"
    = Some 3 /\
  List.filter (fun e => match e with EMySQL _ => true | _ => false end)
    (trace (@VoteService.Vote decimal_layout request_D world_bus_down).2) =
    [EMySQL TxBegin; EMySQL PrepareIncrement; EMySQL PrepareLog;
     EMySQL (ExecIncrement "D"); EMySQL (ExecLog "D" "100"); EMySQL TxCommit] /\
  durable_remaining
    (mysql (VoteService.ProcessVoteEvent
              {| ev_Usernames := ["D"]; TicketVersion := "100"; VotedAt := 1000 |}
              world_bus_down).2) "100" = Some 2.
Proof. vm_compute. repeat split; reflexivity. Qed.

Lemma log_rows_count (ticketVersion : string) (now : Time) (usernames : list string)
  (u : string) :
  Z.of_nat (length (List.filter (fun row => String.eqb (log_username row) u)
                      (map (log_row ticketVersion now) usernames)))
    = occurrences usernames u.
Proof.
  unfold occurrences. f_equal.
  induction usernames as [|username rest IH]; [reflexivity |].
  cbn [map List.filter log_row log_username count_occ].
  destruct (string_dec username u) as [->|Hneq].
  - rewrite String.eqb_refl. cbn. now rewrite IH.
  - rewrite (proj2 (String.eqb_neq username u) Hneq). exact IH.
Qed.

Section Settlement.
Context `{TimeLayout}.

(** C10.  A successful [IncrementVotes] adds to the tally of each user the
    number of times the user occurs in the list and appends one log row
    per element of the list, in order, so [k] rows for a user that occurs
    [k] times; a failed one leaves the durable tier as it was (one
    transaction); with no failure to come and every user present it
    succeeds.  Validation looks at each element on its own, so repeats
    pass.  The settlement of an event and the synchronous settlement of a
    request hand the list over as it is, and the tallies move by the same
    numbers. *)
Theorem IncrementVotes_counts_repeats (usernames : list string) (ticketVersion : string)
  (w : World) :
  let r := MySQLRepository.IncrementVotes usernames ticketVersion w in
  (r.1 = None ->
   (forall u n, tally (mysql w) u = Some n ->
                tally (mysql r.2) u = Some (n + occurrences usernames u)) /\
   vote_logs (mysql r.2) =
     vote_logs (mysql w) ++ map (log_row ticketVersion (clock w)) usernames) /\
  (r.1 <> None -> mysql r.2 = mysql w) /\
  (mysql_faults w = [] ->
   Forall (fun u => is_Some (user_votes (mysql w) !! u)) usernames ->
   r.1 = None) /\
  (forall u,
     Z.of_nat (length (List.filter (fun row => String.eqb (log_username row) u)
                         (map (log_row ticketVersion (clock w)) usernames)))
       = occurrences usernames u) /\
  (VoteService.first_invalid usernames = None <->
   Forall (fun u => VoteService.valid_username u = true) usernames) /\
  (forall event w0,
     ev_Usernames event = usernames ->
     (VoteService.ProcessVoteEvent event w0).1 = None ->
     forall u n, tally (mysql w0) u = Some n ->
                 tally (mysql (VoteService.ProcessVoteEvent event w0).2) u
                   = Some (n + occurrences usernames u)) /\
  (forall request w0 wu e ws,
     req_Usernames request = usernames ->
     TicketService.UseTicket (req_Ticket request) w0 = ((true, None), wu) ->
     Producer.SendVoteEvent
       {| ev_Usernames := usernames; TicketVersion := Version (req_Ticket request);
          VotedAt := clock wu |} wu = (Some e, ws) ->
     (VoteService.Vote request w0).1.2 = None ->
     forall u n, tally (mysql w0) u = Some n ->
                 tally (mysql (VoteService.Vote request w0).2) u
                   = Some (n + occurrences usernames u)).
Proof.
  cbv zeta.
  pose proof (IncrementVotes_spec usernames ticketVersion w) as [_ Hspec].
  cbv zeta in Hspec.
  repeat lazymatch goal with |- _ /\ _ => split end.
  - intros Hok. rewrite Hok in Hspec. destruct Hspec as (Htally & Hlogs & _).
    split; [| exact Hlogs].
    intros u n Hn. now rewrite Htally, Hn.
  - intros Hfail. destruct (MySQLRepository.IncrementVotes usernames ticketVersion w).1;
      [exact Hspec | contradiction].
  - apply IncrementVotes_succeeds.
  - intros u. apply log_rows_count.
  - apply first_invalid_None.
  - intros event w0 Hevent Hok u n Hn.
    unfold VoteService.ProcessVoteEvent, bind in *. rewrite Hevent in *.
    pose proof (IncrementVotes_spec usernames (TicketVersion event) w0) as [_ Hinc].
    cbv zeta in Hinc.
    destruct (MySQLRepository.IncrementVotes usernames (TicketVersion event) w0)
      as [[e|] w1]; cbn [fst snd] in *; [discriminate |].
    destruct Hinc as (Htally & _ & _).
    pose proof (mysql_DecrementTicketUsage_spec (TicketVersion event) w1)
      as (_ & Huv & _).
    destruct (MySQLRepository.DecrementTicketUsage (TicketVersion event) w1)
      as [[left err] w2]; cbn [fst snd] in *.
    destruct err as [e|]; cbn [fst snd] in *; [discriminate |].
    pose proof (delete_caches_keeps_mysql "处理投票事件删除用户 " " 缓存失败: " usernames w2)
      as Hcaches.
    unfold keeps in Hcaches.
    destruct (VoteService.delete_caches _ _ usernames w2) as [[] w3]; cbn [fst snd] in *.
    unfold ret. cbn [fst snd].
    unfold tally in *. rewrite Hcaches, Huv.
    specialize (Htally u). rewrite Hn in Htally. exact Htally.
  - intros request w0 wu e ws Hreq Huse Hsend Hok u n Hn.
    pose proof (UseTicket_keeps_mysql (req_Ticket request) w0) as Hm1.
    pose proof (SendVoteEvent_keeps_mysql
                  {| ev_Usernames := usernames; TicketVersion := Version (req_Ticket request);
                     VotedAt := clock wu |} wu) as Hm2.
    unfold keeps in Hm1, Hm2. rewrite Huse in Hm1. rewrite Hsend in Hm2.
    cbn [fst snd] in Hm1, Hm2.
    revert Hok. unfold VoteService.Vote. cbv [bind Now ret]. rewrite Hreq.
    destruct (decide (length usernames = 0%nat)); [discriminate |].
    destruct (VoteService.first_invalid usernames); [discriminate |].
    rewrite Huse. cbn [negb]. rewrite Hsend. cbv [Printf].
    pose proof (IncrementVotes_spec usernames (Version (req_Ticket request))
                  (record (ELog ("发送投票事件到Kafka失败: " +:+ e)) ws)) as [_ Hinc].
    cbv zeta in Hinc.
    destruct (MySQLRepository.IncrementVotes usernames (Version (req_Ticket request)) _)
      as [[e'|] w1]; cbn [fst snd] in *; [discriminate |].
    destruct Hinc as (Htally & _ & _).
    pose proof (delete_caches_keeps_mysql "删除用户 " " 缓存失败: " usernames w1) as Hcaches.
    unfold keeps in Hcaches.
    destruct (VoteService.delete_caches _ _ usernames w1) as [[] w2]; cbn [fst snd] in *.
    intros _. unfold tally in Hn |- *. rewrite Hcaches.
    specialize (Htally u). unfold tally in Htally. cbn [mysql record] in Htally.
    rewrite Hm2, Hm1, Hn in Htally. exact Htally.
Qed.

End Settlement.

Lemma IncrementVotes_counts_repeats_witness :
  occurrences ["A"; "D"; "A"; "A"] "A" = 3 /\
  (MySQLRepository.IncrementVotes ["A"; "D"; "A"; "A"] "100" (world100 3 3 [] [] [])).1 = None /\
  tally (mysql (MySQLRepository.IncrementVotes ["A"; "D"; "A"; "A"] "100"
                  (world100 3 3 [] [] [])).2) "A" = Some (0 + 3) /\
  length (vote_logs (mysql (MySQLRepository.IncrementVotes ["A"; "D"; "A"; "A"] "100"
                              (world100 3 3 [] [] [])).2)) = 4%nat.
Proof.
  pose proof (@IncrementVotes_counts_repeats decimal_layout ["A"; "D"; "A"; "A"] "100"
                (world100 3 3 [] [] [])) as Hthm.
  cbv zeta in Hthm. destruct Hthm as (Hok & _ & Hsucceeds & _).
  assert (Hnone : (MySQLRepository.IncrementVotes ["A"; "D"; "A"; "A"] "100"
                     (world100 3 3 [] [] [])).1 = None).
  { apply Hsucceeds; [reflexivity |].
    repeat constructor; eexists; vm_compute; reflexivity. }
  destruct (Hok Hnone) as [Htally Hlogs].
  split; [reflexivity | split; [exact Hnone | split]].
  - apply (Htally "A" 0). vm_compute. reflexivity.
  - rewrite Hlogs. reflexivity.
Defined.
(** ** Validation failures on the wire *)

(** C2 holds for [ticketAndVote] and fails for [vote].  On a lowercase
    username, and on an empty list of usernames, [ticketAndVote] answers
    the response with [success = false] and the message of the validation,
    and no error; [vote], on the same usernames with a well-formed ticket,
    builds the response with [success = false] and answers it next to
    the error of the validation, which the GraphQL server reports as a
    protocol-level error in place of the response.  Nothing is called and
    the ticket is not spent. *)
Lemma Resolver_Vote_invalid_username_is_an_error :
  VoteService.first_invalid (Resolver.in_Usernames input_lowercase) = Some "a" /\
  (@Resolver.Vote decimal_layout input_lowercase (world100 3 3 [] [] [])).1 =
    ({| Success := false; Message := "投票失败"; Usernames := ["a"]; Timestamp := 1000 |},
     Some "无效的用户名: a, 用户名必须是A-Z之间的单个字母") /\
  (@Resolver.TicketAndVote decimal_layout ["a"] (world100 3 3 [] [] [])).1 =
    ({| Success := false;
        Message := "投票失败: 无效的用户名: a, 用户名必须是A-Z之间的单个字母";
        Usernames := ["a"]; Timestamp := 1000 |},
     None) /\
  (@Resolver.Vote decimal_layout
     {| Resolver.in_Usernames := []; Resolver.in_Ticket := Resolver.in_Ticket input_lowercase |}
     (world100 3 3 [] [] [])).1 =
    ({| Success := false; Message := "投票失败"; Usernames := []; Timestamp := 1000 |},
     Some "用户名列表不能为空") /\
  (@Resolver.TicketAndVote decimal_layout [] (world100 3 3 [] [] [])).1 =
    ({| Success := false; Message := "投票失败: 用户名列表不能为空";
        Usernames := []; Timestamp := 1000 |},
     None) /\
  trace (@Resolver.Vote decimal_layout input_lowercase (world100 3 3 [] [] [])).2 = [] /\
  fast_remaining (redis (@Resolver.Vote decimal_layout input_lowercase
                           (world100 3 3 [] [] [])).2) "100" = Some 3.
Proof. vm_compute. repeat split; reflexivity. Qed.

Section Wire.
Context `{TimeLayout}.

(** The same on every input.  A list of usernames passes the validation
    exactly when each is a single letter from A to Z.  On the empty list
    and on a list with a username that is refused, [ticketAndVote]
    answers the response with the message of the validation and no error,
    and [vote], the two timestamps of its ticket being readable, answers
    the generic failure response together with the error of the
    validation.  Neither touches the world. *)
Theorem validation_failure_on_the_wire :
  (forall usernames,
     VoteService.first_invalid usernames = None <->
     Forall (fun u => VoteService.valid_username u = true) usernames) /\
  (forall w,
     Resolver.TicketAndVote [] w =
       (({| Success := false; Message := "投票失败: 用户名列表不能为空";
            Usernames := []; Timestamp := clock w |}, None), w)) /\
  (forall usernames bad w,
     VoteService.first_invalid usernames = Some bad ->
     Resolver.TicketAndVote usernames w =
       (({| Success := false;
            Message := "投票失败: 无效的用户名: " +:+ bad
                       +:+ ", 用户名必须是A-Z之间的单个字母";
            Usernames := usernames; Timestamp := clock w |}, None), w)) /\
  (forall Input w expiresAt createdAt,
     Parse (Resolver.in_ExpiresAt (Resolver.in_Ticket Input)) = inl expiresAt ->
     Parse (Resolver.in_CreatedAt (Resolver.in_Ticket Input)) = inl createdAt ->
     Resolver.in_Usernames Input = [] ->
     Resolver.Vote Input w =
       (({| Success := false; Message := "投票失败";
            Usernames := []; Timestamp := clock w |},
         Some "用户名列表不能为空"), w)) /\
  (forall Input w expiresAt createdAt bad,
     Parse (Resolver.in_ExpiresAt (Resolver.in_Ticket Input)) = inl expiresAt ->
     Parse (Resolver.in_CreatedAt (Resolver.in_Ticket Input)) = inl createdAt ->
     VoteService.first_invalid (Resolver.in_Usernames Input) = Some bad ->
     Resolver.Vote Input w =
       (({| Success := false; Message := "投票失败";
            Usernames := Resolver.in_Usernames Input; Timestamp := clock w |},
         Some ("无效的用户名: " +:+ bad +:+ ", 用户名必须是A-Z之间的单个字母")), w)).
Proof.
  repeat lazymatch goal with |- _ /\ _ => split end.
  - apply first_invalid_None.
  - intros w. reflexivity.
  - intros usernames bad w Hbad. unfold Resolver.TicketAndVote. cbv [bind Now ret].
    destruct usernames as [|username rest]; [discriminate|].
    destruct (decide (length (username :: rest) = 0%nat)); [discriminate|].
    now rewrite Hbad.
  - intros Input w expiresAt createdAt Hexpires Hcreated Hnil.
    unfold Resolver.Vote. cbv [bind Now ret]. rewrite Hexpires, Hcreated.
    unfold VoteService.Vote. cbv [bind Now ret]. cbn [req_Usernames].
    rewrite Hnil. reflexivity.
  - intros Input w expiresAt createdAt bad Hexpires Hcreated Hbad.
    unfold Resolver.Vote. cbv [bind Now ret]. rewrite Hexpires, Hcreated.
    unfold VoteService.Vote. cbv [bind Now ret]. cbn [req_Usernames].
    destruct (Resolver.in_Usernames Input) as [|username rest]; [discriminate|].
    destruct (decide (length (username :: rest) = 0%nat)); [discriminate|].
    now rewrite Hbad.
Qed.

End Wire.

Lemma validation_failure_on_the_wire_witness :
  @Resolver.TicketAndVote decimal_layout ["a"] (world100 3 3 [] [] []) =
    (({| Success := false;
         Message := "投票失败: 无效的用户名: a, 用户名必须是A-Z之间的单个字母";
         Usernames := ["a"]; Timestamp := 1000 |}, None), world100 3 3 [] [] []) /\
  @Resolver.Vote decimal_layout input_lowercase (world100 3 3 [] [] []) =
    (({| Success := false; Message := "投票失败"; Usernames := ["a"];
         Timestamp := 1000 |}, Some "无效的用户名: a, 用户名必须是A-Z之间的单个字母"),
     world100 3 3 [] [] []).
Proof.
  pose proof (@validation_failure_on_the_wire decimal_layout) as (_ & _ & Hquick & _ & Hvote).
  split.
  - exact (Hquick ["a"] "a" (world100 3 3 [] [] []) eq_refl).
  - exact (Hvote input_lowercase (world100 3 3 [] [] []) 2100 100 "a" eq_refl eq_refl eq_refl).
Defined.

(** ** The release of the distributed lock

    [ReleaseLock], case by case on the two calls that it makes to etcd. *)

Lemma releaseLock_delete_fails (lockName : string) (s : EtcdLock.State) entry msg plan :
  EtcdLock.locks s !! lockName = Some entry ->
  EtcdLock.etcd_faults s = Some msg :: plan ->
  EtcdLock.releaseLock lockName s =
    (Some ("删除键失败: " +:+ msg),
     {| EtcdLock.etcd := EtcdLock.etcd s; EtcdLock.etcd_faults := plan;
        EtcdLock.locks := EtcdLock.locks s;
        EtcdLock.renewers := (EtcdLock.renewers s ∖ {[EtcdLock.leaseID entry]});
        EtcdLock.calls := EtcdLock.calls s ++ [EtcdLock.Delete (EtcdLock.key entry)] |}).
Proof.
  intros Hheld Hplan. destruct s as [e faults held renew cs]. cbn in Hheld, Hplan. subst faults.
  lexec. rewrite Hheld. reflexivity.
Qed.

Lemma releaseLock_revoke_fails (lockName : string) (s : EtcdLock.State) entry msg plan :
  EtcdLock.locks s !! lockName = Some entry ->
  EtcdLock.etcd_faults s = None :: Some msg :: plan ->
  EtcdLock.releaseLock lockName s =
    (Some ("释放租约失败: " +:+ msg),
     {| EtcdLock.etcd := (EtcdLock.run_Delete (EtcdLock.key entry) (EtcdLock.etcd s)).2;
        EtcdLock.etcd_faults := plan;
        EtcdLock.locks := EtcdLock.locks s;
        EtcdLock.renewers := (EtcdLock.renewers s ∖ {[EtcdLock.leaseID entry]});
        EtcdLock.calls := EtcdLock.calls s ++ [EtcdLock.Delete (EtcdLock.key entry);
                                               EtcdLock.LeaseRevoke (EtcdLock.leaseID entry)] |}).
Proof.
  intros Hheld Hplan. destruct s as [e faults held renew cs]. cbn in Hheld, Hplan. subst faults.
  lexec. rewrite Hheld. rewrite <- app_assoc. reflexivity.
Qed.

Lemma releaseLock_released (lockName : string) (s : EtcdLock.State) entry :
  EtcdLock.locks s !! lockName = Some entry ->
  ~ fails (EtcdLock.etcd_faults s) 0 ->
  ~ fails (EtcdLock.etcd_faults s) 1 ->
  EtcdLock.releaseLock lockName s =
    (None,
     {| EtcdLock.etcd :=
          (EtcdLock.run_Revoke (EtcdLock.leaseID entry)
             (EtcdLock.run_Delete (EtcdLock.key entry) (EtcdLock.etcd s)).2).2;
        EtcdLock.etcd_faults := drop 2 (EtcdLock.etcd_faults s);
        EtcdLock.locks := delete lockName (EtcdLock.locks s);
        EtcdLock.renewers := (EtcdLock.renewers s ∖ {[EtcdLock.leaseID entry]});
        EtcdLock.calls := EtcdLock.calls s ++ [EtcdLock.Delete (EtcdLock.key entry);
                                               EtcdLock.LeaseRevoke (EtcdLock.leaseID entry)] |}).
Proof.
  intros Hheld H0 H1. destruct s as [e faults held renew cs]. cbn in Hheld, H0, H1.
  destruct faults as [|[m0|] [|[m1|] plan]].
  all: try (exfalso; apply H0; eexists; reflexivity).
  all: try (exfalso; apply H1; eexists; reflexivity).
  all: lexec; rewrite Hheld; cbn; rewrite <- ?app_assoc; reflexivity.
Qed.

Lemma fails_drop (plan : list (option string)) (k n : nat) :
  fails (drop k plan) n <-> fails plan (k + n).
Proof. unfold fails. now rewrite lookup_drop. Qed.

Lemma fails_head (msg : string) (rest : list (option string)) : fails (Some msg :: rest) 0.
Proof. now exists msg. Qed.

Lemma fails_second (first : option string) (msg : string) (rest : list (option string)) :
  fails (first :: Some msg :: rest) 1.
Proof. now exists msg. Qed.



(** X2. After a ReleaseLock of a held lock that returned an error, AcquireLock
    of the same name by the same client answers (false, error "锁 <name>
    已被当前实例持有") without calling etcd and changes nothing, although the
    lease of the lock is no longer renewed. *)
Theorem failed_release_blocks_reacquire (lockName : string) (timeout : Z)
  (s : EtcdLock.State) (entry : EtcdLock.lockEntry) :
  EtcdLock.locks s !! lockName = Some entry ->
  (EtcdLock.ReleaseLock lockName s).1 <> None ->
  let s' := (EtcdLock.ReleaseLock lockName s).2 in
  EtcdLock.AcquireLock lockName timeout s' =
    ((false, Some ("锁 " +:+ lockName +:+ " 已被当前实例持有")), s') /\
  EtcdLock.leaseID entry ∉ EtcdLock.renewers s'.
Proof.
  intros Hheld Hfail. cbv zeta. revert Hfail. unfold EtcdLock.ReleaseLock.
  destruct (fails_cases (EtcdLock.etcd_faults s))
    as [(msg & rest & Hplan) | [(msg & rest & Hplan) | [H0 H1]]].
  - rewrite (releaseLock_delete_fails _ _ _ _ _ Hheld Hplan). intros _. cbn [snd].
    split.
    + apply AcquireLock_held. cbn. rewrite Hheld. eauto.
    + cbn. rewrite elem_of_difference, elem_of_singleton. tauto.
  - rewrite (releaseLock_revoke_fails _ _ _ _ _ Hheld Hplan). intros _. cbn [snd].
    split.
    + apply AcquireLock_held. cbn. rewrite Hheld. eauto.
    + cbn. rewrite elem_of_difference, elem_of_singleton. tauto.
  - rewrite (releaseLock_released _ _ _ Hheld H0 H1). intros Hfail. now destruct Hfail.
Qed.

Lemma failed_release_blocks_reacquire_witness :
  (EtcdLock.ReleaseLock "ticket:producer:lock" lock_held_unreachable).1 =
    Some "删除键失败: context deadline exceeded" /\
  (EtcdLock.AcquireLock "ticket:producer:lock" 30
     (EtcdLock.ReleaseLock "ticket:producer:lock" lock_held_unreachable).2).1 =
    (false, Some "锁 ticket:producer:lock 已被当前实例持有") /\
  EtcdLock.renewers (EtcdLock.ReleaseLock "ticket:producer:lock" lock_held_unreachable).2 = ∅.
Proof.
  assert (EtcdLock.locks lock_held_unreachable !! "ticket:producer:lock" =
          Some {| EtcdLock.leaseID := 8; EtcdLock.key := "/locks/ticket:producer:lock" |})
    as Hheld by (vm_compute; reflexivity).
  assert ((EtcdLock.ReleaseLock "ticket:producer:lock" lock_held_unreachable).1 =
          Some "删除键失败: context deadline exceeded") as Hfail by (vm_compute; reflexivity).
  assert ((EtcdLock.ReleaseLock "ticket:producer:lock" lock_held_unreachable).1 <> None)
    as Hne by (rewrite Hfail; discriminate).
  pose proof (failed_release_blocks_reacquire _ 30 _ _ Hheld Hne) as Hw. cbv zeta in Hw.
  destruct Hw as [Hacq _].
  split; [exact Hfail|]. split; [now rewrite Hacq|].
  vm_compute. reflexivity.
Defined.

Lemma AcquireLock_won_state (lockName : string) (timeout : Z) (s : EtcdLock.State) :
  EtcdLock.locks s !! lockName = None ->
  ~ fails (EtcdLock.etcd_faults s) 0 ->
  ~ fails (EtcdLock.etcd_faults s) 1 ->
  EtcdLock.kv (EtcdLock.etcd s) !! ("/locks/" +:+ lockName) = None ->
  EtcdLock.AcquireLock lockName timeout s =
    ((true, None),
     {| EtcdLock.etcd :=
          {| EtcdLock.kv := <["/locks/" +:+ lockName := EtcdLock.next_lease (EtcdLock.etcd s)]>
                              (EtcdLock.kv (EtcdLock.etcd s));
             EtcdLock.leases := {[EtcdLock.next_lease (EtcdLock.etcd s)]} ∪
                                EtcdLock.leases (EtcdLock.etcd s);
             EtcdLock.next_lease := EtcdLock.next_lease (EtcdLock.etcd s) + 1 |};
        EtcdLock.etcd_faults := drop 2 (EtcdLock.etcd_faults s);
        EtcdLock.locks :=
          <[lockName := {| EtcdLock.leaseID := EtcdLock.next_lease (EtcdLock.etcd s);
                           EtcdLock.key := "/locks/" +:+ lockName |}]> (EtcdLock.locks s);
        EtcdLock.renewers := {[EtcdLock.next_lease (EtcdLock.etcd s)]} ∪ EtcdLock.renewers s;
        EtcdLock.calls :=
          EtcdLock.calls s ++
          [EtcdLock.LeaseGrant EtcdLock.defaultTTL;
           EtcdLock.TxnPutIfAbsent ("/locks/" +:+ lockName)
             (EtcdLock.next_lease (EtcdLock.etcd s))] |}).
Proof.
  intros Hfree H0 H1 Hkey. destruct s as [[kv leases next] faults held renew cs].
  cbn in Hfree, H0, H1, Hkey.
  destruct faults as [|[m0|] [|[m1|] plan]].
  all: try (destruct H0; apply fails_head).
  all: try (destruct H1; apply fails_second).
  all: lexec; rewrite Hfree; cbn; rewrite Hkey; cbn; rewrite <- ?app_assoc; reflexivity.
Qed.

(** X3. When etcd answers every call, the client does not hold the lock, the
    lock's key is absent and no key is attached to the lease id that etcd
    grants next, AcquireLock answers (true, nil), the ReleaseLock that
    follows returns nil, etcd's keys and the client's table are back to
    what they were, and the lock can be acquired again. *)
Theorem AcquireLock_ReleaseLock_round_trip (lockName : string) (timeout : Z)
  (s : EtcdLock.State) :
  EtcdLock.locks s !! lockName = None ->
  EtcdLock.kv (EtcdLock.etcd s) !! ("/locks/" +:+ lockName) = None ->
  (forall k, EtcdLock.kv (EtcdLock.etcd s) !! k <> Some (EtcdLock.next_lease (EtcdLock.etcd s))) ->
  (forall n, ~ fails (EtcdLock.etcd_faults s) n) ->
  let a := EtcdLock.AcquireLock lockName timeout s in
  let r := EtcdLock.ReleaseLock lockName a.2 in
  a.1 = (true, None) /\
  r.1 = None /\
  EtcdLock.kv (EtcdLock.etcd r.2) = EtcdLock.kv (EtcdLock.etcd s) /\
  EtcdLock.locks r.2 = EtcdLock.locks s /\
  (EtcdLock.AcquireLock lockName timeout r.2).1 = (true, None).
Proof.
  intros Hfree Hkey Hfresh Hup. cbv zeta.
  rewrite (AcquireLock_won_state _ _ _ Hfree (Hup 0%nat) (Hup 1%nat) Hkey). cbn [fst snd].
  unfold EtcdLock.ReleaseLock.
  erewrite releaseLock_released; cycle 1.
  - cbn. apply lookup_insert_eq.
  - cbn. rewrite fails_drop. apply Hup.
  - cbn. rewrite fails_drop. apply Hup.
  - cbn [fst snd EtcdLock.etcd EtcdLock.kv EtcdLock.locks EtcdLock.run_Delete
         EtcdLock.run_Revoke EtcdLock.leaseID EtcdLock.key EtcdLock.leases
         EtcdLock.next_lease EtcdLock.etcd_faults].
    assert (filter (fun kl : string * Z => kl.2 <> EtcdLock.next_lease (EtcdLock.etcd s))
              (delete ("/locks/" +:+ lockName)
                 (<["/locks/" +:+ lockName := EtcdLock.next_lease (EtcdLock.etcd s)]>
                    (EtcdLock.kv (EtcdLock.etcd s)))) = EtcdLock.kv (EtcdLock.etcd s)) as Hkv.
    { rewrite delete_insert_eq, delete_id by assumption.
      apply map_filter_id. intros k l Hk. cbn. intros ->. now apply (Hfresh k). }
    assert (delete lockName
              (<[lockName := {| EtcdLock.leaseID := EtcdLock.next_lease (EtcdLock.etcd s);
                                EtcdLock.key := "/locks/" +:+ lockName |}]> (EtcdLock.locks s))
            = EtcdLock.locks s) as Hlocks.
    { rewrite delete_insert_eq. now apply delete_id. }
    rewrite Hkv, Hlocks. repeat split.
    apply AcquireLock_won; cbn; try assumption.
    + rewrite !fails_drop. apply Hup.
    + rewrite !fails_drop. apply Hup.
Qed.

Lemma AcquireLock_ReleaseLock_round_trip_witness :
  let a := EtcdLock.AcquireLock "ticket:producer:lock" 30 lock_free in
  let r := EtcdLock.ReleaseLock "ticket:producer:lock" a.2 in
  a.1 = (true, None) /\ r.1 = None /\
  EtcdLock.kv (EtcdLock.etcd r.2) = ∅ /\
  (EtcdLock.AcquireLock "ticket:producer:lock" 30 r.2).1 = (true, None).
Proof.
  assert (EtcdLock.locks lock_free !! "ticket:producer:lock" = None) as H1
    by (vm_compute; reflexivity).
  assert (EtcdLock.kv (EtcdLock.etcd lock_free) !! "/locks/ticket:producer:lock" = None)
    as H2 by (vm_compute; reflexivity).
  assert (forall k, EtcdLock.kv (EtcdLock.etcd lock_free) !! k <>
                    Some (EtcdLock.next_lease (EtcdLock.etcd lock_free))) as H3.
  { intros k. cbn. rewrite lookup_empty. discriminate. }
  assert (forall n, ~ fails (EtcdLock.etcd_faults lock_free) n) as H4.
  { intros n. apply fails_nil. }
  pose proof (AcquireLock_ReleaseLock_round_trip _ 30 _ H1 H2 H3 H4) as Hw.
  cbv zeta in Hw |- *. destruct Hw as (Ha & Hr & Hkv & _ & Hagain).
  repeat split; assumption.
Defined.

(** ** Spending a ticket again and again

    The answers of [UseTicket] on a sequence of presentations. *)

Section Spending.
Context `{TimeLayout}.

Lemma UseTicket_success (ticket : Ticket) (w : World) :
  (TicketService.UseTicket ticket w).1.1 = true ->
  exists n,
    fast_remaining (redis w) (Version ticket) = Some (n + 1) /\ 0 <= n /\
    fast_remaining (redis (TicketService.UseTicket ticket w).2) (Version ticket) = Some n.
Proof.
  unfold TicketService.UseTicket, TicketService.ValidateTicket, bind.
  pose proof (ValidateTicket_keeps_redis ticket w) as Hkeep. unfold keeps in Hkeep.
  destruct (RedisRepository.ValidateTicket ticket w) as [[valid [e|]] wv]; cbn [fst snd] in *.
  1: discriminate.
  destruct valid; [|discriminate]. cbn [negb].
  pose proof (redis_DecrementTicketUsage_success (Version ticket) wv) as Hdec.
  destruct (RedisRepository.DecrementTicketUsage (Version ticket) wv) as [[n [e|]] wd];
    cbn [fst snd] in *.
  1: discriminate.
  intros _. exists n. rewrite <- Hkeep. now apply Hdec.
Qed.

Lemma declines_Some (n : Z) (after : option Z) :
  0 <= n -> declines (Some n) after -> exists m, after = Some m /\ 0 <= m <= n.
Proof.
  intros Hn [-> | (a & b & [= <-] & -> & Hb)].
  - exists n. split; [reflexivity | lia].
  - exists b. split; [reflexivity | lia].
Qed.

(** X4. Whatever tickets are presented to UseTicket one after the other, and
    whatever calls fail, at most n of the presentations of a given version
    are accepted, where n >= 0 is the number of usages that the fast tier
    holds for that version at the start. *)
Theorem UseTicket_spends_at_most (presented : list Ticket) (w : World)
  (version : string) (n : Z) :
  fast_remaining (redis w) version = Some n ->
  0 <= n ->
  accepted version presented (in_turn TicketService.UseTicket presented w).1 <= n.
Proof.
  revert w n. induction presented as [|ticket rest IH]; intros w n Hn Hpos.
  - cbn. assumption.
  - cbn [in_turn]. unfold bind at 1.
    pose proof (UseTicket_fast_declines ticket w version) as Hdecl.
    pose proof (UseTicket_success ticket w) as Hsucc.
    destruct (TicketService.UseTicket ticket w) as [[used err] w1]. cbn [fst snd] in *.
    unfold bind, ret. specialize (IH w1).
    destruct (in_turn TicketService.UseTicket rest w1) as [answers w2]. cbn [fst snd] in *.
    unfold accepted in *. cbn [combine List.filter fst snd].
    rewrite Hn in Hdecl. destruct (declines_Some _ _ Hpos Hdecl) as (m & Hm & Hle).
    destruct (String.eqb_spec (Version ticket) version) as [<- | Hne]; cbn [andb].
    + destruct used.
      * destruct (Hsucc eq_refl) as (k & Hb & Hk & Ha).
        rewrite Hn in Hb. injection Hb as ->.
        specialize (IH k Ha Hk). cbn [length]. lia.
      * specialize (IH m Hm (proj1 Hle)). lia.
    + specialize (IH m Hm (proj1 Hle)). lia.
Qed.

End Spending.

Lemma UseTicket_spends_at_most_witness :
  fast_remaining (redis (world100 3 3 [] [] [])) "100" = Some 3 /\
  (@in_turn _ _ (@TicketService.UseTicket decimal_layout)
     [ticket100; ticket100; ticket100; ticket100; ticket100] (world100 3 3 [] [] [])).1 =
    [(true, None); (true, None); (true, None);
     (false, Some "减少Redis票据使用次数失败: 票据使用次数已耗尽");
     (false, Some "减少Redis票据使用次数失败: 票据使用次数已耗尽")] /\
  accepted "100" [ticket100; ticket100; ticket100; ticket100; ticket100]
    (@in_turn _ _ (@TicketService.UseTicket decimal_layout)
       [ticket100; ticket100; ticket100; ticket100; ticket100] (world100 3 3 [] [] [])).1 <= 3.
Proof.
  assert (fast_remaining (redis (world100 3 3 [] [] [])) "100" = Some 3) as Hn
    by (vm_compute; reflexivity).
  split; [exact Hn|]. split; [vm_compute; reflexivity|].
  apply (@UseTicket_spends_at_most decimal_layout _ _ _ _ Hn). lia.
Defined.

Lemma next_fault_up (plan : list (option string)) :
  (forall k, ~ fails plan k) ->
  next_fault plan = (None, tail plan) /\ forall k, ~ fails (tail plan) k.
Proof.
  intros Hup. destruct plan as [|[msg|] rest]; cbn.
  - split; [reflexivity | apply fails_nil].
  - destruct (Hup 0%nat). now exists msg.
  - split; [reflexivity|]. intros k Hk. apply (Hup (S k)). exact Hk.
Qed.

Lemma itoa_nonempty (n : Z) : itoa n <> "".
Proof.
  intros Hn. pose proof (atoi_itoa n) as Ha. rewrite Hn in Ha. discriminate.
Qed.

Section Validated.
Context `{TimeLayout}.

Lemma parse_ticket_spendable (version value : string) (h : gmap string string) (n : Z) :
  h !! "value" = Some value ->
  h !! "remainingUsages" = Some (itoa n) ->
  reads_time (RedisRepository.field h "expiresAt") ->
  reads_time (RedisRepository.field h "createdAt") ->
  exists stored, RedisRepository.parse_ticket version h = inl stored /\ Value stored = value.
Proof.
  intros Hv Hn He Hc. unfold RedisRepository.parse_ticket, RedisRepository.field in *.
  rewrite Hv, Hn. cbn [default from_option id].
  destruct (decide (itoa n = "")) as [Hempty|_]; [now destruct (itoa_nonempty n)|].
  unfold Sscanf_d. rewrite atoi_itoa.
  destruct (decide (default "" (h !! "expiresAt") = "")) as [_|Hne].
  - destruct (decide (default "" (h !! "createdAt") = "")) as [_|Hnc].
    + eexists. split; reflexivity.
    + destruct Hc as [Hc | [t Hc]]; [contradiction|]. rewrite Hc.
      eexists. split; reflexivity.
  - destruct He as [He | [t He]]; [contradiction|]. rewrite He.
    destruct (decide (default "" (h !! "createdAt") = "")) as [_|Hnc].
    + eexists. split; reflexivity.
    + destruct Hc as [Hc | [t' Hc]]; [contradiction|]. rewrite Hc.
      eexists. split; reflexivity.
Qed.

Lemma redis_call_up {A} (c : RedisCmd) (run : Redis -> Answer A * Redis) (w : World) :
  (forall k, ~ fails (redis_faults w) k) ->
  redis_call c run w =
    ((run (redis w)).1,
     set_redis (run (redis w)).2 (record (ERedis c) (set_redis_faults (tail (redis_faults w)) w))).
Proof.
  intros Hup. apply redis_call_through. apply next_fault_up, Hup.
Qed.

Lemma ValidateTicket_spendable (ticket : Ticket) (n : Z) (w : World) :
  spendable ticket n w ->
  exists wv,
    RedisRepository.ValidateTicket ticket w = ((true, None), wv) /\
    redis wv = redis w /\ scriptHashes wv = scriptHashes w /\
    redis_faults wv = tail (tail (redis_faults w)).
Proof.
  intros (Hup & _ & Hptr & h & Hrec & Hv & Hn & He & Hc).
  destruct (next_fault_up _ Hup) as [_ Hup1].
  unfold RedisRepository.ValidateTicket, RedisRepository.GetNewestTicketVersion,
    RedisRepository.GetTicket, RedisRepository.Get, RedisRepository.HGetAll, bind.
  rewrite (redis_call_up _ _ _ Hup).
  unfold RedisRepository.run_GET at 1 2. rewrite Hptr. cbn [fst snd]. unfold ret at 1.
  rewrite String.eqb_refl. cbn [negb].
  rewrite redis_call_up by exact Hup1.
  unfold RedisRepository.run_HGETALL. cbn [redis set_redis record set_redis_faults].
  rewrite Hrec. cbn [fst snd].
  destruct (decide (size h = 0%nat)) as [Hsize|_].
  { apply map_size_empty_inv in Hsize. subst h. rewrite lookup_empty in Hv. discriminate. }
  destruct (parse_ticket_spendable (Version ticket) _ _ _ Hv Hn He Hc) as (stored & Hp & Hval).
  unfold ret. rewrite Hp, Hval, String.eqb_refl. cbn [negb].
  eexists. split; [reflexivity|]. cbn. destruct (redis w). auto.
Qed.

End Validated.

Section SpendingExactly.
Context `{TimeLayout}.

Lemma ticket_key_not_pointer_key (version : string) (h : gmap string string) (r : Redis)
  (pointer : string) :
  rkeys r !! RedisRepository.TicketVersionKey = Some (RStr pointer) ->
  rkeys r !! (RedisRepository.TicketKey +:+ version) = Some (RHash h) ->
  RedisRepository.TicketKey +:+ version <> RedisRepository.TicketVersionKey.
Proof. intros Hp Hr Heq. rewrite Heq in Hr. congruence. Qed.

Lemma UseTicket_spendable (ticket : Ticket) (n : Z) (w : World) :
  spendable ticket n w ->
  exists w',
    TicketService.UseTicket ticket w =
      ((if 0 <? n then (true, None)
        else (false, Some "减少Redis票据使用次数失败: 票据使用次数已耗尽")), w') /\
    spendable ticket (if 0 <? n then n - 1 else n) w'.
Proof.
  intros Hs. destruct (ValidateTicket_spendable ticket n w Hs) as (wv & Hval & Hr & Hsh & Hf).
  destruct Hs as (Hup & (sha & Hsha & Hscript) & Hptr & h & Hrec & Hv & Hn & He & Hc).
  assert (forall k, ~ fails (redis_faults wv) k) as Hupv.
  { rewrite Hf. apply next_fault_up, next_fault_up, Hup. }
  destruct (next_fault_up _ Hupv) as [Hnext Hup'].
  unfold TicketService.UseTicket, TicketService.ValidateTicket, bind.
  rewrite Hval. cbn [negb].
  assert (tonumber (itoa n) = Some n) as Hnum by apply atoi_itoa.
  rewrite <- Hr in Hrec, Hptr, Hscript. rewrite <- Hsh in Hsha.
  destruct (Z.ltb_spec 0 n) as [Hpos | Hle].
  - rewrite (DecrementTicketUsage_runs_script _ _ _ _ _ _ Hsha Hnext Hscript
               (lua_decrements _ _ _ _ _ _ Hrec Hn Hnum Hpos)).
    cbn [RedisRepository.parse_script_result Z.eqb negb]. unfold ret.
    eexists. split; [reflexivity|]. unfold spendable.
    cbn [redis_faults scriptHashes redis record set_redis set_redis_faults rkeys rscripts].
    split; [exact Hup'|]. split; [eauto|]. split.
    + rewrite lookup_insert_ne; [exact Hptr|].
      eapply ticket_key_not_pointer_key; eassumption.
    + exists (<["remainingUsages" := itoa (n - 1)]> h). rewrite lookup_insert_eq.
      unfold RedisRepository.field. rewrite lookup_insert_eq, !lookup_insert_ne by discriminate.
      auto.
  - rewrite (DecrementTicketUsage_runs_script _ _ _ _ _ _ Hsha Hnext Hscript
               (lua_exhausted _ _ _ _ _ _ Hrec Hn Hnum Hle)).
    cbn [RedisRepository.parse_script_result Z.eqb negb]. unfold ret.
    eexists. split; [reflexivity|]. unfold spendable.
    cbn [redis_faults scriptHashes redis record set_redis set_redis_faults rkeys rscripts].
    split; [exact Hup'|]. split; [eauto|]. split; [exact Hptr|]. exists h. auto.
Qed.

(** X5. When the fast tier answers every call, knows the script, points at the
    ticket's version and holds its record with the ticket's value and n >=
    0 usages, presenting the ticket k times in a row to UseTicket gives
    (true, nil) for the first min(k, n) presentations and (false,
    "减少Redis票据使用次数失败: 票据使用次数已耗尽") for every later one. *)
Theorem UseTicket_spends_exactly (ticket : Ticket) (n : Z) (k : nat) (w : World) :
  spendable ticket n w ->
  0 <= n ->
  (in_turn TicketService.UseTicket (replicate k ticket) w).1 =
    replicate (Nat.min k (Z.to_nat n)) (true, None) ++
    replicate (k - Z.to_nat n)
      (false, Some "减少Redis票据使用次数失败: 票据使用次数已耗尽").
Proof.
  revert n w. induction k as [|k IH]; intros n w Hs Hn.
  - reflexivity.
  - cbn [replicate in_turn]. unfold bind at 1.
    destruct (UseTicket_spendable ticket n w Hs) as (w' & -> & Hs').
    unfold bind, ret. specialize (IH _ w' Hs').
    destruct (in_turn TicketService.UseTicket (replicate k ticket) w') as [answers w2].
    cbn [fst snd] in *.
    destruct (Z.ltb_spec 0 n) as [Hpos | Hle].
    + rewrite IH by lia.
      replace (Z.to_nat n) with (S (Z.to_nat (n - 1))) by lia.
      cbn [Nat.min Nat.sub replicate app]. reflexivity.
    + rewrite IH by lia.
      replace (Z.to_nat n) with 0%nat by lia.
      rewrite !Nat.min_0_r, !Nat.sub_0_r. reflexivity.
Qed.

End SpendingExactly.

Lemma UseTicket_spends_exactly_witness :
  (@in_turn _ _ (@TicketService.UseTicket decimal_layout) (replicate 4 ticket100)
     (world100 2 3 [] [] [])).1 =
    [(true, None); (true, None);
     (false, Some "减少Redis票据使用次数失败: 票据使用次数已耗尽");
     (false, Some "减少Redis票据使用次数失败: 票据使用次数已耗尽")].
Proof.
  assert (@spendable decimal_layout ticket100 2 (world100 2 3 [] [] [])) as Hs.
  { split; [intros k; apply fails_nil|].
    split; [exists (sha1 DecrementTicketUsageScript); split; vm_compute; reflexivity|].
    split; [vm_compute; reflexivity|].
    exists (hash100 2). split; [vm_compute; reflexivity|].
    split; [vm_compute; reflexivity|]. split; [vm_compute; reflexivity|].
    split; right; eexists; vm_compute; reflexivity. }
  assert (0 <= 2) as Hn by lia.
  exact (@UseTicket_spends_exactly decimal_layout ticket100 2 4 _ Hs Hn).
Defined.

(** ** What a spend checks *)

Lemma GetNewestTicketVersion_reads (w w1 : World) (version : string) :
  RedisRepository.GetNewestTicketVersion w = ((version, None), w1) ->
  redis w1 = redis w /\
  (rkeys (redis w) !! RedisRepository.TicketVersionKey = Some (RStr version) \/
   rkeys (redis w) !! RedisRepository.TicketVersionKey = None /\ version = "").
Proof.
  destruct w as [rd my kf rf mf kff sh cfg clk ent tr].
  unfold RedisRepository.GetNewestTicketVersion, RedisRepository.Get, redis_call, bind, ret.
  cbn. destruct rf as [|[msg|] plan]; cbn; try discriminate.
  all: unfold RedisRepository.run_GET;
       destruct (rkeys rd !! RedisRepository.TicketVersionKey) as [[s|h]|]; cbn;
       try discriminate; intros [= <- <-]; cbn; destruct rd; auto.
Qed.

Section SpenderOnTheState.
Context `{TimeLayout}.

Lemma parse_ticket_value (version : string) (data : gmap string string) (stored : Ticket) :
  RedisRepository.parse_ticket version data = inl stored ->
  Value stored = RedisRepository.field data "value".
Proof.
  unfold RedisRepository.parse_ticket.
  repeat match goal with
         | |- context [match ?x with _ => _ end] => destruct x; try discriminate
         end.
  all: now intros [= <-].
Qed.

Lemma GetTicket_reads (version : string) (w w2 : World) (stored : Ticket) :
  RedisRepository.GetTicket version w = (inl stored, w2) ->
  exists h,
    rkeys (redis w) !! (RedisRepository.TicketKey +:+ version) = Some (RHash h) /\
    RedisRepository.field h "value" = Value stored.
Proof.
  destruct w as [rd my kf rf mf kff sh cfg clk ent tr].
  unfold RedisRepository.GetTicket, RedisRepository.HGetAll, redis_call, bind, ret.
  cbn. destruct rf as [|[msg|] plan]; cbn; try discriminate.
  all: unfold RedisRepository.run_HGETALL;
       destruct (rkeys rd !! (RedisRepository.TicketKey +:+ version)) as [[s|h]|]; cbn;
       try discriminate.
  all: try (destruct (decide (size h = 0%nat)); [discriminate|];
            intros [= Hp _]; exists h; split; [reflexivity|];
            symmetry; exact (parse_ticket_value _ _ _ Hp)).
  all: rewrite map_size_empty; cbn; discriminate.
Qed.

(** C3. [UseTicket] answers [true] exactly when validation succeeds and the
    atomic decrement of the fast tier then succeeds.  Validation succeeds
    exactly when the read of the pointer returns the version presented and
    the read of the record of that version returns a ticket with the value
    presented; each way it can fail gives [false] with its own error (the
    pointer cannot be read, the version is not the newest, the record
    cannot be read, the value differs).  When validation or the decrement
    reports an error [UseTicket] answers [false] with that error wrapped,
    and there is no other answer.  On the state of the fast tier: a
    validation that succeeds found the version presented under the pointer
    and the value presented in the record of that version; and when the
    fast tier answers, points at the version and holds the value with [n]
    usages, validation succeeds and [UseTicket] answers [true] if [n] is
    positive, the exhaustion error otherwise. *)
Theorem UseTicket_true_iff (ticket : Ticket) (w : World) :
  ((forall newest e w1,
      RedisRepository.GetNewestTicketVersion w = ((newest, Some e), w1) ->
      TicketService.ValidateTicket ticket w =
        ((false, Some ("获取最新票据版本失败: " +:+ e)), w1)) /\
   (forall newest w1,
      RedisRepository.GetNewestTicketVersion w = ((newest, None), w1) ->
      Version ticket <> newest ->
      TicketService.ValidateTicket ticket w =
        ((false, Some ("票据版本已过期，当前: " +:+ Version ticket +:+ ", 最新: " +:+ newest)),
         w1)) /\
   (forall w1 e w2,
      RedisRepository.GetNewestTicketVersion w = ((Version ticket, None), w1) ->
      RedisRepository.GetTicket (Version ticket) w1 = (inr e, w2) ->
      TicketService.ValidateTicket ticket w = ((false, Some ("获取票据失败: " +:+ e)), w2)) /\
   (forall w1 stored w2,
      RedisRepository.GetNewestTicketVersion w = ((Version ticket, None), w1) ->
      RedisRepository.GetTicket (Version ticket) w1 = (inl stored, w2) ->
      Value ticket <> Value stored ->
      TicketService.ValidateTicket ticket w = ((false, Some "票据值不匹配"), w2)) /\
   (forall w1 stored w2,
      RedisRepository.GetNewestTicketVersion w = ((Version ticket, None), w1) ->
      RedisRepository.GetTicket (Version ticket) w1 = (inl stored, w2) ->
      Value ticket = Value stored ->
      TicketService.ValidateTicket ticket w = ((true, None), w2))) /\
  ((TicketService.ValidateTicket ticket w).1 = (true, None) <->
   exists w1 stored w2,
     RedisRepository.GetNewestTicketVersion w = ((Version ticket, None), w1) /\
     RedisRepository.GetTicket (Version ticket) w1 = (inl stored, w2) /\
     Value ticket = Value stored) /\
  ((TicketService.UseTicket ticket w).1 = (true, None) <->
   exists w1 stored w2 n,
     RedisRepository.GetNewestTicketVersion w = ((Version ticket, None), w1) /\
     RedisRepository.GetTicket (Version ticket) w1 = (inl stored, w2) /\
     Value ticket = Value stored /\
     RedisRepository.DecrementTicketUsage (Version ticket) w2 =
       ((n, None), (TicketService.UseTicket ticket w).2)) /\
  (forall valid e wv,
     TicketService.ValidateTicket ticket w = ((valid, Some e), wv) ->
     TicketService.UseTicket ticket w = ((false, Some ("票据验证失败: " +:+ e)), wv)) /\
  (forall wv n e wd,
     TicketService.ValidateTicket ticket w = ((true, None), wv) ->
     RedisRepository.DecrementTicketUsage (Version ticket) wv = ((n, Some e), wd) ->
     TicketService.UseTicket ticket w =
       ((false, Some ("减少Redis票据使用次数失败: " +:+ e)), wd)) /\
  ((TicketService.ValidateTicket ticket w).1 = (true, None) \/
   exists e, (TicketService.ValidateTicket ticket w).1 = (false, Some e)) /\
  ((TicketService.UseTicket ticket w).1 = (true, None) \/
   exists e, (TicketService.UseTicket ticket w).1 = (false, Some e)) /\
  ((TicketService.ValidateTicket ticket w).1 = (true, None) ->
   (rkeys (redis w) !! RedisRepository.TicketVersionKey = Some (RStr (Version ticket)) \/
    rkeys (redis w) !! RedisRepository.TicketVersionKey = None /\ Version ticket = "") /\
   exists h,
     rkeys (redis w) !! (RedisRepository.TicketKey +:+ Version ticket) = Some (RHash h) /\
     RedisRepository.field h "value" = Value ticket) /\
  (forall n,
     spendable ticket n w ->
     (TicketService.ValidateTicket ticket w).1 = (true, None) /\
     (TicketService.UseTicket ticket w).1 =
       (if 0 <? n then (true, None)
        else (false, Some "减少Redis票据使用次数失败: 票据使用次数已耗尽"))).
Proof.
  assert (Hcases :
    (forall newest e w1,
      RedisRepository.GetNewestTicketVersion w = ((newest, Some e), w1) ->
      TicketService.ValidateTicket ticket w =
        ((false, Some ("获取最新票据版本失败: " +:+ e)), w1)) /\
    (forall newest w1,
      RedisRepository.GetNewestTicketVersion w = ((newest, None), w1) ->
      Version ticket <> newest ->
      TicketService.ValidateTicket ticket w =
        ((false, Some ("票据版本已过期，当前: " +:+ Version ticket +:+ ", 最新: " +:+ newest)),
         w1)) /\
    (forall w1 e w2,
      RedisRepository.GetNewestTicketVersion w = ((Version ticket, None), w1) ->
      RedisRepository.GetTicket (Version ticket) w1 = (inr e, w2) ->
      TicketService.ValidateTicket ticket w = ((false, Some ("获取票据失败: " +:+ e)), w2)) /\
    (forall w1 stored w2,
      RedisRepository.GetNewestTicketVersion w = ((Version ticket, None), w1) ->
      RedisRepository.GetTicket (Version ticket) w1 = (inl stored, w2) ->
      Value ticket <> Value stored ->
      TicketService.ValidateTicket ticket w = ((false, Some "票据值不匹配"), w2)) /\
    (forall w1 stored w2,
      RedisRepository.GetNewestTicketVersion w = ((Version ticket, None), w1) ->
      RedisRepository.GetTicket (Version ticket) w1 = (inl stored, w2) ->
      Value ticket = Value stored ->
      TicketService.ValidateTicket ticket w = ((true, None), w2))).
  { unfold TicketService.ValidateTicket, RedisRepository.ValidateTicket, bind, ret.
    repeat lazymatch goal with |- _ /\ _ => split end.
    - intros newest e w1 ->. reflexivity.
    - intros newest w1 -> Hne.
      now destruct (String.eqb_spec (Version ticket) newest).
    - intros w1 e w2 -> Hget. rewrite String.eqb_refl. cbn. now rewrite Hget.
    - intros w1 stored w2 -> Hget Hne. rewrite String.eqb_refl. cbn. rewrite Hget.
      now destruct (String.eqb_spec (Value ticket) (Value stored)).
    - intros w1 stored w2 -> Hget Heq. rewrite String.eqb_refl. cbn. rewrite Hget.
      now destruct (String.eqb_spec (Value ticket) (Value stored)). }
  split; [exact Hcases|].
  destruct Hcases as (_ & _ & _ & _ & Hgood).
  pose proof (ValidateTicket_answers ticket w) as Hans.
  pose proof (ValidateTicket_true_iff ticket w) as Hiff.
  split; [exact Hiff|].
  split; [|split; [|split; [|split; [exact Hans|split; [|split]]]]].
  - split.
    + intros Huse.
      unfold TicketService.UseTicket, bind, ret in Huse |- *.
      destruct (TicketService.ValidateTicket ticket w) as [[valid [e|]] wv] eqn:Hval;
        [discriminate|].
      destruct valid; cbn in Huse |- *; [|discriminate].
      destruct (proj1 Hiff eq_refl) as (w1 & stored & w2 & Hp & Hg & Hv).
      pose proof (Hgood w1 stored w2 Hp Hg Hv) as Hval'. injection Hval' as <-.
      destruct (RedisRepository.DecrementTicketUsage (Version ticket) wv)
        as [[n [e|]] wd] eqn:Hdec; [discriminate|].
      exists w1, stored, wv, n. cbn. auto.
    + intros (w1 & stored & w2 & n & Hp & Hg & Hv & Hdec).
      pose proof (Hgood w1 stored w2 Hp Hg Hv) as Hval.
      unfold TicketService.UseTicket, bind, ret in Hdec |- *.
      rewrite Hval in Hdec |- *. cbn in Hdec |- *.
      destruct (RedisRepository.DecrementTicketUsage (Version ticket) w2)
        as [[n' [e|]] wd]; [discriminate | reflexivity].
  - intros valid e wv Hval. unfold TicketService.UseTicket, bind, ret. now rewrite Hval.
  - intros wv n e wd Hval Hdec. unfold TicketService.UseTicket, bind, ret.
    rewrite Hval. cbn. now rewrite Hdec.
  - unfold TicketService.UseTicket, bind, ret.
    destruct (TicketService.ValidateTicket ticket w) as [[valid [e|]] wv]; cbn in *.
    + right. eauto.
    + destruct Hans as [[= ->] | [e [=]]]. cbn.
      destruct (RedisRepository.DecrementTicketUsage (Version ticket) wv) as [[n [e|]] wd];
        cbn; [right; eauto | left; reflexivity].
  - intros Hok. destruct (proj1 Hiff Hok) as (w1 & stored & w2 & Hp & Hg & Hv).
    destruct (GetNewestTicketVersion_reads _ _ _ Hp) as [Hr Hptr].
    split; [exact Hptr|].
    destruct (GetTicket_reads _ _ _ _ Hg) as (h & Hrec & Hval).
    exists h. rewrite <- Hr. split; [exact Hrec | congruence].
  - intros n Hs. split.
    + destruct (ValidateTicket_spendable ticket n w Hs) as (wv & Hval & _).
      unfold TicketService.ValidateTicket. now rewrite Hval.
    + destruct (UseTicket_spendable ticket n w Hs) as (w' & Huse & _). now rewrite Huse.
Qed.

End SpenderOnTheState.

(** ** The tickets of the durable tier *)

Lemma mysql_call_up (c : SqlCall) (w : World) :
  ~ fails (mysql_faults w) 0 ->
  mysql_call c w = (None, record (EMySQL c) (set_mysql_faults (tail (mysql_faults w)) w)).
Proof.
  intros Hup. unfold mysql_call. destruct (mysql_faults w) as [|[msg|] rest]; cbn.
  - reflexivity.
  - destruct Hup. now exists msg.
  - reflexivity.
Qed.

(** X6. When the database takes the next two calls, MySQLRepository.SaveTicket
    returns nil, leaves user_votes, vote_logs and the rows of every other
    version as they were, and GetTicket of the ticket's version then
    returns a ticket with the same version, value and remaining usages; if
    a row of that version existed, its created_at is kept (ON DUPLICATE
    KEY UPDATE does not touch it). *)
Theorem SaveTicket_GetTicket (ticket : Ticket) (w : World) :
  ~ fails (mysql_faults w) 0 ->
  ~ fails (mysql_faults w) 1 ->
  let saved := MySQLRepository.SaveTicket ticket w in
  saved.1 = None /\
  user_votes (mysql saved.2) = user_votes (mysql w) /\
  vote_logs (mysql saved.2) = vote_logs (mysql w) /\
  (forall version, version <> Version ticket ->
     tickets (mysql saved.2) !! version = tickets (mysql w) !! version) /\
  exists stored,
    (MySQLRepository.GetTicket (Version ticket) saved.2).1 = inl stored /\
    Version stored = Version ticket /\
    Value stored = Value ticket /\
    RemainingUsages stored = RemainingUsages ticket /\
    (forall row, tickets (mysql w) !! Version ticket = Some row ->
                 CreatedAt stored = t_created_at row).
Proof.
  intros H0 H1. cbv zeta.
  destruct w as [r [uv vl tk] k rf mf kf sh cfg clk ent tr].
  destruct ticket as [val ver rem exp cre]. cbn in H0, H1.
  destruct mf as [|[e0|] [|[e1|] mf]].
  all: try (destruct H0; now eexists).
  all: try (destruct H1; now eexists).
  all: exec; rewrite ?lookup_insert_eq.
  all: repeat lazymatch goal with |- _ /\ _ => split end; try reflexivity.
  all: try (intros version Hne; now rewrite lookup_insert_ne).
  all: eexists; repeat split; intros row ->; reflexivity.
Qed.

Lemma SaveTicket_GetTicket_witness :
  let saved := MySQLRepository.SaveTicket ticket100_forged (world100 3 3 [] [] []) in
  saved.1 = None /\
  exists stored,
    (MySQLRepository.GetTicket "100" saved.2).1 = inl stored /\
    RemainingUsages stored = 1000000 /\ CreatedAt stored = 100.
Proof.
  assert (~ fails (mysql_faults (world100 3 3 [] [] [])) 0) as H0 by apply fails_nil.
  assert (~ fails (mysql_faults (world100 3 3 [] [] [])) 1) as H1 by apply fails_nil.
  pose proof (SaveTicket_GetTicket ticket100_forged _ H0 H1) as Hw. cbv zeta in Hw |- *.
  destruct Hw as (Hs & _ & _ & _ & stored & Hg & _ & _ & Hrem & Hcre).
  split; [exact Hs|]. exists stored. split; [exact Hg|]. split; [exact Hrem|].
  apply (Hcre (row100 3)). vm_compute. reflexivity.
Defined.

Lemma mysql_DecrementTicketUsage_cases (version : string) (w : World) :
  let r := MySQLRepository.DecrementTicketUsage version w in
  user_votes (mysql r.2) = user_votes (mysql w) /\
  vote_logs (mysql r.2) = vote_logs (mysql w) /\
  (forall n e, r.1 = (n, Some e) -> n = 0 /\ mysql r.2 = mysql w) /\
  (forall n, r.1 = (n, None) ->
     exists row,
       tickets (mysql w) !! version = Some row /\
       t_remaining_usages row = n + 1 /\
       tickets (mysql r.2) =
         <[version := {| t_value := t_value row; t_remaining_usages := n;
                         t_expires_at := t_expires_at row;
                         t_created_at := t_created_at row |}]> (tickets (mysql w))) /\
  (~ fails (mysql_faults w) 0 -> ~ fails (mysql_faults w) 1 ->
   tickets (mysql w) !! version = None -> r.1 = (0, Some "票据不存在")).
Proof.
  cbv zeta. destruct w as [r [uv vl tk] k rf mf kf sh cfg clk ent tr]. exec.
  destruct mf as [|[e1|] [|[e2|] mf]]; exec.
  all: try destruct (tk !! version) as [row|] eqn:Hrow; exec.
  all: try destruct (Z.leb_spec (t_remaining_usages row) 0); exec.
  all: try (destruct mf as [|[e3|] [|[e4|] mf]]; exec).
  all: repeat lazymatch goal with |- _ /\ _ => split end; try reflexivity.
  all: try (intros n e [= <- <-]; split; reflexivity).
  all: try (intros n e [=]; fail).
  all: try (intros n [=]; fail).
  all: try (intros n [= <-]; exists row; repeat split; lia).
  all: try (intros; discriminate).
  all: try (intros; reflexivity).
  all: try (intros H0 H1; first [destruct H0; now eexists | destruct H1; now eexists]).
Qed.

(** X7. MySQLRepository.DecrementTicketUsage never changes user_votes or
    vote_logs. When it returns an error the count it returns is 0 and the
    database is as it was (the transaction is rolled back). When it
    returns (n, nil), the row of the version held n + 1 usages and now
    holds n, its other columns unchanged. When the database takes the
    calls and there is no row for the version, the error is "票据不存在". *)
Theorem mysql_DecrementTicketUsage_one_row (version : string) (w : World) :
  let r := MySQLRepository.DecrementTicketUsage version w in
  user_votes (mysql r.2) = user_votes (mysql w) /\
  vote_logs (mysql r.2) = vote_logs (mysql w) /\
  (forall n e, r.1 = (n, Some e) -> n = 0 /\ mysql r.2 = mysql w) /\
  (forall n, r.1 = (n, None) ->
     exists row,
       tickets (mysql w) !! version = Some row /\
       t_remaining_usages row = n + 1 /\
       tickets (mysql r.2) =
         <[version := {| t_value := t_value row; t_remaining_usages := n;
                         t_expires_at := t_expires_at row;
                         t_created_at := t_created_at row |}]> (tickets (mysql w))) /\
  (~ fails (mysql_faults w) 0 -> ~ fails (mysql_faults w) 1 ->
   tickets (mysql w) !! version = None -> r.1 = (0, Some "票据不存在")).
Proof. exact (mysql_DecrementTicketUsage_cases version w). Qed.

Lemma fails_tail (plan : list (option string)) :
  (forall k, ~ fails plan k) -> forall k, ~ fails (tail plan) k.
Proof. intros Hup. apply next_fault_up, Hup. Qed.

Lemma IncrementVotes_loop_unknown (ticketVersion u : string) (rest known : list string) :
  forall (tx : MySQL) (w : World),
    (forall k, ~ fails (mysql_faults w) k) ->
    Forall (fun x => is_Some (user_votes tx !! x)) known ->
    user_votes tx !! u = None ->
    (MySQLRepository.IncrementVotes_loop (known ++ u :: rest) ticketVersion tx w).1 =
      inr ("用户 " +:+ u +:+ " 不存在").
Proof.
  induction known as [|x known IH]; intros tx w Hup Hknown Hu.
  - cbn [app MySQLRepository.IncrementVotes_loop]. unfold bind at 1.
    rewrite (mysql_call_up _ _ (Hup 0%nat)). unfold bind, Now, Rollback, ret. cbn.
    rewrite Hu. reflexivity.
  - cbn [app MySQLRepository.IncrementVotes_loop]. unfold bind at 1.
    rewrite (mysql_call_up _ _ (Hup 0%nat)). unfold bind at 1. unfold Now at 1.
    cbn [clock record set_mysql_faults].
    inversion Hknown as [|? ? [row Hrow] Hrest]; subst.
    rewrite Hrow. unfold bind at 1.
    rewrite mysql_call_up; cycle 1.
    { cbn. apply (fails_tail _ Hup). }
    apply IH.
    + cbn. apply fails_tail, fails_tail, Hup.
    + cbn. eapply Forall_impl; [exact Hrest|]. intros y [r Hy]. cbn in Hy |- *.
      destruct (decide (x = y)) as [->|Hne].
      * rewrite lookup_insert_eq. eauto.
      * rewrite lookup_insert_ne by assumption. eauto.
    + cbn. rewrite lookup_insert_ne; [assumption|]. intros ->. congruence.
Qed.

(** X8. When the database takes every call and the list of usernames is some
    users that have a row followed by a user u that has none,
    IncrementVotes returns the error "用户 u 不存在" and the database is left
    exactly as it was: the increments and vote logs already made for the
    earlier users are rolled back. *)
Theorem IncrementVotes_unknown_user (usernames known rest : list string)
  (u ticketVersion : string) (w : World) :
  (forall k, ~ fails (mysql_faults w) k) ->
  usernames = known ++ u :: rest ->
  Forall (fun x => is_Some (user_votes (mysql w) !! x)) known ->
  user_votes (mysql w) !! u = None ->
  (MySQLRepository.IncrementVotes usernames ticketVersion w).1 =
    Some ("用户 " +:+ u +:+ " 不存在") /\
  mysql (MySQLRepository.IncrementVotes usernames ticketVersion w).2 = mysql w.
Proof.
  intros Hup -> Hknown Hu.
  assert ((MySQLRepository.IncrementVotes (known ++ u :: rest) ticketVersion w).1 =
          Some ("用户 " +:+ u +:+ " 不存在")) as Hres.
  { unfold MySQLRepository.IncrementVotes. unfold bind at 1.
    rewrite (mysql_call_up _ _ (Hup 0%nat)). unfold bind at 1. unfold bind at 1.
    rewrite mysql_call_up; cycle 1. { cbn. apply (fails_tail _ Hup). }
    unfold bind at 1.
    rewrite mysql_call_up; cycle 1. { cbn. apply (fails_tail _ (fails_tail _ Hup)). }
    unfold bind at 1.
    match goal with
    | |- context [MySQLRepository.IncrementVotes_loop ?l ?v ?tx ?w0] =>
        pose proof (IncrementVotes_loop_unknown v u rest known tx w0) as Hloop
    end.
    cbn [mysql record set_mysql_faults mysql_faults] in *.
    destruct (MySQLRepository.IncrementVotes_loop _ _ _ _) as [res wl]. cbn [fst] in *.
    rewrite Hloop; [reflexivity | | assumption | assumption].
    apply fails_tail, fails_tail, fails_tail, Hup. }
  split; [exact Hres|].
  pose proof (IncrementVotes_spec (known ++ u :: rest) ticketVersion w) as [_ Hspec].
  cbv zeta in Hspec. rewrite Hres in Hspec. exact Hspec.
Qed.

Lemma IncrementVotes_unknown_user_witness :
  (MySQLRepository.IncrementVotes ["A"; "Q"; "D"] "100" (world100 3 3 [] [] [])).1 =
    Some "用户 Q 不存在" /\
  tally (mysql (MySQLRepository.IncrementVotes ["A"; "Q"; "D"] "100"
                  (world100 3 3 [] [] [])).2) "A" = Some 0.
Proof.
  assert (forall k, ~ fails (mysql_faults (world100 3 3 [] [] [])) k) as Hup
    by (intros k; apply fails_nil).
  assert (Forall (fun x => is_Some (user_votes (mysql (world100 3 3 [] [] [])) !! x)) ["A"])
    as Hknown.
  { constructor; [|constructor]. eexists. vm_compute. reflexivity. }
  assert (user_votes (mysql (world100 3 3 [] [] [])) !! "Q" = None) as Hq
    by (vm_compute; reflexivity).
  destruct (IncrementVotes_unknown_user ["A"; "Q"; "D"] ["A"] ["D"] "Q" "100" _
              Hup eq_refl Hknown Hq) as [Hres Hdb].
  split; [exact Hres|]. rewrite Hdb. vm_compute. reflexivity.
Defined.

(** ** The paths of a vote *)

#[local] Instance beside_redis_preorder : PreOrder beside_redis.
Proof.
  split.
  - intros w. repeat split.
  - intros a b c (H1 & H2 & H3 & H4 & H5 & H6 & H7) (G1 & G2 & G3 & G4 & G5 & G6 & G7).
    unfold beside_redis.
    rewrite G1, G2, G3, G4, G5, G6, G7. auto 10.
Qed.

Lemma redis_call_beside_redis {A} (c : RedisCmd) (run : Redis -> Answer A * Redis) :
  preserves beside_redis (redis_call c run).
Proof.
  intros w. unfold redis_call.
  destruct (next_fault (redis_faults w)) as [[msg|] plan]; cbn.
  - repeat split.
  - destruct (run (redis w)) as [a r]. repeat split.
Qed.

Lemma Printf_beside_redis (line : string) : preserves beside_redis (Printf line).
Proof. intros w. repeat split. Qed.

#[local] Hint Resolve redis_call_beside_redis Printf_beside_redis : frame.

Section BesideRedis.
Context `{TimeLayout}.

Lemma redis_DecrementTicketUsage_beside_redis version :
  preserves beside_redis (RedisRepository.DecrementTicketUsage version).
Proof.
  unfold RedisRepository.DecrementTicketUsage.
  apply preserves_read; [typeclasses eauto | intros sha].
  unfold RedisRepository.EvalSha, RedisRepository.ScriptLoad. frame.
  all: intros w; repeat split.
Qed.

Lemma UseTicket_beside_redis ticket :
  preserves beside_redis (TicketService.UseTicket ticket).
Proof.
  pose proof redis_DecrementTicketUsage_beside_redis.
  unfold TicketService.UseTicket, TicketService.ValidateTicket,
    RedisRepository.ValidateTicket, RedisRepository.GetNewestTicketVersion,
    RedisRepository.GetTicket, RedisRepository.Get, RedisRepository.HGetAll.
  frame.
Qed.

Lemma delete_caches_beside_redis before after usernames :
  preserves beside_redis (VoteService.delete_caches before after usernames).
Proof.
  induction usernames as [|username rest IH]; cbn [VoteService.delete_caches];
    unfold RedisRepository.DeleteUserVoteCache, RedisRepository.Del; frame.
Qed.

End BesideRedis.

Lemma IncrementVotes_loop_keeps_kafka (ticketVersion : string) (usernames : list string) :
  forall (tx : MySQL) (w : World),
    kafka (MySQLRepository.IncrementVotes_loop usernames ticketVersion tx w).2 = kafka w.
Proof.
  induction usernames as [|u rest IH]; intros tx w; [reflexivity|].
  cbn [MySQLRepository.IncrementVotes_loop]. unfold bind, mysql_call, Now, Rollback, ret.
  destruct (next_fault (mysql_faults w)) as [[msg|] plan]; cbn; [reflexivity|].
  destruct (user_votes tx !! u) as [row|]; cbn; [|reflexivity].
  destruct (next_fault plan) as [[msg|] plan']; cbn; [reflexivity|].
  rewrite IH. reflexivity.
Qed.

Lemma IncrementVotes_keeps_kafka (usernames : list string) (ticketVersion : string) (w : World) :
  kafka (MySQLRepository.IncrementVotes usernames ticketVersion w).2 = kafka w.
Proof.
  unfold MySQLRepository.IncrementVotes, bind, mysql_call, Rollback, ret.
  destruct (next_fault (mysql_faults w)) as [[msg|] plan]; cbn; [reflexivity|].
  destruct (next_fault plan) as [[msg|] plan1]; cbn; [reflexivity|].
  destruct (next_fault plan1) as [[msg|] plan2]; cbn; [reflexivity|].
  match goal with
  | |- context [MySQLRepository.IncrementVotes_loop ?l ?v ?tx ?w0] =>
      pose proof (IncrementVotes_loop_keeps_kafka v l tx w0) as Hloop;
      destruct (MySQLRepository.IncrementVotes_loop l v tx w0) as [[tx'|err] wl]
  end; cbn [fst snd] in *.
  - destruct (next_fault (mysql_faults wl)) as [[msg|] plan3]; cbn; exact Hloop.
  - exact Hloop.
Qed.

Lemma first_invalid_nonempty (usernames : list string) :
  usernames <> [] -> length usernames <> 0%nat.
Proof. destruct usernames; [congruence | discriminate]. Qed.

Section VotePaths.
Context `{TimeLayout}.

(** What [Vote] does once the usernames are accepted. *)
Lemma Vote_accepted_usernames (request : VoteRequest) (w : World) :
  req_Usernames request <> [] ->
  VoteService.first_invalid (req_Usernames request) = None ->
  VoteService.Vote request w =
    (let failedResponse := {| Success := false; Message := "投票失败";
                              Usernames := req_Usernames request; Timestamp := clock w |} in
     let (r, wu) := TicketService.UseTicket (req_Ticket request) w in
     match r.2 with
     | Some e => ((failedResponse, Some ("使用票据失败: " +:+ e)), wu)
     | None =>
         if negb r.1 then ((failedResponse, Some "票据使用失败"), wu)
         else
           let voteEvent := {| ev_Usernames := req_Usernames request;
                               TicketVersion := Version (req_Ticket request);
                               VotedAt := clock wu |} in
           let (err, ws) := Producer.SendVoteEvent voteEvent wu in
           match err with
           | None =>
               (({| Success := true; Message := "投票成功";
                    Usernames := req_Usernames request; Timestamp := clock ws |}, None), ws)
           | Some e =>
               let wl := record (ELog ("发送投票事件到Kafka失败: " +:+ e)) ws in
               let (err, wi) := MySQLRepository.IncrementVotes (req_Usernames request)
                                  (Version (req_Ticket request)) wl in
               match err with
               | Some e => ((failedResponse, Some ("更新数据库失败: " +:+ e)), wi)
               | None =>
                   let wd := (VoteService.delete_caches "删除用户 " " 缓存失败: "
                                (req_Usernames request) wi).2 in
                   (({| Success := true; Message := "投票成功";
                        Usernames := req_Usernames request; Timestamp := clock wd |}, None), wd)
               end
           end
     end).
Proof.
  intros Hne Hvalid. unfold VoteService.Vote. unfold bind at 1. unfold Now at 1.
  destruct (decide (length (req_Usernames request) = 0%nat)) as [Hlen|_].
  { now destruct (first_invalid_nonempty _ Hne). }
  rewrite Hvalid. cbv zeta. unfold bind at 1.
  destruct (TicketService.UseTicket (req_Ticket request) w) as [[used [e|]] wu]; cbn [fst snd].
  - reflexivity.
  - destruct used; cbn [negb]; [|reflexivity].
    unfold bind at 1. unfold Now at 1. unfold bind at 1.
    destruct (Producer.SendVoteEvent _ wu) as [[e|] ws].
    + unfold bind at 1. unfold Printf at 1. unfold bind at 1.
      destruct (MySQLRepository.IncrementVotes _ _ _) as [[e2|] wi]; [reflexivity|].
      unfold bind at 1.
      destruct (VoteService.delete_caches _ _ _ wi) as [[] wd]. reflexivity.
    + reflexivity.
Qed.

Lemma SendVoteEvent_up (event : VoteEvent) (w : World) :
  ~ fails (kafka_faults w) 0 ->
  Producer.SendVoteEvent event w =
    (None,
     let msg := {| Key := match ev_Usernames event with
                          | username :: _ => username
                          | [] => TicketVersion event
                          end;
                   Val := event; msg_Time := clock w |} in
     set_kafka (kafka w ++ [msg]) (record (EKafka msg) (set_kafka_faults (tail (kafka_faults w)) w))).
Proof.
  intros Hup. unfold Producer.SendVoteEvent, bind, Now.
  destruct (kafka_faults w) as [|[msg|] rest]; cbn.
  - reflexivity.
  - destruct Hup. now exists msg.
  - reflexivity.
Qed.

Lemma Vote_happy (request : VoteRequest) (w wu : World) (first : string)
  (others : list string) :
  req_Usernames request = first :: others ->
  VoteService.first_invalid (req_Usernames request) = None ->
  TicketService.UseTicket (req_Ticket request) w = ((true, None), wu) ->
  ~ fails (kafka_faults w) 0 ->
  let msg := {| Key := first;
                Val := {| ev_Usernames := req_Usernames request;
                          TicketVersion := Version (req_Ticket request);
                          VotedAt := clock w |};
                msg_Time := clock w |} in
  let r := VoteService.Vote request w in
  r.1 = ({| Success := true; Message := "投票成功";
            Usernames := req_Usernames request; Timestamp := clock w |}, None) /\
  kafka r.2 = kafka w ++ [msg] /\
  mysql r.2 = mysql w /\
  redis r.2 = redis wu /\
  trace r.2 = trace wu ++ [EKafka msg].
Proof.
  intros Hnames Hvalid Huse Hup. cbv zeta.
  pose proof (UseTicket_beside_redis (req_Ticket request) w) as Hside.
  rewrite Huse in Hside. cbn [snd] in Hside.
  destruct Hside as (Hmy & Hka & _ & Hkf & _ & Hclk & _).
  rewrite Vote_accepted_usernames; [| rewrite Hnames; discriminate | assumption].
  cbv zeta. rewrite Huse. cbn [fst snd negb].
  rewrite SendVoteEvent_up by (rewrite Hkf; exact Hup).
  cbv zeta. cbn [fst snd clock kafka mysql redis trace set_kafka record set_kafka_faults
    ev_Usernames].
  rewrite Hnames, Hclk, Hka, Hmy. repeat split.
Qed.

(** X10. When the usernames are valid, UseTicket accepts the ticket, the
    publication of the event fails and the fallback IncrementVotes fails
    too, Vote answers the failure response with the error "更新数据库失败: ...",
    leaves the database and the bus as they were, and the usage it took
    from the fast tier is not given back: the fast-tier count of the
    version is one lower than before. *)
Theorem Vote_refused_after_spending (request : VoteRequest) (w wu ws wi : World)
  (e e' : string) :
  req_Usernames request <> [] ->
  VoteService.first_invalid (req_Usernames request) = None ->
  TicketService.UseTicket (req_Ticket request) w = ((true, None), wu) ->
  Producer.SendVoteEvent
    {| ev_Usernames := req_Usernames request;
       TicketVersion := Version (req_Ticket request); VotedAt := clock wu |} wu = (Some e, ws) ->
  MySQLRepository.IncrementVotes (req_Usernames request) (Version (req_Ticket request))
    (record (ELog ("发送投票事件到Kafka失败: " +:+ e)) ws) = (Some e', wi) ->
  let r := VoteService.Vote request w in
  r.1 = ({| Success := false; Message := "投票失败";
            Usernames := req_Usernames request; Timestamp := clock w |},
         Some ("更新数据库失败: " +:+ e')) /\
  mysql r.2 = mysql w /\
  kafka r.2 = kafka w /\
  exists n,
    fast_remaining (redis w) (Version (req_Ticket request)) = Some (n + 1) /\ 0 <= n /\
    fast_remaining (redis r.2) (Version (req_Ticket request)) = Some n.
Proof.
  intros Hne Hvalid Huse Hsend Hinc. cbv zeta.
  pose proof (UseTicket_beside_redis (req_Ticket request) w) as Hside.
  pose proof (UseTicket_success (req_Ticket request) w) as Hsucc.
  rewrite Huse in Hside, Hsucc. cbn [fst snd] in Hside, Hsucc.
  destruct Hside as (Hmy & Hka & _ & Hkf & _ & Hclk & _).
  destruct (Hsucc eq_refl) as (n & Hb & Hn & Ha).
  pose proof (SendVoteEvent_keeps_mysql
                {| ev_Usernames := req_Usernames request;
                   TicketVersion := Version (req_Ticket request); VotedAt := clock wu |} wu) as Hsm.
  pose proof (SendVoteEvent_keeps_redis
                {| ev_Usernames := req_Usernames request;
                   TicketVersion := Version (req_Ticket request); VotedAt := clock wu |} wu) as Hsr.
  assert (kafka ws = kafka wu) as Hsk.
  { revert Hsend. unfold Producer.SendVoteEvent, bind, Now.
    destruct (next_fault (kafka_faults wu)) as [[msg|] plan]; [|discriminate].
    intros [= _ <-]. reflexivity. }
  rewrite Hsend in Hsm, Hsr. unfold keeps in Hsm, Hsr. cbn [snd] in Hsm, Hsr.
  pose proof (IncrementVotes_spec (req_Usernames request) (Version (req_Ticket request))
                (record (ELog ("发送投票事件到Kafka失败: " +:+ e)) ws)) as [Hir Him].
  cbv zeta in Him. rewrite Hinc in Hir, Him. cbn [fst snd redis mysql record] in Hir, Him.
  assert (kafka wi = kafka ws) as Hik.
  { pose proof (IncrementVotes_keeps_kafka (req_Usernames request)
                  (Version (req_Ticket request))
                  (record (ELog ("发送投票事件到Kafka失败: " +:+ e)) ws)) as Hk.
    rewrite Hinc in Hk. exact Hk. }
  rewrite Vote_accepted_usernames; [| assumption | assumption].
  cbv zeta. rewrite Huse. cbn [fst snd negb]. rewrite Hsend, Hinc. cbn [fst snd].
  split; [reflexivity|]. split; [congruence|]. split; [congruence|].
  exists n. rewrite Hir, Hsr. auto.
Qed.

End VotePaths.

Section VoteHappy.
Context `{TimeLayout}.

(** X9. When the usernames are valid, UseTicket accepts the ticket and the
    event bus takes the write, Vote answers success (message "投票成功", the
    usernames, the time) with no error, appends to the bus one message
    keyed by the first username and carrying the usernames, the ticket's
    version and the time, leaves the database untouched, and does nothing
    to the fast tier beyond what UseTicket did. *)
Theorem Vote_publishes (request : VoteRequest) (w wu : World) (first : string)
  (others : list string) :
  req_Usernames request = first :: others ->
  VoteService.first_invalid (req_Usernames request) = None ->
  TicketService.UseTicket (req_Ticket request) w = ((true, None), wu) ->
  ~ fails (kafka_faults w) 0 ->
  let msg := {| Key := first;
                Val := {| ev_Usernames := req_Usernames request;
                          TicketVersion := Version (req_Ticket request);
                          VotedAt := clock w |};
                msg_Time := clock w |} in
  let r := VoteService.Vote request w in
  r.1 = ({| Success := true; Message := "投票成功";
            Usernames := req_Usernames request; Timestamp := clock w |}, None) /\
  kafka r.2 = kafka w ++ [msg] /\
  mysql r.2 = mysql w /\
  redis r.2 = redis wu /\
  trace r.2 = trace wu ++ [EKafka msg].
Proof. exact (Vote_happy request w wu first others). Qed.

End VoteHappy.

Lemma Vote_publishes_witness :
  (@VoteService.Vote decimal_layout request_D (world100 3 3 [] [] [])).1 =
    ({| Success := true; Message := "投票成功"; Usernames := ["D"]; Timestamp := 1000 |}, None) /\
  kafka (@VoteService.Vote decimal_layout request_D (world100 3 3 [] [] [])).2 =
    [{| Key := "D";
        Val := {| ev_Usernames := ["D"]; TicketVersion := "100"; VotedAt := 1000 |};
        msg_Time := 1000 |}] /\
  tally (mysql (@VoteService.Vote decimal_layout request_D (world100 3 3 [] [] [])).2) "D" =
    Some 5.
Proof.
  assert (@TicketService.UseTicket decimal_layout (req_Ticket request_D) (world100 3 3 [] [] []) =
          ((true, None),
           (@TicketService.UseTicket decimal_layout ticket100 (world100 3 3 [] [] [])).2)) as Huse
    by (vm_compute; reflexivity).
  assert (~ fails (kafka_faults (world100 3 3 [] [] [])) 0) as Hup by apply fails_nil.
  pose proof (@Vote_publishes decimal_layout request_D _ _ "D" [] eq_refl eq_refl Huse Hup) as Hw.
  cbv zeta in Hw. destruct Hw as (Hr & Hk & Hm & _).
  split; [exact Hr|]. split; [exact Hk|]. rewrite Hm. vm_compute. reflexivity.
Defined.

Lemma Vote_refused_after_spending_witness :
  (@VoteService.Vote decimal_layout request_D world_bus_and_database_down).1 =
    ({| Success := false; Message := "投票失败"; Usernames := ["D"]; Timestamp := 1000 |},
     Some "更新数据库失败: 开始事务失败: dial tcp: connection refused") /\
  fast_remaining (redis world_bus_and_database_down) "100" = Some 3 /\
  fast_remaining
    (redis (@VoteService.Vote decimal_layout request_D world_bus_and_database_down).2) "100"
    = Some 2 /\
  tally (mysql (@VoteService.Vote decimal_layout request_D world_bus_and_database_down).2) "D"
    = Some 5.
Proof.
  set (w := world_bus_and_database_down).
  set (wu := (@TicketService.UseTicket decimal_layout ticket100 w).2).
  set (event := {| ev_Usernames := ["D"]; TicketVersion := "100"; VotedAt := clock wu |}).
  set (ws := (Producer.SendVoteEvent event wu).2).
  set (wi := (MySQLRepository.IncrementVotes ["D"] "100"
                (record (ELog ("发送投票事件到Kafka失败: " +:+
                               "发送投票事件失败: kafka: broker not available")) ws)).2).
  assert (req_Usernames request_D <> []) as Hne by discriminate.
  assert (@TicketService.UseTicket decimal_layout (req_Ticket request_D) w = ((true, None), wu))
    as Huse by (vm_compute; reflexivity).
  assert (Producer.SendVoteEvent
            {| ev_Usernames := req_Usernames request_D;
               TicketVersion := Version (req_Ticket request_D); VotedAt := clock wu |} wu =
          (Some "发送投票事件失败: kafka: broker not available", ws)) as Hsend
    by (vm_compute; reflexivity).
  assert (MySQLRepository.IncrementVotes (req_Usernames request_D)
            (Version (req_Ticket request_D))
            (record (ELog ("发送投票事件到Kafka失败: " +:+
                           "发送投票事件失败: kafka: broker not available")) ws) =
          (Some "开始事务失败: dial tcp: connection refused", wi)) as Hinc
    by (vm_compute; reflexivity).
  pose proof (@Vote_refused_after_spending decimal_layout request_D w wu ws wi _ _
                Hne eq_refl Huse Hsend Hinc) as Hw.
  cbv zeta in Hw. destruct Hw as (Hr & Hm & _ & n & Hb & _ & Ha).
  assert (fast_remaining (redis w) "100" = Some 3) as H3 by (vm_compute; reflexivity).
  change (Version (req_Ticket request_D)) with "100" in Hb, Ha.
  rewrite H3 in Hb. assert (n = 2) as -> by (injection Hb; lia).
  split; [exact Hr|]. split; [exact H3|]. split; [exact Ha|].
  rewrite Hm. vm_compute. reflexivity.
Defined.

Lemma SendVoteEvent_cases (event : VoteEvent) (w : World) :
  let r := Producer.SendVoteEvent event w in
  match r.1 with
  | Some _ => kafka r.2 = kafka w
  | None => exists msg, kafka r.2 = kafka w ++ [msg] /\ Val msg = event
  end.
Proof.
  cbv zeta. unfold Producer.SendVoteEvent, bind, Now.
  destruct (next_fault (kafka_faults w)) as [[msg|] plan]; cbn; [reflexivity|].
  eexists. split; reflexivity.
Qed.

(** ** Clearing the cache; the consumer's settlement *)

Lemma store_calls_app (a b : list Event) : store_calls (a ++ b) = store_calls a ++ store_calls b.
Proof. unfold store_calls. apply List.filter_app. Qed.

Lemma DeleteUserVoteCache_cases (username : string) (w : World) :
  let r := RedisRepository.DeleteUserVoteCache username w in
  let key := RedisRepository.UserVoteKey +:+ username in
  redis_faults r.2 = tail (redis_faults w) /\
  trace r.2 = trace w ++ [ERedis (DEL key)] /\
  match redis_faults w with
  | Some msg :: _ =>
      r.1 = Some ("删除用户票数缓存失败: " +:+ msg) /\ redis r.2 = redis w
  | _ =>
      r.1 = None /\ rkeys (redis r.2) = delete key (rkeys (redis w))
  end.
Proof.
  cbv zeta. destruct w as [r my k rf mf kf sh cfg clk ent tr].
  unfold RedisRepository.DeleteUserVoteCache, RedisRepository.Del, redis_call, bind, ret.
  destruct rf as [|[msg|] plan]; cbn; auto.
Qed.

Lemma delete_caches_effect (before after : string) (usernames : list string) :
  forall w : World,
    let w' := (VoteService.delete_caches before after usernames w).2 in
    (forall i u, usernames !! i = Some u -> ~ fails (redis_faults w) i ->
                 rkeys (redis w') !! (RedisRepository.UserVoteKey +:+ u) = None) /\
    (forall k, rkeys (redis w) !! k = None -> rkeys (redis w') !! k = None) /\
    (forall k, (forall u, In u usernames -> k <> RedisRepository.UserVoteKey +:+ u) ->
               rkeys (redis w') !! k = rkeys (redis w) !! k) /\
    (forall i u msg, usernames !! i = Some u -> redis_faults w !! i = Some (Some msg) ->
                     In (ELog (before +:+ u +:+ after +:+ "删除用户票数缓存失败: " +:+ msg))
                        (trace w')) /\
    (forall e, In e (trace w) -> In e (trace w')) /\
    store_calls (trace w') =
      store_calls (trace w) ++
      map (fun u => ERedis (DEL (RedisRepository.UserVoteKey +:+ u))) usernames.
Proof.
  induction usernames as [|x rest IH]; intros w; cbv zeta.
  - cbn. repeat split; try tauto.
    + intros i u Hi. now rewrite lookup_nil in Hi.
    + intros i u msg Hi. now rewrite lookup_nil in Hi.
    + now rewrite app_nil_r.
  - pose proof (DeleteUserVoteCache_cases x w) as Hdel. cbv zeta in Hdel.
    destruct (RedisRepository.DeleteUserVoteCache x w) as [err w1] eqn:Hrun.
    cbn [fst snd] in Hdel. destruct Hdel as (Hplan & Htrace & Hcase).
    set (wl := (match err with
                | Some e => Printf (before +:+ x +:+ after +:+ e)
                | None => ret tt
                end w1).2).
    assert ((VoteService.delete_caches before after (x :: rest) w).2 =
            (VoteService.delete_caches before after rest wl).2) as ->.
    { cbn [VoteService.delete_caches]. unfold bind at 1. unfold bind at 1.
      rewrite Hrun. subst wl.
      destruct (match err with
                | Some e => Printf (before +:+ x +:+ after +:+ e)
                | None => ret tt
                end w1); reflexivity. }
    assert (redis wl = redis w1 /\ redis_faults wl = redis_faults w1 /\
            (forall e, In e (trace w1) -> In e (trace wl)) /\
            store_calls (trace wl) = store_calls (trace w1) /\
            (forall e, err = Some e ->
                       In (ELog (before +:+ x +:+ after +:+ e)) (trace wl))) as Hlog.
    { subst wl. destruct err as [e|]; cbn.
      - repeat split; auto.
        + intros e0 He0. apply in_or_app. now left.
        + rewrite store_calls_app. cbn. now rewrite app_nil_r.
        + intros e0 [= <-]. apply in_or_app. right. now left.
      - repeat split; auto. intros e0 [=]. }
    destruct Hlog as (Hlr & Hlf & Hlt & Hls & Hle).
    specialize (IH wl). cbv zeta in IH.
    destruct IH as (IHgone & IHnone & IHother & IHlog & IHtrace & IHcalls).
    rewrite Hlr, Hlf, Hplan in *.
    assert (forall k, rkeys (redis w) !! k = None -> rkeys (redis w1) !! k = None) as Hmono.
    { intros k Hk. destruct (redis_faults w) as [|[msg|] plan]; destruct Hcase as [_ Hc].
      - rewrite Hc. rewrite lookup_delete_None. now right.
      - now rewrite Hc.
      - rewrite Hc. rewrite lookup_delete_None. now right. }
    repeat split.
    + intros [|i] u Hi Hup; cbn in Hi.
      * injection Hi as ->. apply IHnone.
        destruct (redis_faults w) as [|[msg|] plan]; destruct Hcase as [_ Hc].
        -- rewrite Hc. apply lookup_delete_eq.
        -- destruct Hup. now exists msg.
        -- rewrite Hc. apply lookup_delete_eq.
      * apply (IHgone i u Hi). intros Hf. apply Hup.
        destruct (redis_faults w) as [|f plan]; [now destruct (fails_nil i)|exact Hf].
    + intros k Hk. apply IHnone, Hmono, Hk.
    + intros k Hk. rewrite IHother.
      * destruct (redis_faults w) as [|[msg|] plan]; destruct Hcase as [_ Hc].
        -- rewrite Hc. apply lookup_delete_ne. intros Heq. apply (Hk x); [now left | auto].
        -- now rewrite Hc.
        -- rewrite Hc. apply lookup_delete_ne. intros Heq. apply (Hk x); [now left | auto].
      * intros u Hu. apply Hk. now right.
    + intros [|i] u msg Hi Hf; cbn in Hi.
      * injection Hi as ->. apply IHtrace, Hle.
        destruct (redis_faults w) as [|[m|] plan]; cbn in Hf; try discriminate.
        injection Hf as ->. now destruct Hcase as [-> _].
      * apply (IHlog i u msg Hi).
        destruct (redis_faults w) as [|f plan]; [discriminate | exact Hf].
    + intros e He. apply IHtrace, Hlt. rewrite Htrace. apply in_or_app. now left.
    + rewrite IHcalls, Hls, Htrace, store_calls_app. cbn. now rewrite <- app_assoc.
Qed.

(** X12. The loop that clears the cache entries after a settlement (in Vote's
    fallback and in ProcessVoteEvent) sends one DEL per username, in
    order, whatever fails: every username whose DEL goes through has no
    cache entry afterwards, keys that are not the cache key of a listed
    username are untouched, each failed DEL is logged with its error, and
    the database is not touched. *)
Theorem delete_caches_goes_on (before after : string) (usernames : list string) (w : World) :
  let w' := (VoteService.delete_caches before after usernames w).2 in
  (forall i u, usernames !! i = Some u -> ~ fails (redis_faults w) i ->
               rkeys (redis w') !! (RedisRepository.UserVoteKey +:+ u) = None) /\
  (forall k, (forall u, In u usernames -> k <> RedisRepository.UserVoteKey +:+ u) ->
             rkeys (redis w') !! k = rkeys (redis w) !! k) /\
  (forall i u msg, usernames !! i = Some u -> redis_faults w !! i = Some (Some msg) ->
                   In (ELog (before +:+ u +:+ after +:+ "删除用户票数缓存失败: " +:+ msg))
                      (trace w')) /\
  store_calls (trace w') =
    store_calls (trace w) ++
    map (fun u => ERedis (DEL (RedisRepository.UserVoteKey +:+ u))) usernames /\
  mysql w' = mysql w.
Proof.
  cbv zeta.
  destruct (delete_caches_effect before after usernames w)
    as (Hgone & _ & Hother & Hlog & _ & Hcalls).
  pose proof (delete_caches_keeps_mysql before after usernames w) as Hm.
  repeat split; assumption.
Qed.

Lemma SendVoteEvent_effect (event : VoteEvent) (w : World) :
  let r := Producer.SendVoteEvent event w in
  redis r.2 = redis w /\ mysql r.2 = mysql w /\ clock r.2 = clock w /\
  match r.1 with
  | Some _ => kafka r.2 = kafka w
  | None => exists msg, kafka r.2 = kafka w ++ [msg] /\ Val msg = event
  end.
Proof.
  cbv zeta. unfold Producer.SendVoteEvent, bind, Now.
  destruct (next_fault (kafka_faults w)) as [[msg|] plan]; cbn; [auto|].
  repeat split. eexists. split; reflexivity.
Qed.

Section Published.
Context `{TimeLayout}.

Lemma Vote_published (request : VoteRequest) (w : World) :
  kafka (VoteService.Vote request w).2 <> kafka w ->
  exists wu,
    TicketService.UseTicket (req_Ticket request) w = ((true, None), wu) /\
    VoteService.first_invalid (req_Usernames request) = None /\
    (VoteService.Vote request w).1 =
      ({| Success := true; Message := "投票成功";
          Usernames := req_Usernames request; Timestamp := clock w |}, None) /\
    redis (VoteService.Vote request w).2 = redis wu /\
    mysql (VoteService.Vote request w).2 = mysql w /\
    exists msg,
      kafka (VoteService.Vote request w).2 = kafka w ++ [msg] /\
      Val msg = {| ev_Usernames := req_Usernames request;
                   TicketVersion := Version (req_Ticket request);
                   VotedAt := clock w |}.
Proof.
  destruct (req_Usernames request) as [|first others] eqn:Hnames.
  { unfold VoteService.Vote, bind, Now, ret. rewrite Hnames. cbn. intros Hk. now destruct Hk. }
  destruct (VoteService.first_invalid (first :: others)) as [bad|] eqn:Hvalid.
  { unfold VoteService.Vote, bind, Now, ret. rewrite Hnames, Hvalid. cbn.
    intros Hk. now destruct Hk. }
  rewrite Vote_accepted_usernames; [| rewrite Hnames; discriminate | now rewrite Hnames].
  cbv zeta. rewrite Hnames.
  pose proof (UseTicket_beside_redis (req_Ticket request) w) as Hside.
  destruct (TicketService.UseTicket (req_Ticket request) w) as [[used [e|]] wu];
    cbn [fst snd] in *.
  all: destruct Hside as (Hmy & Hka & _ & Hkf & _ & Hclk & _).
  1: intros Hk; now destruct Hk.
  destruct used; cbn [negb]; [|intros Hk; now destruct Hk].
  match goal with
  | |- context [Producer.SendVoteEvent ?ev wu] =>
      pose proof (SendVoteEvent_effect ev wu) as (Hsr & Hsm & Hsc & Hsend);
      destruct (Producer.SendVoteEvent ev wu) as [[e|] ws]
  end; cbn [fst snd] in *.
  - match goal with
    | |- context [MySQLRepository.IncrementVotes ?l ?v ?w0] =>
        pose proof (IncrementVotes_keeps_kafka l v w0) as Hik;
        destruct (MySQLRepository.IncrementVotes l v w0) as [[e2|] wi]
    end; cbn [fst snd kafka record] in *.
    + intros Hk. destruct Hk. congruence.
    + pose proof (delete_caches_beside_redis "删除用户 " " 缓存失败: " (first :: others) wi)
        as (_ & Hdk & _).
      intros Hk. destruct Hk. congruence.
  - intros _. destruct Hsend as (msg & Hk & Hv). exists wu.
    split; [reflexivity|]. split; [reflexivity|]. split; [now rewrite Hsc, Hclk|].
    split; [exact Hsr|]. split; [congruence|].
    exists msg. split; [congruence|]. rewrite Hv. now rewrite Hclk.
Qed.

Lemma delete_caches_keeps_fast_remaining (before after : string) (usernames : list string)
  (w : World) (version : string) :
  fast_remaining (redis (VoteService.delete_caches before after usernames w).2) version =
  fast_remaining (redis w) version.
Proof.
  unfold fast_remaining.
  destruct (delete_caches_effect before after usernames w) as (_ & _ & Hother & _).
  rewrite Hother; [reflexivity|].
  intros u _. apply ticket_key_not_cache_key.
Qed.

Lemma ProcessVoteEvent_stages (event : VoteEvent) (w : World) :
  VoteService.ProcessVoteEvent event w =
    (let (err, wi) :=
       MySQLRepository.IncrementVotes (ev_Usernames event) (TicketVersion event) w in
     match err with
     | Some e => (Some ("处理投票事件更新数据库失败: " +:+ e), wi)
     | None =>
         let (r, wd) := MySQLRepository.DecrementTicketUsage (TicketVersion event) wi in
         match r.2 with
         | Some e => (Some ("处理投票事件减少票据使用次数失败: " +:+ e), wd)
         | None =>
             (None, (VoteService.delete_caches "处理投票事件删除用户 " " 缓存失败: "
                       (ev_Usernames event) wd).2)
         end
     end).
Proof.
  unfold VoteService.ProcessVoteEvent. unfold bind at 1.
  destruct (MySQLRepository.IncrementVotes _ _ w) as [[e|] wi]; [reflexivity|].
  unfold bind at 1.
  destruct (MySQLRepository.DecrementTicketUsage _ wi) as [[n [e|]] wd]; cbn [fst snd];
    [reflexivity|].
  unfold bind, ret.
  destruct (VoteService.delete_caches _ _ _ wd) as [[] wc]. reflexivity.
Qed.

Lemma ProcessVoteEvent_partial (event : VoteEvent) (w wi wd : World)
  (n : Z) (e : string) :
  MySQLRepository.IncrementVotes (ev_Usernames event) (TicketVersion event) w = (None, wi) ->
  MySQLRepository.DecrementTicketUsage (TicketVersion event) wi = ((n, Some e), wd) ->
  let r := VoteService.ProcessVoteEvent event w in
  r.1 = Some ("处理投票事件减少票据使用次数失败: " +:+ e) /\
  (forall u k, tally (mysql w) u = Some k ->
               tally (mysql r.2) u = Some (k + occurrences (ev_Usernames event) u)) /\
  vote_logs (mysql r.2) =
    vote_logs (mysql w) ++ map (log_row (TicketVersion event) (clock w)) (ev_Usernames event) /\
  tickets (mysql r.2) = tickets (mysql w) /\
  redis r.2 = redis w.
Proof.
  intros Hinc Hdec. cbv zeta. rewrite ProcessVoteEvent_stages, Hinc, Hdec. cbn [fst snd].
  pose proof (IncrementVotes_spec (ev_Usernames event) (TicketVersion event) w) as [Hir Him].
  cbv zeta in Him. rewrite Hinc in Hir, Him. cbn [fst snd] in Hir, Him.
  destruct Him as (Htally & Hlogs & Htickets).
  pose proof (mysql_DecrementTicketUsage_cases (TicketVersion event) wi) as Hd.
  cbv zeta in Hd. rewrite Hdec in Hd. cbn [fst snd] in Hd.
  destruct Hd as (_ & _ & Herr & _). destruct (Herr n e eq_refl) as [_ Hsame].
  pose proof (mysql_DecrementTicketUsage_keeps_redis (TicketVersion event) wi) as Hdr.
  rewrite Hdec in Hdr. unfold keeps in Hdr. cbn [snd] in Hdr.
  rewrite Hsame, Hdr. repeat split; try assumption.
  intros u k Hk. rewrite Htally, Hk. reflexivity.
Qed.

(** X13. IncrementVotes and DecrementTicketUsage are two transactions: when
    the first commits and the second fails, ProcessVoteEvent returns the
    error "处理投票事件减少票据使用次数失败: ..." while the votes and the vote logs of the
    event stay written, the tickets table is unchanged, and no cache entry
    is deleted (the fast tier is as it was). *)
Theorem ProcessVoteEvent_partial_settlement (event : VoteEvent) (w wi wd : World)
  (n : Z) (e : string) :
  MySQLRepository.IncrementVotes (ev_Usernames event) (TicketVersion event) w = (None, wi) ->
  MySQLRepository.DecrementTicketUsage (TicketVersion event) wi = ((n, Some e), wd) ->
  let r := VoteService.ProcessVoteEvent event w in
  r.1 = Some ("处理投票事件减少票据使用次数失败: " +:+ e) /\
  (forall u k, tally (mysql w) u = Some k ->
               tally (mysql r.2) u = Some (k + occurrences (ev_Usernames event) u)) /\
  vote_logs (mysql r.2) =
    vote_logs (mysql w) ++ map (log_row (TicketVersion event) (clock w)) (ev_Usernames event) /\
  tickets (mysql r.2) = tickets (mysql w) /\
  redis r.2 = redis w.
Proof. exact (ProcessVoteEvent_partial event w wi wd n e). Qed.

End Published.

Section VoteNever.
Context `{TimeLayout}.

(** X11. Vote writes to the event bus only when the usernames are valid and
    UseTicket has accepted the ticket; it then writes exactly one message,
    carrying the usernames, the ticket's version and the time of the vote,
    and answers success with no error. *)
Theorem Vote_publishes_only_after_spending (request : VoteRequest) (w : World) :
  kafka (VoteService.Vote request w).2 <> kafka w ->
  (TicketService.UseTicket (req_Ticket request) w).1 = (true, None) /\
  VoteService.first_invalid (req_Usernames request) = None /\
  (VoteService.Vote request w).1 =
    ({| Success := true; Message := "投票成功";
        Usernames := req_Usernames request; Timestamp := clock w |}, None) /\
  exists msg,
    kafka (VoteService.Vote request w).2 = kafka w ++ [msg] /\
    Val msg = {| ev_Usernames := req_Usernames request;
                 TicketVersion := Version (req_Ticket request);
                 VotedAt := clock w |}.
Proof.
  intros Hk.
  destruct (Vote_published request w Hk) as (wu & Huse & Hvalid & Hres & _ & _ & Hmsg).
  rewrite Huse. auto.
Qed.

End VoteNever.

Lemma Vote_publishes_only_after_spending_witness :
  kafka (@VoteService.Vote decimal_layout request_D (world100 3 3 [] [] [])).2 <> [] /\
  (@TicketService.UseTicket decimal_layout ticket100 (world100 3 3 [] [] [])).1 = (true, None) /\
  Success (@VoteService.Vote decimal_layout request_D (world100 3 3 [] [] [])).1.1 = true.
Proof.
  assert (kafka (@VoteService.Vote decimal_layout request_D (world100 3 3 [] [] [])).2 <>
          kafka (world100 3 3 [] [] [])) as Hk by (vm_compute; discriminate).
  destruct (@Vote_publishes_only_after_spending decimal_layout request_D _ Hk)
    as (Huse & _ & Hres & _).
  split; [exact Hk|]. split; [exact Huse|]. now rewrite Hres.
Defined.

Section EndToEnd.
Context `{TimeLayout}.

(** X14. If Vote puts a message on the bus and ProcessVoteEvent of that
    message's event returns nil, then every user's durable tally has grown
    by the number of times the user is named in the request, and the
    ticket's count has gone down by exactly one in the fast tier and by
    exactly one in the durable tier. *)
Theorem Vote_then_ProcessVoteEvent (request : VoteRequest) (w : World) (msg : KafkaMessage) :
  kafka (VoteService.Vote request w).2 = kafka w ++ [msg] ->
  let p := VoteService.ProcessVoteEvent (Val msg) (VoteService.Vote request w).2 in
  p.1 = None ->
  (forall u k, tally (mysql w) u = Some k ->
               tally (mysql p.2) u = Some (k + occurrences (req_Usernames request) u)) /\
  exists fast durable,
    fast_remaining (redis w) (Version (req_Ticket request)) = Some (fast + 1) /\
    fast_remaining (redis p.2) (Version (req_Ticket request)) = Some fast /\
    durable_remaining (mysql w) (Version (req_Ticket request)) = Some (durable + 1) /\
    durable_remaining (mysql p.2) (Version (req_Ticket request)) = Some durable.
Proof.
  intros Hk. cbv zeta.
  assert (kafka (VoteService.Vote request w).2 <> kafka w) as Hne.
  { rewrite Hk. intros Heq. apply (f_equal (@length _)) in Heq.
    rewrite length_app in Heq. cbn in Heq. lia. }
  destruct (Vote_published request w Hne)
    as (wu & Huse & Hvalid & Hres & Hr & Hm & msg' & Hk' & Hval).
  rewrite Hk in Hk'. apply app_inj_tail in Hk' as [_ <-].
  pose proof (UseTicket_success (req_Ticket request) w) as Hsucc.
  rewrite Huse in Hsucc. destruct (Hsucc eq_refl) as (fast & Hfb & _ & Hfa).
  rewrite ProcessVoteEvent_stages, Hval. cbn [ev_Usernames TicketVersion].
  set (wv := (VoteService.Vote request w).2) in *.
  pose proof (IncrementVotes_spec (req_Usernames request) (Version (req_Ticket request)) wv)
    as [Hir Him]. cbv zeta in Him.
  destruct (MySQLRepository.IncrementVotes (req_Usernames request)
              (Version (req_Ticket request)) wv) as [[e|] wi]; cbn [fst snd] in *.
  1: discriminate.
  destruct Him as (Htally & _ & Htickets).
  pose proof (mysql_DecrementTicketUsage_spec (Version (req_Ticket request)) wi)
    as (Hdr & Hduv & _ & _ & _ & Hdone). cbv zeta in Hdone.
  destruct (MySQLRepository.DecrementTicketUsage (Version (req_Ticket request)) wi)
    as [[durable [e|]] wd]; cbn [fst snd] in *.
  1: discriminate.
  intros _. destruct (Hdone durable eq_refl) as (Hdb & _ & Hda).
  pose proof (delete_caches_beside_redis "处理投票事件删除用户 " " 缓存失败: "
                (req_Usernames request) wd) as (Hcm & _).
  split.
  - intros u k Hu. specialize (Htally u). unfold tally in *.
    rewrite Hcm, Hduv, Htally, Hm, Hu. reflexivity.
  - exists fast, durable. split; [exact Hfb|]. split.
    + rewrite delete_caches_keeps_fast_remaining, Hdr, Hir, Hr. exact Hfa.
    + unfold durable_remaining in *. rewrite Hcm. rewrite Htickets, Hm in Hdb. auto.
Qed.

End EndToEnd.

Lemma ProcessVoteEvent_partial_settlement_witness :
  (VoteService.ProcessVoteEvent event_D (world100 3 0 [] [] [])).1 =
    Some "处理投票事件减少票据使用次数失败: 票据使用次数已耗尽" /\
  tally (mysql (VoteService.ProcessVoteEvent event_D (world100 3 0 [] [] [])).2) "D" = Some 6 /\
  rkeys (redis (VoteService.ProcessVoteEvent event_D (world100 3 0 [] [] [])).2)
    !! "user:vote:D" = Some (RStr "D:5").
Proof.
  set (w := world100 3 0 [] [] []).
  set (wi := (MySQLRepository.IncrementVotes ["D"] "100" w).2).
  set (wd := (MySQLRepository.DecrementTicketUsage "100" wi).2).
  assert (MySQLRepository.IncrementVotes (ev_Usernames event_D) (TicketVersion event_D) w =
          (None, wi)) as Hinc by (vm_compute; reflexivity).
  assert (MySQLRepository.DecrementTicketUsage (TicketVersion event_D) wi =
          ((0, Some "票据使用次数已耗尽"), wd)) as Hdec by (vm_compute; reflexivity).
  pose proof (ProcessVoteEvent_partial_settlement event_D w wi wd 0 _ Hinc Hdec) as Hw.
  cbv zeta in Hw. destruct Hw as (Hr & Ht & _ & _ & Hredis).
  split; [exact Hr|]. split.
  - apply (Ht "D" 5). vm_compute. reflexivity.
  - rewrite Hredis. vm_compute. reflexivity.
Defined.

Lemma Vote_then_ProcessVoteEvent_witness :
  let voted := (@VoteService.Vote decimal_layout request_D (world100 3 3 [] [] [])).2 in
  let settled := (VoteService.ProcessVoteEvent event_D voted).2 in
  tally (mysql settled) "D" = Some (5 + 1) /\
  fast_remaining (redis settled) "100" = Some 2 /\
  durable_remaining (mysql settled) "100" = Some 2.
Proof.
  set (w := world100 3 3 [] [] []).
  set (msg := {| Key := "D"; Val := event_D; msg_Time := 1000 |}).
  assert (kafka (@VoteService.Vote decimal_layout request_D w).2 = kafka w ++ [msg]) as Hk
    by (vm_compute; reflexivity).
  assert ((VoteService.ProcessVoteEvent (Val msg)
             (@VoteService.Vote decimal_layout request_D w).2).1 = None) as Hp
    by (vm_compute; reflexivity).
  pose proof (@Vote_then_ProcessVoteEvent decimal_layout request_D w msg Hk) as Hw.
  cbv zeta in Hw |- *. destruct (Hw Hp) as (Ht & fast & durable & Hfb & Hfa & Hdb & Hda).
  assert (fast_remaining (redis w) "100" = Some 3) as H3 by (vm_compute; reflexivity).
  assert (durable_remaining (mysql w) "100" = Some 3) as H4 by (vm_compute; reflexivity).
  change (Version (req_Ticket request_D)) with "100" in *.
  rewrite H3 in Hfb. rewrite H4 in Hdb.
  assert (fast = 2) as -> by (injection Hfb; lia).
  assert (durable = 2) as -> by (injection Hdb; lia).
  split; [|split; assumption].
  apply (Ht "D" 5). vm_compute. reflexivity.
Defined.

(** ** The ticket in the fast tier and on the wire *)

Lemma next_fault_up_2 (plan : list (option string)) :
  ~ fails plan 0 -> ~ fails plan 1 ->
  exists plan1 plan2, next_fault plan = (None, plan1) /\ next_fault plan1 = (None, plan2).
Proof.
  intros H0 H1. destruct plan as [|[m0|] [|[m1|] rest]]; cbn; eauto.
  - destruct H0. apply fails_head.
  - destruct H0. apply fails_head.
  - destruct H0. apply fails_head.
  - destruct H1. apply fails_second.
Qed.

Section RoundTrip.
Context `{TimeLayout}.

(** X15. When Redis takes the next two calls, the ticket's key does not hold a
    plain string and the two times of the ticket format to non-empty
    strings that parse back, RedisRepository.CreateTicket returns nil, the
    record expires after 10 seconds, and GetTicket of the version returns
    the ticket with the same value, version and remaining usages and the
    parsed times. *)
Theorem CreateTicket_GetTicket (ticket : Ticket) (w : World) (expiresAt createdAt : Time) :
  ~ fails (redis_faults w) 0 ->
  ~ fails (redis_faults w) 1 ->
  (forall s, rkeys (redis w) !! (RedisRepository.TicketKey +:+ Version ticket) <> Some (RStr s)) ->
  Format (ExpiresAt ticket) <> "" ->
  Parse (Format (ExpiresAt ticket)) = inl expiresAt ->
  Format (CreatedAt ticket) <> "" ->
  Parse (Format (CreatedAt ticket)) = inl createdAt ->
  let created := RedisRepository.CreateTicket ticket w in
  created.1 = None /\
  rttl (redis created.2) !! (RedisRepository.TicketKey +:+ Version ticket) = Some 10 /\
  (RedisRepository.GetTicket (Version ticket) created.2).1 =
    inl {| Value := Value ticket; Version := Version ticket;
           RemainingUsages := RemainingUsages ticket;
           ExpiresAt := expiresAt; CreatedAt := createdAt |}.
Proof.
  intros H0 H1 Hkind Hfe Hpe Hfc Hpc. cbv zeta.
  destruct (next_fault_up_2 _ H0 H1) as (plan & plan' & Hp0 & Hp1).
  unfold RedisRepository.CreateTicket, RedisRepository.HMSetExpire, bind.
  rewrite (redis_call_through _ _ _ _ Hp0).
  set (key := RedisRepository.TicketKey +:+ Version ticket) in *.
  assert (exists h0,
            RedisRepository.run_HMSET_EXPIRE key (RedisRepository.ticket_fields ticket) 10
              (redis w) =
            (Got tt,
             {| rkeys := <[key := RHash (RedisRepository.hmset
                                          (RedisRepository.ticket_fields ticket) h0)]>
                           (rkeys (redis w));
                rttl := <[key := 10]> (rttl (redis w));
                rscripts := rscripts (redis w) |})) as [h0 Hrun].
  { unfold RedisRepository.run_HMSET_EXPIRE.
    destruct (rkeys (redis w) !! key) as [[s|h]|] eqn:Hk.
    - now destruct (Hkind s).
    - now exists h.
    - now exists ∅. }
  rewrite Hrun. cbn [fst snd]. unfold ret. cbn [fst snd].
  split; [reflexivity|]. split.
  { cbn. apply lookup_insert_eq. }
  unfold RedisRepository.GetTicket, RedisRepository.HGetAll, bind. fold key.
  rewrite (redis_call_through _ _ _ plan'); [|exact Hp1].
  unfold RedisRepository.run_HGETALL.
  cbn [redis set_redis record set_redis_faults rkeys fst snd].
  rewrite lookup_insert_eq. cbn [fst snd].
  set (h := RedisRepository.hmset (RedisRepository.ticket_fields ticket) h0).
  assert (h !! "value" = Some (Value ticket) /\
          h !! "remainingUsages" = Some (itoa (RemainingUsages ticket)) /\
          h !! "expiresAt" = Some (Format (ExpiresAt ticket)) /\
          h !! "createdAt" = Some (Format (CreatedAt ticket))) as (Hv & Hr & He & Hc).
  { subst h. unfold RedisRepository.hmset, RedisRepository.ticket_fields.
    repeat split; apply lookup_union_Some_l; cbn;
      rewrite ?lookup_insert_eq, ?lookup_insert_ne by discriminate;
      rewrite ?lookup_insert_eq; reflexivity. }
  destruct (decide (size h = 0%nat)) as [Hsize|_].
  { apply map_size_empty_inv in Hsize. rewrite Hsize, lookup_empty in Hv. discriminate. }
  unfold ret. cbn [fst].
  unfold RedisRepository.parse_ticket, RedisRepository.field.
  rewrite Hv, Hr, He, Hc. cbn [default from_option id].
  destruct (decide (itoa (RemainingUsages ticket) = "")) as [Hempty|_];
    [now destruct (itoa_nonempty (RemainingUsages ticket))|].
  unfold Sscanf_d. rewrite atoi_itoa.
  destruct (decide (Format (ExpiresAt ticket) = "")) as [Hempty|_]; [contradiction|].
  rewrite Hpe.
  destruct (decide (Format (CreatedAt ticket) = "")) as [Hempty|_]; [contradiction|].
  rewrite Hpc. reflexivity.
Qed.

End RoundTrip.

Lemma CreateTicket_GetTicket_witness :
  (@RedisRepository.GetTicket decimal_layout "100"
     (@RedisRepository.CreateTicket decimal_layout ticket100 (world100_evicted 3)).2).1 =
    inl ticket100.
Proof.
  assert (~ fails (redis_faults (world100_evicted 3)) 0) as H0 by apply fails_nil.
  assert (~ fails (redis_faults (world100_evicted 3)) 1) as H1 by apply fails_nil.
  assert (forall s, rkeys (redis (world100_evicted 3)) !!
                      (RedisRepository.TicketKey +:+ Version ticket100) <> Some (RStr s)) as Hk.
  { intros s. vm_compute. discriminate. }
  assert (@Format decimal_layout (ExpiresAt ticket100) <> "") as Hfe by (vm_compute; discriminate).
  assert (@Format decimal_layout (CreatedAt ticket100) <> "") as Hfc by (vm_compute; discriminate).
  assert (@Parse decimal_layout (@Format decimal_layout (ExpiresAt ticket100)) = inl 2100)
    as Hpe by (vm_compute; reflexivity).
  assert (@Parse decimal_layout (@Format decimal_layout (CreatedAt ticket100)) = inl 100)
    as Hpc by (vm_compute; reflexivity).
  pose proof (@CreateTicket_GetTicket decimal_layout ticket100 _ 2100 100
                H0 H1 Hk Hfe Hpe Hfc Hpc) as Hw.
  cbv zeta in Hw. destruct Hw as (_ & _ & Hg). exact Hg.
Defined.

Lemma hex_digit_code (n : N) :
  (n < 16)%N ->
  N_of_ascii (TicketService.hex_digit n) = (if (n <? 10)%N then 48 + n else 87 + n)%N.
Proof.
  intros Hn. unfold TicketService.hex_digit.
  destruct (N.ltb_spec n 10); apply N_ascii_embedding; lia.
Qed.

Lemma hex_digit_inj (a b : N) :
  (a < 16)%N -> (b < 16)%N ->
  TicketService.hex_digit a = TicketService.hex_digit b -> a = b.
Proof.
  intros Ha Hb Heq. apply (f_equal N_of_ascii) in Heq.
  rewrite !hex_digit_code in Heq by assumption.
  destruct (N.ltb_spec a 10), (N.ltb_spec b 10); lia.
Qed.

Lemma EncodeToString_injective (a b : list N) :
  Forall (fun x => (x < 256)%N) a ->
  Forall (fun x => (x < 256)%N) b ->
  String.length (TicketService.EncodeToString a) = (2 * length a)%nat /\
  (TicketService.EncodeToString a = TicketService.EncodeToString b -> a = b).
Proof.
  intros Ha Hb. split.
  - clear. induction a as [|x a IH]; cbn [TicketService.EncodeToString String.length length].
    + reflexivity.
    + rewrite IH. lia.
  - revert b Hb. induction Ha as [|x a Hx Ha IH]; intros b Hb Heq.
    + destruct b; [reflexivity | discriminate].
    + destruct Hb as [|y b Hy Hb]; [discriminate|].
      cbn [TicketService.EncodeToString] in Heq. injection Heq as Hhi Hlo Hrest.
      apply hex_digit_inj in Hhi; [| apply N.Div0.div_lt_upper_bound; lia ..].
      apply hex_digit_inj in Hlo; [| apply N.mod_lt; lia ..].
      f_equal; [|now apply IH].
      rewrite (N.div_mod x 16), (N.div_mod y 16) by lia. now rewrite Hhi, Hlo.
Qed.

Lemma hex_digit_lowercase (n : N) :
  (n < 16)%N -> In (TicketService.hex_digit n) (list_ascii_of_string "0123456789abcdef").
Proof.
  intros Hn.
  assert (exists k : nat, (k < 16)%nat /\ n = N.of_nat k) as (k & Hk & ->).
  { exists (N.to_nat n). split; [lia | now rewrite N2Nat.id]. }
  do 16 (destruct k as [|k]; [vm_compute; tauto|]). lia.
Qed.

Lemma EncodeToString_lowercase (bytes : list N) :
  Forall (fun x => (x < 256)%N) bytes ->
  Forall (fun c => In c (list_ascii_of_string "0123456789abcdef"))
    (list_ascii_of_string (TicketService.EncodeToString bytes)).
Proof.
  induction 1 as [|b rest Hb _ IH]; cbn [TicketService.EncodeToString list_ascii_of_string].
  - constructor.
  - constructor; [|constructor; [|exact IH]]; apply hex_digit_lowercase.
    + apply N.Div0.div_lt_upper_bound. lia.
    + apply N.mod_lt. lia.
Qed.

(** X16. When the random source fills the 16 bytes that generateTicketValue
    asks for, the value returned has 32 characters, each one of
    0123456789abcdef, nothing is logged, and two values are equal only if
    the bytes drawn were equal. *)
Theorem generateTicketValue_injective (w1 w2 : World) (b1 b2 : list N)
  (rest1 rest2 : list (option (list N))) :
  entropy w1 = Some b1 :: rest1 ->
  entropy w2 = Some b2 :: rest2 ->
  length b1 = 16%nat -> Forall (fun x => (x < 256)%N) b1 ->
  length b2 = 16%nat -> Forall (fun x => (x < 256)%N) b2 ->
  let v1 := (TicketService.generateTicketValue w1).1 in
  let v2 := (TicketService.generateTicketValue w2).1 in
  String.length v1 = 32%nat /\
  Forall (fun c => In c (list_ascii_of_string "0123456789abcdef")) (list_ascii_of_string v1) /\
  (v1 = v2 -> b1 = b2) /\
  trace (TicketService.generateTicketValue w1).2 = trace w1.
Proof.
  intros He1 He2 Hl1 Hb1 Hl2 Hb2. cbv zeta.
  assert ((TicketService.generateTicketValue w1) =
          (TicketService.EncodeToString b1, set_entropy rest1 w1)) as E1.
  { unfold TicketService.generateTicketValue, TicketService.rand_Read, bind, ret.
    now rewrite He1. }
  assert ((TicketService.generateTicketValue w2).1 = TicketService.EncodeToString b2) as E2.
  { unfold TicketService.generateTicketValue, TicketService.rand_Read, bind, ret.
    now rewrite He2. }
  rewrite E1, E2. cbn [fst snd].
  destruct (EncodeToString_injective b1 b2 Hb1 Hb2) as [Hlen Hinj].
  split; [now rewrite Hlen, Hl1|].
  split; [now apply EncodeToString_lowercase|].
  split; [exact Hinj | reflexivity].
Qed.

Lemma generateTicketValue_injective_witness :
  let drawn := [192; 255; 238; 0; 1; 2; 3; 4; 5; 6; 7; 8; 9; 10; 11; 12]%N in
  let other := [192; 255; 238; 0; 1; 2; 3; 4; 5; 6; 7; 8; 9; 10; 11; 13]%N in
  let w1 := set_entropy [Some drawn] (world100 3 3 [] [] []) in
  let w2 := set_entropy [Some other] (world100 3 3 [] [] []) in
  (TicketService.generateTicketValue w1).1 = "c0ffee000102030405060708090a0b0c" /\
  (TicketService.generateTicketValue w2).1 = "c0ffee000102030405060708090a0b0d" /\
  String.length (TicketService.generateTicketValue w1).1 = 32%nat /\
  ((TicketService.generateTicketValue w1).1 = (TicketService.generateTicketValue w2).1 ->
   drawn = other).
Proof.
  cbv zeta.
  set (drawn := [192; 255; 238; 0; 1; 2; 3; 4; 5; 6; 7; 8; 9; 10; 11; 12]%N).
  set (other := [192; 255; 238; 0; 1; 2; 3; 4; 5; 6; 7; 8; 9; 10; 11; 13]%N).
  assert (Forall (fun x => (x < 256)%N) drawn) as Ha by (repeat constructor).
  assert (Forall (fun x => (x < 256)%N) other) as Hb by (repeat constructor).
  pose proof (generateTicketValue_injective
                (set_entropy [Some drawn] (world100 3 3 [] [] []))
                (set_entropy [Some other] (world100 3 3 [] [] []))
                drawn other [] [] eq_refl eq_refl eq_refl Ha eq_refl Hb) as Hw.
  cbv zeta in Hw. destruct Hw as (Hlen & _ & Hinj & _).
  split; [vm_compute; reflexivity|]. split; [vm_compute; reflexivity|].
  split; [exact Hlen | exact Hinj].
Defined.

(** The script fails with texts that are not the "script not cached" one. *)
Lemma lua_failure_text (KEYS : list string) (r : Redis) :
  String.eqb (RedisRepository.err_text (RedisRepository.lua_DecrementTicketUsage KEYS r).1)
    NOSCRIPT = false.
Proof.
  unfold RedisRepository.lua_DecrementTicketUsage.
  destruct KEYS as [|k ks]; [reflexivity|].
  destruct (rkeys r !! k) as [[s|h]|]; try reflexivity.
  destruct (from_option tonumber None (h !! "remainingUsages")) as [m|]; [|reflexivity].
  destruct (m <=? 0); reflexivity.
Qed.

(** X17. After preloadScripts has returned nil, the keys of the fast tier are
    as before and the replica holds the script's hash under
    "decrementTicketUsage"; if the next call goes through,
    DecrementTicketUsage sends a single EVALSHA with that hash (no SCRIPT
    LOAD, no retry), leaves the fast tier as the script leaves it, and
    returns the script's parsed answer, or the wrapped error of the
    script. *)
Theorem preloadScripts_then_DecrementTicketUsage (version : string) (w : World) :
  (RedisRepository.preloadScripts w).1 = None ->
  ~ fails (redis_faults (RedisRepository.preloadScripts w).2) 0 ->
  let w1 := (RedisRepository.preloadScripts w).2 in
  let KEYS := [RedisRepository.TicketKey +:+ version; RedisRepository.TicketVersionKey] in
  let run := RedisRepository.lua_DecrementTicketUsage KEYS (redis w1) in
  let after := RedisRepository.DecrementTicketUsage version w1 in
  rkeys (redis w1) = rkeys (redis w) /\
  scriptHashes w1 !! "decrementTicketUsage" = Some (sha1 DecrementTicketUsageScript) /\
  trace after.2 =
    trace w1 ++ [ERedis (EVALSHA (sha1 DecrementTicketUsageScript) KEYS [version])] /\
  redis after.2 = run.2 /\
  match run.1 with
  | Got reply => after.1 = RedisRepository.parse_script_result reply
  | failure =>
      after.1 = (0, Some ("执行票据使用次数脚本失败: " +:+ RedisRepository.err_text failure))
  end.
Proof.
  destruct w as [[rk rt rs] my k rf mf kf sh cfg clk ent tr].
  unfold RedisRepository.preloadScripts.
  destruct rf as [|[msg|] [|[msg'|] plan]]; exec; try discriminate.
  all: intros _ Hup; try (destruct Hup; apply fails_head).
  all: rewrite ?lookup_insert_eq; exec; rewrite ?lookup_insert_eq; exec.
  all: match goal with
       | |- context [RedisRepository.lua_DecrementTicketUsage ?K ?R] =>
           pose proof (lua_failure_text K R) as Htext;
           destruct (RedisRepository.lua_DecrementTicketUsage K R) as [[reply| |msg] r']
       end; exec; cbn [fst snd RedisRepository.err_text] in Htext; rewrite ?Htext; exec; auto.
Qed.

Lemma preloadScripts_then_DecrementTicketUsage_witness :
  (RedisRepository.DecrementTicketUsage "100" world100_connecting).1 = (0, Some "脚本未预加载") /\
  (RedisRepository.preloadScripts world100_connecting).1 = None /\
  (RedisRepository.DecrementTicketUsage "100"
     (RedisRepository.preloadScripts world100_connecting).2).1 = (2, None) /\
  trace (RedisRepository.DecrementTicketUsage "100"
           (RedisRepository.preloadScripts world100_connecting).2).2 =
    [ERedis (SCRIPT_LOAD DecrementTicketUsageScript);
     ERedis (EVALSHA (sha1 DecrementTicketUsageScript)
               ["ticket:100"; "ticket:newest:version"] ["100"])].
Proof.
  assert ((RedisRepository.preloadScripts world100_connecting).1 = None) as Hok
    by (vm_compute; reflexivity).
  assert (~ fails (redis_faults (RedisRepository.preloadScripts world100_connecting).2) 0) as Hup.
  { intros [msg Hm]. vm_compute in Hm. discriminate. }
  pose proof (preloadScripts_then_DecrementTicketUsage "100" _ Hok Hup) as Hw.
  cbv zeta in Hw. destruct Hw as (_ & _ & Htrace & _ & _).
  split; [vm_compute; reflexivity|]. split; [exact Hok|]. split; [vm_compute; reflexivity|].
  rewrite Htrace. vm_compute. reflexivity.
Defined.

Section OverTheWire.
Context `{TimeLayout}.

Lemma Vote_reads_version_and_value (usernames : list string) (t1 t2 : Ticket) (w : World) :
  Version t1 = Version t2 ->
  Value t1 = Value t2 ->
  VoteService.Vote {| req_Usernames := usernames; req_Ticket := t1 |} w =
  VoteService.Vote {| req_Usernames := usernames; req_Ticket := t2 |} w.
Proof.
  intros Hversion Hvalue.
  unfold VoteService.Vote, TicketService.UseTicket, TicketService.ValidateTicket,
    RedisRepository.ValidateTicket. cbn [req_Usernames req_Ticket].
  now rewrite Hversion, Hvalue.
Qed.

Lemma ticket_over_the_wire (usernames : list string) (ticket : Ticket) (w : World)
  (expiresAt createdAt : Time) :
  Parse (Format (ExpiresAt ticket)) = inl expiresAt ->
  Parse (Format (CreatedAt ticket)) = inl createdAt ->
  Resolver.Vote
    {| Resolver.in_Usernames := usernames;
       Resolver.in_Ticket := TicketInput_of (Resolver.TicketResolver ticket) |} w =
  let r := VoteService.Vote {| req_Usernames := usernames; req_Ticket := ticket |} w in
  match r.1.2 with
  | Some e => (({| Success := false; Message := "投票失败"; Usernames := usernames;
                   Timestamp := clock w |}, Some e), r.2)
  | None => ((r.1.1, None), r.2)
  end.
Proof.
  intros Hpe Hpc. unfold Resolver.Vote, bind, Now.
  cbn [Resolver.in_Ticket Resolver.in_Usernames TicketInput_of Resolver.TicketResolver
       Resolver.in_ExpiresAt Resolver.in_CreatedAt Resolver.in_Value Resolver.in_Version
       Resolver.in_RemainingUsages Resolver.f_value Resolver.f_version
       Resolver.f_remainingUsages Resolver.f_expiresAt Resolver.f_createdAt].
  rewrite Hpe, Hpc.
  rewrite (Vote_reads_version_and_value usernames
             {| Value := Value ticket; Version := Version ticket;
                RemainingUsages := int32 (RemainingUsages ticket);
                ExpiresAt := expiresAt; CreatedAt := createdAt |} ticket w eq_refl eq_refl).
  destruct (VoteService.Vote {| req_Usernames := usernames; req_Ticket := ticket |} w)
    as [[response [e|]] w']; reflexivity.
Qed.

(** X18. A ticket whose two times parse back from their formatted form
    survives the GraphQL round trip: the vote mutation called with the
    fields that TicketResolver exposes (value, version, int32 remaining
    usages, formatted times) leaves the same world and returns the same
    error as VoteService.Vote called with the ticket itself; without error
    the responses are equal, with an error the resolver answers the
    generic failure response "投票失败". *)
Theorem ticket_survives_the_wire (usernames : list string) (ticket : Ticket) (w : World)
  (expiresAt createdAt : Time) :
  Parse (Format (ExpiresAt ticket)) = inl expiresAt ->
  Parse (Format (CreatedAt ticket)) = inl createdAt ->
  let Input := {| Resolver.in_Usernames := usernames;
                  Resolver.in_Ticket := TicketInput_of (Resolver.TicketResolver ticket) |} in
  let direct := VoteService.Vote {| req_Usernames := usernames; req_Ticket := ticket |} w in
  let wired := Resolver.Vote Input w in
  wired.2 = direct.2 /\
  wired.1.2 = direct.1.2 /\
  (direct.1.2 = None -> wired.1.1 = direct.1.1) /\
  (direct.1.2 <> None ->
   wired.1.1 = {| Success := false; Message := "投票失败"; Usernames := usernames;
                  Timestamp := clock w |}).
Proof.
  intros Hpe Hpc. cbv zeta.
  rewrite (ticket_over_the_wire usernames ticket w expiresAt createdAt Hpe Hpc). cbv zeta.
  destruct (VoteService.Vote {| req_Usernames := usernames; req_Ticket := ticket |} w)
    as [[response [e|]] w']; cbn [fst snd].
  - repeat split; intros; try reflexivity; congruence.
  - repeat split; intros; try reflexivity; congruence.
Qed.

End OverTheWire.

Lemma ticket_survives_the_wire_witness :
  let Input := {| Resolver.in_Usernames := ["D"];
                  Resolver.in_Ticket :=
                    TicketInput_of (@Resolver.TicketResolver decimal_layout ticket100) |} in
  Resolver.in_ExpiresAt (Resolver.in_Ticket Input) = "2100" /\
  (@Resolver.Vote decimal_layout Input (world100 3 3 [] [] [])).1.2 = None /\
  (@Resolver.Vote decimal_layout Input (world100 3 3 [] [] [])).2 =
  (@VoteService.Vote decimal_layout request_D (world100 3 3 [] [] [])).2.
Proof.
  assert (@Parse decimal_layout (@Format decimal_layout (ExpiresAt ticket100)) = inl 2100)
    as Hpe by (vm_compute; reflexivity).
  assert (@Parse decimal_layout (@Format decimal_layout (CreatedAt ticket100)) = inl 100)
    as Hpc by (vm_compute; reflexivity).
  pose proof (@ticket_survives_the_wire decimal_layout ["D"] ticket100 (world100 3 3 [] [] [])
                2100 100 Hpe Hpc) as Hw.
  cbv zeta in Hw |- *. destruct Hw as (Hworld & Herr & _).
  split; [vm_compute; reflexivity|]. split.
  - rewrite Herr. vm_compute. reflexivity.
  - exact Hworld.
Defined.

(** ** The readers of the consumer *)

Lemma Consumer_index_in_range {A} (s : list A) (i : nat) (a : A) :
  s !! i = Some a -> Consumer.index s (Z.of_nat i) = Some a.
Proof.
  intros Hi. unfold Consumer.index, Consumer.len.
  pose proof (lookup_lt_Some _ _ _ Hi) as Hlt.
  destruct (Z.ltb_spec (Z.of_nat i) 0); [lia|].
  destruct (Z.leb_spec (Z.of_nat (length s)) (Z.of_nat i)); [lia|].
  cbn. now rewrite Nat2Z.id.
Qed.

Lemma Consumer_assign_spec (topic : string) (topicPartitions : list Z) (todo : nat) :
  forall (i : nat) (readers : list Consumer.Reader) (w : World),
    (i + todo <= length topicPartitions)%nat ->
    (Consumer.assign topic topicPartitions todo (Z.of_nat i) readers w).1 =
      Some (readers ++
            map (Consumer.PartitionReader topic) (take todo (drop i topicPartitions))).
Proof.
  induction todo as [|todo IH]; intros i readers w Hle.
  - cbn. now rewrite app_nil_r.
  - cbn [Consumer.assign].
    destruct (lookup_lt_is_Some_2 topicPartitions i ltac:(lia)) as [p Hp].
    assert (Z.rem (Z.of_nat i) (Consumer.len topicPartitions) = Z.of_nat i) as ->.
    { unfold Consumer.len. apply Z.rem_small. lia. }
    rewrite (Consumer_index_in_range _ _ _ Hp).
    unfold bind at 1. unfold Printf at 1.
    replace (Z.of_nat i + 1) with (Z.of_nat (S i)) by lia.
    rewrite IH by lia.
    rewrite (drop_S _ _ _ Hp). cbn [take map]. now rewrite <- app_assoc.
Qed.

(** X19. Given the partitions that the broker lists, NewConsumer creates one
    partition reader for each of the first eight partitions of the topic,
    in the order listed, with numWorkers = min(8, number of partitions); a
    topic with no partition gets the single consumer-group reader and
    numWorkers = 1. Hence a partition of the topic listed after the eighth
    gets no reader. *)
Theorem NewConsumer_readers (topic groupID : string) (partitions : list Consumer.Partition)
  (w : World) :
  let topicPartitions := Consumer.topic_partitions topic partitions in
  (Consumer.NewConsumer topic groupID (inl partitions) w).1 =
    Some (inl (match topicPartitions with
               | [] => {| Consumer.readers := [Consumer.GroupReader topic groupID];
                          Consumer.numWorkers := 1 |}
               | _ => {| Consumer.readers :=
                           map (Consumer.PartitionReader topic) (take 8 topicPartitions);
                         Consumer.numWorkers := Consumer.min 8 (Consumer.len topicPartitions) |}
               end)) /\
  (forall i p,
     NoDup topicPartitions ->
     topicPartitions !! i = Some p ->
     (8 <= i)%nat ->
     forall consumer,
       (Consumer.NewConsumer topic groupID (inl partitions) w).1 = Some (inl consumer) ->
       ~ In (Consumer.PartitionReader topic p) (Consumer.readers consumer)).
Proof.
  cbv zeta.
  assert ((Consumer.NewConsumer topic groupID (inl partitions) w).1 =
          Some (inl (match Consumer.topic_partitions topic partitions with
                     | [] => {| Consumer.readers := [Consumer.GroupReader topic groupID];
                                Consumer.numWorkers := 1 |}
                     | _ => {| Consumer.readers :=
                                 map (Consumer.PartitionReader topic)
                                   (take 8 (Consumer.topic_partitions topic partitions));
                               Consumer.numWorkers :=
                                 Consumer.min 8
                                   (Consumer.len (Consumer.topic_partitions topic partitions)) |}
                     end))) as Hres.
  { unfold Consumer.NewConsumer.
    set (tps := Consumer.topic_partitions topic partitions).
    unfold bind at 1. unfold Printf at 1. cbv zeta.
    unfold bind at 1.
    destruct tps as [|p0 tps'] eqn:Htps.
    - cbn. reflexivity.
    - set (n := Consumer.len (p0 :: tps')).
      assert (0 < n) as Hn by (unfold n, Consumer.len; cbn [length]; lia).
      assert (n = Z.of_nat (length (p0 :: tps'))) as Hlen by reflexivity.
      unfold Consumer.min.
      destruct (Z.ltb_spec 8 n) as [Hbig | Hsmall].
      + rewrite Z.ltb_irrefl. unfold ret at 1.
        destruct (Z.ltb_spec 0 n); [|lia].
        unfold bind at 1.
        pose proof (Consumer_assign_spec topic (p0 :: tps') 8 0 [] 
                      (record (ELog ("检测到Kafka主题 " +:+ topic +:+ " 有 " +:+ itoa n
                                     +:+ " 个分区")) w) ltac:(lia)) as Ha.
        change (Z.of_nat 0) with 0 in Ha. change (Z.to_nat 8) with 8%nat.
        destruct (Consumer.assign topic (p0 :: tps') 8 0 [] _) as [r w1].
        cbn [fst] in Ha. subst r. cbn [app drop].
        unfold Consumer.len. rewrite length_map, length_take.
        destruct (Z.eqb_spec (Z.of_nat (8 `min` length (p0 :: tps'))) 0) as [Hz|_]; [lia|].
        reflexivity.
      + destruct (Z.ltb_spec n 8) as [Hlt | Heq].
        * unfold bind at 1. unfold Printf at 1. unfold ret at 1.
          destruct (Z.ltb_spec 0 n); [|lia].
          unfold bind at 1.
          match goal with
          | |- context [Consumer.assign topic (p0 :: tps') (Z.to_nat n) 0 [] ?w0] =>
              pose proof (Consumer_assign_spec topic (p0 :: tps') (Z.to_nat n) 0 [] w0
                            ltac:(lia)) as Ha;
              change (Z.of_nat 0) with 0 in Ha;
              destruct (Consumer.assign topic (p0 :: tps') (Z.to_nat n) 0 [] w0) as [r w1]
          end.
          cbn [fst] in Ha. subst r. cbn [app drop].
          unfold Consumer.len. rewrite length_map, length_take.
          destruct (Z.eqb_spec (Z.of_nat (Z.to_nat n `min` length (p0 :: tps'))) 0) as [Hz|_];
            [lia|].
          unfold ret. cbn [fst]. do 3 f_equal.
          rewrite !take_ge by lia. reflexivity.
        * assert (n = 8) as Hn8 by lia. unfold ret at 1.
          destruct (Z.ltb_spec 0 n); [|lia].
          unfold bind at 1.
          pose proof (Consumer_assign_spec topic (p0 :: tps') 8 0 []
                        (record (ELog ("检测到Kafka主题 " +:+ topic +:+ " 有 " +:+ itoa n
                                       +:+ " 个分区")) w) ltac:(lia)) as Ha.
          change (Z.of_nat 0) with 0 in Ha. change (Z.to_nat 8) with 8%nat.
          destruct (Consumer.assign topic (p0 :: tps') 8 0 [] _) as [r w1].
          cbn [fst] in Ha. subst r. cbn [app drop].
          unfold Consumer.len. rewrite length_map, length_take.
          destruct (Z.eqb_spec (Z.of_nat (8 `min` length (p0 :: tps'))) 0) as [Hz|_]; [lia|].
          unfold ret. cbn [fst]. rewrite <- Hn8. reflexivity. }
  split; [exact Hres|].
  intros i p Hnodup Hi Hbig consumer Hc. rewrite Hres in Hc. injection Hc as <-.
  destruct (Consumer.topic_partitions topic partitions) as [|p0 tps'] eqn:Htps.
  - now rewrite lookup_nil in Hi.
  - cbn [Consumer.readers]. intros Hin. apply in_map_iff in Hin as (q & [= ->] & Hq).
    apply list_elem_of_In in Hq. apply list_elem_of_lookup in Hq as [j Hj].
    pose proof (lookup_lt_Some _ _ _ Hj) as Hjlt. rewrite length_take in Hjlt.
    rewrite lookup_take_lt in Hj by lia.
    pose proof (NoDup_lookup _ _ _ _ Hnodup Hi Hj). lia.
Qed.

(** ** The ticket producer *)

Ltac pexec :=
  cbv [TicketProducer.refreshTicket TicketProducer.generate_and_release
       TicketProducer.tryAcquireProducerLock TicketProducer.take_signal TicketProducer.signal
       TicketProducer.set_producerLockCh TicketProducer.set_isProducer
       TicketProducer.on_world TicketProducer.on_lock pass_bind pass_ret
       TicketProducer.world TicketProducer.redlock TicketProducer.isProducer
       TicketProducer.producerLockCh TicketProducer.LockTimeout fst snd negb].

Lemma AcquireLock_answers (lockName : string) (timeout : Z) (s : EtcdLock.State) :
  (EtcdLock.AcquireLock lockName timeout s).1 = (true, None) \/
  (EtcdLock.AcquireLock lockName timeout s).1 = (false, None) \/
  exists e, (EtcdLock.AcquireLock lockName timeout s).1 = (false, Some e).
Proof.
  destruct (EtcdLock.locks s !! lockName) as [entry|] eqn:Hheld.
  - right. right. rewrite AcquireLock_held by eauto. eauto.
  - destruct (fails_cases (EtcdLock.etcd_faults s))
      as [(msg & rest & Hplan) | [(msg & rest & Hplan) | [H0 H1]]].
    + right. right. eexists. eapply AcquireLock_grant_fails; eassumption.
    + right. right. eexists. eapply AcquireLock_txn_fails; eassumption.
    + destruct (EtcdLock.kv (EtcdLock.etcd s) !! ("/locks/" +:+ lockName)) as [other|] eqn:Hkey.
      * right. left. eapply AcquireLock_taken; eassumption.
      * left. eapply AcquireLock_won; eassumption.
Qed.

Section ProducerTasks.
Context `{TimeLayout}.

(** X20. When no signal waits on producerLockCh and AcquireLock does not
    answer (true, nil), refreshTicket mints nothing: the fast tier, the
    durable tier and the list of store calls are as before, and the lock
    client is left as AcquireLock left it (no release is attempted). *)
Theorem refreshTicket_needs_the_lock (s : TicketProducer.Service) :
  TicketProducer.producerLockCh s = false ->
  (EtcdLock.AcquireLock TicketProducer.TicketProducerLockName (TicketProducer.LockTimeout s)
     (TicketProducer.redlock s)).1 <> (true, None) ->
  let s' := (TicketProducer.refreshTicket s).2 in
  redis (TicketProducer.world s') = redis (TicketProducer.world s) /\
  mysql (TicketProducer.world s') = mysql (TicketProducer.world s) /\
  store_calls (trace (TicketProducer.world s')) = store_calls (trace (TicketProducer.world s)) /\
  TicketProducer.producerLockCh s' = false /\
  TicketProducer.redlock s' =
    (EtcdLock.AcquireLock TicketProducer.TicketProducerLockName (TicketProducer.LockTimeout s)
       (TicketProducer.redlock s)).2.
Proof.
  intros Hsignal Hlost. cbv zeta. destruct s as [w l producer ch timeout].
  cbn [TicketProducer.producerLockCh TicketProducer.LockTimeout TicketProducer.redlock
       TicketProducer.world] in *. subst ch.
  pose proof (AcquireLock_answers TicketProducer.TicketProducerLockName timeout l) as Hans.
  pexec.
  destruct (EtcdLock.AcquireLock TicketProducer.TicketProducerLockName timeout l)
    as [[acquired err] l']. cbn [fst snd] in *.
  destruct Hans as [Hwon | [Hno | [e Herr]]].
  - contradiction.
  - injection Hno as -> ->. cbn. rewrite store_calls_app. cbn. rewrite app_nil_r. auto.
  - injection Herr as -> ->. cbn. rewrite store_calls_app. cbn. rewrite app_nil_r. auto.
Qed.

(** X21. When no signal waits, etcd answers every call and the producer lock
    is free, refreshTicket acquires the lock, runs generateTicket on the
    stores and releases the lock: the calls to etcd are LeaseGrant, the
    put-if-absent transaction, Delete and LeaseRevoke, in that order, and
    etcd's keys and the client's table end as they started. *)
Theorem refreshTicket_mints_under_the_lock (s : TicketProducer.Service) :
  TicketProducer.producerLockCh s = false ->
  EtcdLock.locks (TicketProducer.redlock s) !! TicketProducer.TicketProducerLockName = None ->
  EtcdLock.kv (EtcdLock.etcd (TicketProducer.redlock s))
    !! ("/locks/" +:+ TicketProducer.TicketProducerLockName) = None ->
  (forall k, EtcdLock.kv (EtcdLock.etcd (TicketProducer.redlock s)) !! k <>
             Some (EtcdLock.next_lease (EtcdLock.etcd (TicketProducer.redlock s)))) ->
  (forall n, ~ fails (EtcdLock.etcd_faults (TicketProducer.redlock s)) n) ->
  let s' := (TicketProducer.refreshTicket s).2 in
  let lease := EtcdLock.next_lease (EtcdLock.etcd (TicketProducer.redlock s)) in
  let key := "/locks/" +:+ TicketProducer.TicketProducerLockName in
  TicketProducer.world s' = (TicketService.generateTicket (TicketProducer.world s)).2 /\
  EtcdLock.locks (TicketProducer.redlock s') = EtcdLock.locks (TicketProducer.redlock s) /\
  EtcdLock.kv (EtcdLock.etcd (TicketProducer.redlock s')) =
    EtcdLock.kv (EtcdLock.etcd (TicketProducer.redlock s)) /\
  EtcdLock.calls (TicketProducer.redlock s') =
    EtcdLock.calls (TicketProducer.redlock s) ++
    [EtcdLock.LeaseGrant EtcdLock.defaultTTL; EtcdLock.TxnPutIfAbsent key lease;
     EtcdLock.Delete key; EtcdLock.LeaseRevoke lease].
Proof.
  intros Hsignal Hfree Hkey Hfresh Hup. cbv zeta. destruct s as [w l producer ch timeout].
  cbn [TicketProducer.producerLockCh TicketProducer.LockTimeout TicketProducer.redlock
       TicketProducer.world] in *. subst ch.
  pexec.
  rewrite (AcquireLock_won_state _ timeout _ Hfree (Hup 0%nat) (Hup 1%nat) Hkey).
  cbn [fst snd negb].
  destruct (TicketService.generateTicket w) as [[] w']. cbn [fst snd].
  unfold EtcdLock.ReleaseLock.
  erewrite releaseLock_released; cycle 1.
  - cbn. apply lookup_insert_eq.
  - cbn. rewrite fails_drop. apply Hup.
  - cbn. rewrite fails_drop. apply Hup.
  - cbn [fst snd EtcdLock.etcd EtcdLock.kv EtcdLock.locks EtcdLock.run_Delete
         EtcdLock.run_Revoke EtcdLock.leaseID EtcdLock.key EtcdLock.leases
         EtcdLock.next_lease EtcdLock.etcd_faults EtcdLock.calls].
    split; [reflexivity|]. split; [|split].
    + rewrite delete_insert_eq. now apply delete_id.
    + rewrite delete_insert_eq, delete_id by assumption.
      apply map_filter_id. intros k x Hk. cbn. intros ->. now apply (Hfresh k).
    + rewrite <- app_assoc. reflexivity.
Qed.

End ProducerTasks.

Lemma in_sequence_cons {S} (task : pass S unit) (rest : list (pass S unit)) (s : S) :
  (in_sequence (task :: rest) s).2 = (in_sequence rest (task s).2).2.
Proof. cbn [in_sequence]. unfold pass_bind. now destruct (task s). Qed.

Section ProducerRounds.
Context `{TimeLayout}.

(** X22. When etcd answers every call and the producer lock is free,
    tryAcquireProducerLock takes the lock, sets isProducer, leaves a
    signal on producerLockCh and leaves the stores untouched; the
    refreshTicket that follows consumes the signal, does not acquire
    again, mints with generateTicket and releases the lock taken by
    tryAcquireProducerLock, so that etcd saw one acquisition and one
    release. *)
Theorem tryAcquireProducerLock_then_refreshTicket (s : TicketProducer.Service) :
  EtcdLock.locks (TicketProducer.redlock s) !! TicketProducer.TicketProducerLockName = None ->
  EtcdLock.kv (EtcdLock.etcd (TicketProducer.redlock s))
    !! ("/locks/" +:+ TicketProducer.TicketProducerLockName) = None ->
  (forall k, EtcdLock.kv (EtcdLock.etcd (TicketProducer.redlock s)) !! k <>
             Some (EtcdLock.next_lease (EtcdLock.etcd (TicketProducer.redlock s)))) ->
  (forall n, ~ fails (EtcdLock.etcd_faults (TicketProducer.redlock s)) n) ->
  let s1 := (TicketProducer.tryAcquireProducerLock s).2 in
  let s2 := (TicketProducer.refreshTicket s1).2 in
  let lease := EtcdLock.next_lease (EtcdLock.etcd (TicketProducer.redlock s)) in
  let key := "/locks/" +:+ TicketProducer.TicketProducerLockName in
  (TicketProducer.producerLockCh s1 = true /\
   TicketProducer.isProducer s1 = true /\
   holds (TicketProducer.redlock s1) TicketProducer.TicketProducerLockName /\
   TicketProducer.world s1 = TicketProducer.world s) /\
  TicketProducer.world s2 = (TicketService.generateTicket (TicketProducer.world s)).2 /\
  TicketProducer.producerLockCh s2 = false /\
  EtcdLock.locks (TicketProducer.redlock s2) = EtcdLock.locks (TicketProducer.redlock s) /\
  EtcdLock.kv (EtcdLock.etcd (TicketProducer.redlock s2)) =
    EtcdLock.kv (EtcdLock.etcd (TicketProducer.redlock s)) /\
  EtcdLock.calls (TicketProducer.redlock s2) =
    EtcdLock.calls (TicketProducer.redlock s) ++
    [EtcdLock.LeaseGrant EtcdLock.defaultTTL; EtcdLock.TxnPutIfAbsent key lease;
     EtcdLock.Delete key; EtcdLock.LeaseRevoke lease].
Proof.
  intros Hfree Hkey Hfresh Hup. cbv zeta. destruct s as [w l producer ch timeout].
  cbn [TicketProducer.producerLockCh TicketProducer.LockTimeout TicketProducer.redlock
       TicketProducer.world] in *.
  pexec.
  rewrite (AcquireLock_won_state _ timeout _ Hfree (Hup 0%nat) (Hup 1%nat) Hkey).
  cbn [fst snd negb].
  split.
  { repeat split. eexists. split; cbn; apply lookup_insert_eq. }
  destruct (TicketService.generateTicket w) as [[] w']. cbn [fst snd].
  unfold EtcdLock.ReleaseLock.
  erewrite releaseLock_released; cycle 1.
  - cbn. apply lookup_insert_eq.
  - cbn. rewrite fails_drop. apply Hup.
  - cbn. rewrite fails_drop. apply Hup.
  - cbn [fst snd EtcdLock.etcd EtcdLock.kv EtcdLock.locks EtcdLock.run_Delete
         EtcdLock.run_Revoke EtcdLock.leaseID EtcdLock.key EtcdLock.leases
         EtcdLock.next_lease EtcdLock.etcd_faults EtcdLock.calls].
    split; [reflexivity|]. split; [reflexivity|]. split; [|split].
    + rewrite delete_insert_eq. now apply delete_id.
    + rewrite delete_insert_eq, delete_id by assumption.
      apply map_filter_id. intros k x Hk. cbn. intros ->. now apply (Hfresh k).
    + rewrite <- app_assoc. reflexivity.
Qed.

Lemma stuck_step (s : TicketProducer.Service) (entry : EtcdLock.lockEntry)
  (task : TicketProducer.P unit) :
  TicketProducer.producerLockCh s = false ->
  EtcdLock.locks (TicketProducer.redlock s) !! TicketProducer.TicketProducerLockName
    = Some entry ->
  task = TicketProducer.refreshTicket \/ task = TicketProducer.tryAcquireProducerLock ->
  let s' := (task s).2 in
  redis (TicketProducer.world s') = redis (TicketProducer.world s) /\
  mysql (TicketProducer.world s') = mysql (TicketProducer.world s) /\
  store_calls (trace (TicketProducer.world s')) = store_calls (trace (TicketProducer.world s)) /\
  TicketProducer.redlock s' = TicketProducer.redlock s /\
  TicketProducer.producerLockCh s' = false.
Proof.
  intros Hsignal Hheld Htask. cbv zeta. destruct s as [w l producer ch timeout].
  cbn [TicketProducer.producerLockCh TicketProducer.LockTimeout TicketProducer.redlock
       TicketProducer.world] in *. subst ch.
  destruct Htask as [-> | ->]; pexec.
  all: rewrite AcquireLock_held by eauto; cbn.
  all: rewrite store_calls_app; cbn; rewrite app_nil_r; auto.
Qed.

(** X23. As long as the lock client's table holds an entry for the producer
    lock and no signal waits (the state a failed ReleaseLock leaves), any
    sequence of refreshTicket and tryAcquireProducerLock runs mints no
    ticket: both tiers, the list of store calls, the lock client and the
    empty channel stay exactly as they were. *)
Theorem producer_stuck_after_failed_release (s : TicketProducer.Service)
  (entry : EtcdLock.lockEntry) (tasks : list (TicketProducer.P unit)) :
  TicketProducer.producerLockCh s = false ->
  EtcdLock.locks (TicketProducer.redlock s) !! TicketProducer.TicketProducerLockName
    = Some entry ->
  Forall (fun task => task = TicketProducer.refreshTicket \/
                      task = TicketProducer.tryAcquireProducerLock) tasks ->
  let s' := (in_sequence tasks s).2 in
  redis (TicketProducer.world s') = redis (TicketProducer.world s) /\
  mysql (TicketProducer.world s') = mysql (TicketProducer.world s) /\
  store_calls (trace (TicketProducer.world s')) = store_calls (trace (TicketProducer.world s)) /\
  TicketProducer.redlock s' = TicketProducer.redlock s /\
  TicketProducer.producerLockCh s' = false.
Proof.
  unfold TicketProducer.P in *. intros Hsignal Hheld Htasks. cbv zeta. revert s Hsignal Hheld.
  induction Htasks as [|task rest Htask Hrest IH]; intros s Hsignal Hheld.
  - cbn. auto.
  - rewrite in_sequence_cons.
    pose proof (stuck_step s entry task Hsignal Hheld Htask) as Hstep. cbv zeta in Hstep.
    set (s1 := (task s).2) in *.
    destruct Hstep as (Hr & Hm & Hc & Hl & Hs).
    rewrite <- Hl in Hheld.
    destruct (IH s1 Hs Hheld) as (Hr' & Hm' & Hc' & Hl' & Hs').
    repeat split; congruence.
Qed.

End ProducerRounds.

Lemma refreshTicket_needs_the_lock_witness :
  let s := service_at_rest (world100 3 3 [] [] []) lock_taken in
  let s' := (@TicketProducer.refreshTicket decimal_layout s).2 in
  mysql (TicketProducer.world s') = mysql100 3 /\
  redis (TicketProducer.world s') = redis100 3 /\
  trace (TicketProducer.world s') = [ELog "未能获取票据生成器锁，跳过当前刷新"].
Proof.
  cbv zeta.
  assert (TicketProducer.producerLockCh (service_at_rest (world100 3 3 [] [] []) lock_taken)
          = false) as Hsignal by reflexivity.
  assert ((EtcdLock.AcquireLock TicketProducer.TicketProducerLockName
             (TicketProducer.LockTimeout (service_at_rest (world100 3 3 [] [] []) lock_taken))
             (TicketProducer.redlock (service_at_rest (world100 3 3 [] [] []) lock_taken))).1
          <> (true, None)) as Hlost by (vm_compute; discriminate).
  pose proof (@refreshTicket_needs_the_lock decimal_layout _ Hsignal Hlost) as Hw.
  cbv zeta in Hw. destruct Hw as (Hr & Hm & _).
  split; [exact Hm|]. split; [exact Hr|]. vm_compute. reflexivity.
Defined.

Lemma refreshTicket_mints_under_the_lock_witness :
  let s := service_at_rest (world100 3 3 [] [] []) lock_free in
  let s' := (@TicketProducer.refreshTicket decimal_layout s).2 in
  durable_remaining (mysql (TicketProducer.world s')) "1000" = Some 3 /\
  rkeys (redis (TicketProducer.world s')) !! "ticket:newest:version" = Some (RStr "1000") /\
  EtcdLock.kv (EtcdLock.etcd (TicketProducer.redlock s')) = ∅ /\
  EtcdLock.locks (TicketProducer.redlock s') = ∅.
Proof.
  cbv zeta. set (s := service_at_rest (world100 3 3 [] [] []) lock_free).
  assert (TicketProducer.producerLockCh s = false) as Hsignal by reflexivity.
  assert (EtcdLock.locks (TicketProducer.redlock s) !! TicketProducer.TicketProducerLockName
          = None) as Hfree by (vm_compute; reflexivity).
  assert (EtcdLock.kv (EtcdLock.etcd (TicketProducer.redlock s))
            !! ("/locks/" +:+ TicketProducer.TicketProducerLockName) = None) as Hkey
    by (vm_compute; reflexivity).
  assert (forall k, EtcdLock.kv (EtcdLock.etcd (TicketProducer.redlock s)) !! k <>
                    Some (EtcdLock.next_lease (EtcdLock.etcd (TicketProducer.redlock s))))
    as Hfresh by (intros k; cbn; rewrite lookup_empty; discriminate).
  assert (forall n, ~ fails (EtcdLock.etcd_faults (TicketProducer.redlock s)) n) as Hup
    by (intros n; apply fails_nil).
  pose proof (@refreshTicket_mints_under_the_lock decimal_layout s
                Hsignal Hfree Hkey Hfresh Hup) as Hw.
  cbv zeta in Hw. destruct Hw as (Hworld & Hlocks & Hkv & _).
  rewrite Hworld, Hkv, Hlocks. repeat split; vm_compute; reflexivity.
Defined.

Lemma tryAcquireProducerLock_then_refreshTicket_witness :
  let s := service_at_rest (world100 3 3 [] [] []) lock_free in
  let s1 := (TicketProducer.tryAcquireProducerLock s).2 in
  let s2 := (@TicketProducer.refreshTicket decimal_layout s1).2 in
  TicketProducer.producerLockCh s1 = true /\
  durable_remaining (mysql (TicketProducer.world s2)) "1000" = Some 3 /\
  EtcdLock.calls (TicketProducer.redlock s2) =
    [EtcdLock.LeaseGrant 10; EtcdLock.TxnPutIfAbsent "/locks/ticket:producer:lock" 8;
     EtcdLock.Delete "/locks/ticket:producer:lock"; EtcdLock.LeaseRevoke 8].
Proof.
  cbv zeta. set (s := service_at_rest (world100 3 3 [] [] []) lock_free).
  assert (EtcdLock.locks (TicketProducer.redlock s) !! TicketProducer.TicketProducerLockName
          = None) as Hfree by (vm_compute; reflexivity).
  assert (EtcdLock.kv (EtcdLock.etcd (TicketProducer.redlock s))
            !! ("/locks/" +:+ TicketProducer.TicketProducerLockName) = None) as Hkey
    by (vm_compute; reflexivity).
  assert (forall k, EtcdLock.kv (EtcdLock.etcd (TicketProducer.redlock s)) !! k <>
                    Some (EtcdLock.next_lease (EtcdLock.etcd (TicketProducer.redlock s))))
    as Hfresh by (intros k; cbn; rewrite lookup_empty; discriminate).
  assert (forall n, ~ fails (EtcdLock.etcd_faults (TicketProducer.redlock s)) n) as Hup
    by (intros n; apply fails_nil).
  pose proof (@tryAcquireProducerLock_then_refreshTicket decimal_layout s
                Hfree Hkey Hfresh Hup) as Hw.
  cbv zeta in Hw. destruct Hw as ((Hch & _) & Hworld & _ & _ & _ & Hcalls).
  split; [exact Hch|]. split.
  - rewrite Hworld. vm_compute. reflexivity.
  - rewrite Hcalls. vm_compute. reflexivity.
Defined.

Lemma producer_stuck_after_failed_release_witness :
  let s := (@TicketProducer.refreshTicket decimal_layout
              (service_at_rest (world100 3 3 [] [] []) lock_free_then_unreachable)).2 in
  let s' := (in_sequence [@TicketProducer.refreshTicket decimal_layout;
                          TicketProducer.tryAcquireProducerLock;
                          @TicketProducer.refreshTicket decimal_layout] s).2 in
  In (ELog "释放票据生成器锁失败: 删除键失败: context deadline exceeded")
     (trace (TicketProducer.world s)) /\
  mysql (TicketProducer.world s') = mysql (TicketProducer.world s) /\
  redis (TicketProducer.world s') = redis (TicketProducer.world s) /\
  EtcdLock.calls (TicketProducer.redlock s') =
    [EtcdLock.LeaseGrant 10; EtcdLock.TxnPutIfAbsent "/locks/ticket:producer:lock" 8;
     EtcdLock.Delete "/locks/ticket:producer:lock"].
Proof.
  cbv zeta.
  set (s := (@TicketProducer.refreshTicket decimal_layout
               (service_at_rest (world100 3 3 [] [] []) lock_free_then_unreachable)).2).
  assert (TicketProducer.producerLockCh s = false) as Hsignal by (vm_compute; reflexivity).
  assert (EtcdLock.locks (TicketProducer.redlock s) !! TicketProducer.TicketProducerLockName =
          Some {| EtcdLock.leaseID := 8; EtcdLock.key := "/locks/ticket:producer:lock" |})
    as Hheld by (vm_compute; reflexivity).
  assert (Forall (fun task => task = @TicketProducer.refreshTicket decimal_layout \/
                              task = TicketProducer.tryAcquireProducerLock)
            [@TicketProducer.refreshTicket decimal_layout;
             TicketProducer.tryAcquireProducerLock;
             @TicketProducer.refreshTicket decimal_layout]) as Htasks.
  { constructor; [now left|]. constructor; [now right|]. constructor; [now left|].
    constructor. }
  pose proof (@producer_stuck_after_failed_release decimal_layout s _ _
                Hsignal Hheld Htasks) as Hw.
  cbv zeta in Hw. destruct Hw as (Hr & Hm & _ & Hl & _).
  split; [vm_compute; tauto|]. split; [exact Hm|]. split; [exact Hr|].
  rewrite Hl. vm_compute. reflexivity.
Defined.

(** ** Reading a tally *)

Ltac qexec :=
  cbv [VoteService.GetUserVote RedisRepository.GetUserVote RedisRepository.SetUserVote
       MySQLRepository.GetUserVote Resolver.GetUserVotes
       on_stores redis_query sql_query pass_bind pass_ret stores queries
       RedisRepository.run_SETEX negb]; exec.

Section ReadSide.
Context `{UserVoteJSON}.

Lemma GetUserVote_invalid (username : string) (s : Reads) :
  VoteService.valid_username username = false ->
  VoteService.GetUserVote username s =
    (inr ("无效的用户名: " +:+ username +:+ ", 用户名必须是A-Z之间的单个字母"), s).
Proof. intros Hbad. unfold VoteService.GetUserVote. now rewrite Hbad. Qed.

Lemma GetUserVote_hit (username data : string) (userVote : UserVote) (s : Reads) :
  VoteService.valid_username username = true ->
  ~ fails (redis_faults (stores s)) 0 ->
  rkeys (redis (stores s)) !! (RedisRepository.UserVoteKey +:+ username) = Some (RStr data) ->
  Unmarshal data = inl userVote ->
  let r := VoteService.GetUserVote username s in
  r.1 = inl userVote /\
  queries r.2 = queries s /\
  redis (stores r.2) = redis (stores s) /\
  mysql (stores r.2) = mysql (stores s) /\
  mysql_faults (stores r.2) = mysql_faults (stores s) /\
  redis_faults (stores r.2) = tail (redis_faults (stores s)) /\
  trace (stores r.2) =
    trace (stores s) ++ [ERedis (GET (RedisRepository.UserVoteKey +:+ username))].
Proof.
  intros Hvalid Hup Hkey Hdata. cbv zeta.
  destruct s as [[[rk rt rs] [uv vl tk] k rf mf kf sh cfg clk ent tr] qs].
  cbn [stores redis redis_faults rkeys] in *.
  unfold VoteService.GetUserVote. rewrite Hvalid.
  destruct rf as [|[msg|] plan]; [| destruct Hup; apply fails_head |].
  all: qexec; rewrite Hkey; qexec; rewrite Hdata; qexec; auto 10.
Qed.

Lemma GetUserVote_miss (username : string) (s : Reads) :
  VoteService.valid_username username = true ->
  ~ fails (redis_faults (stores s)) 0 ->
  ~ fails (redis_faults (stores s)) 1 ->
  ~ fails (mysql_faults (stores s)) 0 ->
  rkeys (redis (stores s)) !! (RedisRepository.UserVoteKey +:+ username) = None ->
  let r := VoteService.GetUserVote username s in
  let key := RedisRepository.UserVoteKey +:+ username in
  match user_votes (mysql (stores s)) !! username with
  | None =>
      r.1 = inr ("获取用户 " +:+ username +:+ " 票数失败: " +:+
                 ("用户 " +:+ username +:+ " 不存在")) /\
      redis (stores r.2) = redis (stores s) /\
      queries r.2 = queries s ++ [SelectUserVote username]
  | Some row =>
      let userVote := {| Username := username; Votes := votes row;
                         UpdatedAt := updated_at row |} in
      r.1 = inl userVote /\
      mysql (stores r.2) = mysql (stores s) /\
      match Marshal userVote with
      | inl data =>
          rkeys (redis (stores r.2)) = <[key := RStr data]> (rkeys (redis (stores s))) /\
          rttl (redis (stores r.2)) !! key = Some 3600 /\
          queries r.2 = queries s ++ [SelectUserVote username; SETEX key data 3600]
      | inr _ =>
          redis (stores r.2) = redis (stores s) /\
          queries r.2 = queries s ++ [SelectUserVote username]
      end
  end.
Proof.
  intros Hvalid Hup0 Hup1 Hupm Hkey. cbv zeta.
  destruct s as [[[rk rt rs] [uv vl tk] k rf mf kf sh cfg clk ent tr] qs].
  cbn [stores redis redis_faults mysql_faults rkeys mysql user_votes] in *.
  unfold VoteService.GetUserVote. rewrite Hvalid.
  destruct rf as [|[m0|] [|[m1|] plan]].
  all: try (destruct Hup0; apply fails_head).
  all: try (destruct Hup1; apply fails_second).
  all: destruct mf as [|[mm|] mplan]; try (destruct Hupm; apply fails_head).
  all: qexec; rewrite Hkey; qexec.
  all: destruct (uv !! username) as [row|]; qexec.
  all: try (repeat split; reflexivity).
  all: match goal with
       | |- context [Marshal ?userVote] => destruct (Marshal userVote) as [data|e]
       end; qexec.
  all: rewrite <- ?app_assoc; repeat split; try reflexivity; apply lookup_insert_eq.
Qed.

Lemma GetUserVote_cache_down (username msg : string) (rest : list (option string))
  (s : Reads) (row : UserVoteRow) :
  VoteService.valid_username username = true ->
  redis_faults (stores s) = Some msg :: rest ->
  ~ fails (mysql_faults (stores s)) 0 ->
  user_votes (mysql (stores s)) !! username = Some row ->
  (VoteService.GetUserVote username s).1 =
    inl {| Username := username; Votes := votes row; UpdatedAt := updated_at row |}.
Proof.
  intros Hvalid Hdown Hupm Hrow.
  destruct s as [[[rk rt rs] [uv vl tk] k rf mf kf sh cfg clk ent tr] qs].
  cbn [stores redis redis_faults mysql_faults rkeys mysql user_votes] in *. subst rf.
  unfold VoteService.GetUserVote. rewrite Hvalid.
  destruct mf as [|[mm|] mplan]; try (destruct Hupm; apply fails_head).
  all: qexec; rewrite Hrow; qexec.
  all: destruct (Marshal {| Username := username; Votes := votes row;
                            UpdatedAt := updated_at row |}) as [data|e]; qexec.
  all: destruct rest as [|[m1|] plan]; qexec; reflexivity.
Qed.

End ReadSide.

Lemma IncrementVotes_loop_keeps_redis_faults (ticketVersion : string) (usernames : list string) :
  forall (tx : MySQL) (w : World),
    redis_faults (MySQLRepository.IncrementVotes_loop usernames ticketVersion tx w).2
      = redis_faults w.
Proof.
  induction usernames as [|u rest IH]; intros tx w; [reflexivity|].
  cbn [MySQLRepository.IncrementVotes_loop]. unfold bind, mysql_call, Now, Rollback, ret.
  destruct (next_fault (mysql_faults w)) as [[msg|] plan]; cbn; [reflexivity|].
  destruct (user_votes tx !! u) as [row|]; cbn; [|reflexivity].
  destruct (next_fault plan) as [[msg|] plan']; cbn; [reflexivity|].
  rewrite IH. reflexivity.
Qed.

Lemma IncrementVotes_keeps_redis_faults (usernames : list string) (ticketVersion : string)
  (w : World) :
  redis_faults (MySQLRepository.IncrementVotes usernames ticketVersion w).2 = redis_faults w.
Proof.
  unfold MySQLRepository.IncrementVotes, bind, mysql_call, Rollback, ret.
  destruct (next_fault (mysql_faults w)) as [[msg|] plan]; cbn; [reflexivity|].
  destruct (next_fault plan) as [[msg|] plan1]; cbn; [reflexivity|].
  destruct (next_fault plan1) as [[msg|] plan2]; cbn; [reflexivity|].
  match goal with
  | |- context [MySQLRepository.IncrementVotes_loop ?l ?v ?tx ?w0] =>
      pose proof (IncrementVotes_loop_keeps_redis_faults v l tx w0) as Hloop;
      destruct (MySQLRepository.IncrementVotes_loop l v tx w0) as [[tx'|err] wl]
  end; cbn [fst snd] in *.
  - destruct (next_fault (mysql_faults wl)) as [[msg|] plan3]; cbn; exact Hloop.
  - exact Hloop.
Qed.

Lemma mysql_DecrementTicketUsage_keeps_redis_faults (version : string) (w : World) :
  redis_faults (MySQLRepository.DecrementTicketUsage version w).2 = redis_faults w.
Proof.
  destruct w as [r [uv vl tk] k rf mf kf sh cfg clk ent tr]. exec.
  destruct mf as [|[e1|] [|[e2|] mf]]; exec.
  all: try destruct (tk !! version) as [row|]; exec.
  all: try destruct (t_remaining_usages row <=? 0); exec.
  all: try (destruct mf as [|[e3|] [|[e4|] mf]]; exec).
  all: reflexivity.
Qed.

Lemma delete_caches_redis_faults (before after : string) (usernames : list string) :
  forall w : World,
    redis_faults (VoteService.delete_caches before after usernames w).2 =
      drop (length usernames) (redis_faults w).
Proof.
  induction usernames as [|x rest IH]; intros w.
  - cbn. now rewrite drop_0.
  - cbn [VoteService.delete_caches length]. unfold bind at 1. unfold bind at 1.
    pose proof (DeleteUserVoteCache_cases x w) as Hdel. cbv zeta in Hdel.
    destruct (RedisRepository.DeleteUserVoteCache x w) as [err w1]. cbn [fst snd] in Hdel.
    destruct Hdel as (Hplan & _ & _).
    destruct err as [e|]; unfold Printf, ret; rewrite IH; cbn [redis_faults record];
      rewrite Hplan; destruct (redis_faults w); cbn [tail drop];
      rewrite ?drop_nil; reflexivity.
Qed.

Lemma ProcessVoteEvent_settled (event : VoteEvent) (w : World) :
  (VoteService.ProcessVoteEvent event w).1 = None ->
  let w' := (VoteService.ProcessVoteEvent event w).2 in
  (forall i u, ev_Usernames event !! i = Some u -> ~ fails (redis_faults w) i ->
               rkeys (redis w') !! (RedisRepository.UserVoteKey +:+ u) = None) /\
  redis_faults w' = drop (length (ev_Usernames event)) (redis_faults w) /\
  (forall u n, tally (mysql w) u = Some n ->
               tally (mysql w') u = Some (n + occurrences (ev_Usernames event) u)).
Proof.
  cbv zeta. rewrite ProcessVoteEvent_stages.
  pose proof (IncrementVotes_spec (ev_Usernames event) (TicketVersion event) w) as [Hir Him].
  pose proof (IncrementVotes_keeps_redis_faults (ev_Usernames event) (TicketVersion event) w)
    as Hif.
  cbv zeta in Him.
  destruct (MySQLRepository.IncrementVotes (ev_Usernames event) (TicketVersion event) w)
    as [[e|] wi]; cbn [fst snd] in *; [discriminate|].
  destruct Him as (Htally & _ & _).
  pose proof (mysql_DecrementTicketUsage_spec (TicketVersion event) wi)
    as (Hdr & Hduv & _). 
  pose proof (mysql_DecrementTicketUsage_keeps_redis_faults (TicketVersion event) wi) as Hdf.
  destruct (MySQLRepository.DecrementTicketUsage (TicketVersion event) wi)
    as [[n [e|]] wd]; cbn [fst snd] in *; [discriminate|].
  intros _.
  destruct (delete_caches_effect "处理投票事件删除用户 " " 缓存失败: " (ev_Usernames event) wd)
    as (Hgone & _).
  pose proof (delete_caches_beside_redis "处理投票事件删除用户 " " 缓存失败: "
                (ev_Usernames event) wd) as (Hcm & _).
  split; [|split].
  - intros i u Hi Hup. apply (Hgone i u Hi). now rewrite Hdf, Hif.
  - now rewrite delete_caches_redis_faults, Hdf, Hif.
  - intros u old Hold. specialize (Htally u). unfold tally in *.
    rewrite Hcm, Hduv, Htally, Hold. reflexivity.
Qed.

Section ReadPath.
Context `{UserVoteJSON}.

(** X24. VoteService.GetUserVote: an invalid username is refused before any
    store is called. For a valid one: a cache entry that decodes is
    returned without any query to the database and without writing the
    cache; on a miss with a row in the database the row is returned and
    written to the cache under user:vote:<name> with a lifetime of 3600
    seconds; on a miss with no row the error is "获取用户 <name> 票数失败: 用户
    <name> 不存在" and the cache is not written; when the read of the cache
    fails in transport the row of the database is still returned. *)
Theorem GetUserVote_contract (username : string) (s : Reads) :
  let r := VoteService.GetUserVote username s in
  let key := RedisRepository.UserVoteKey +:+ username in
  (VoteService.valid_username username = false ->
   r = (inr ("无效的用户名: " +:+ username +:+ ", 用户名必须是A-Z之间的单个字母"), s)) /\
  (VoteService.valid_username username = true ->
   (forall data userVote,
      ~ fails (redis_faults (stores s)) 0 ->
      rkeys (redis (stores s)) !! key = Some (RStr data) ->
      Unmarshal data = inl userVote ->
      r.1 = inl userVote /\
      queries r.2 = queries s /\
      redis (stores r.2) = redis (stores s) /\
      mysql_faults (stores r.2) = mysql_faults (stores s)) /\
   (forall row data,
      ~ fails (redis_faults (stores s)) 0 ->
      ~ fails (redis_faults (stores s)) 1 ->
      ~ fails (mysql_faults (stores s)) 0 ->
      rkeys (redis (stores s)) !! key = None ->
      user_votes (mysql (stores s)) !! username = Some row ->
      Marshal {| Username := username; Votes := votes row; UpdatedAt := updated_at row |}
        = inl data ->
      r.1 = inl {| Username := username; Votes := votes row; UpdatedAt := updated_at row |} /\
      rkeys (redis (stores r.2)) !! key = Some (RStr data) /\
      rttl (redis (stores r.2)) !! key = Some 3600 /\
      queries r.2 = queries s ++ [SelectUserVote username; SETEX key data 3600]) /\
   (~ fails (redis_faults (stores s)) 0 ->
    ~ fails (redis_faults (stores s)) 1 ->
    ~ fails (mysql_faults (stores s)) 0 ->
    rkeys (redis (stores s)) !! key = None ->
    user_votes (mysql (stores s)) !! username = None ->
    r.1 = inr ("获取用户 " +:+ username +:+ " 票数失败: " +:+
               ("用户 " +:+ username +:+ " 不存在")) /\
    redis (stores r.2) = redis (stores s)) /\
   (forall msg rest row,
      redis_faults (stores s) = Some msg :: rest ->
      ~ fails (mysql_faults (stores s)) 0 ->
      user_votes (mysql (stores s)) !! username = Some row ->
      r.1 = inl {| Username := username; Votes := votes row; UpdatedAt := updated_at row |})).
Proof.
  cbv zeta. split; [apply GetUserVote_invalid|].
  intros Hvalid. split; [|split; [|split]].
  - intros data userVote Hup Hkey Hdata.
    destruct (GetUserVote_hit username data userVote s Hvalid Hup Hkey Hdata)
      as (Hr & Hq & Hredis & _ & Hmf & _).
    auto.
  - intros row data Hup0 Hup1 Hupm Hkey Hrow Hdata.
    pose proof (GetUserVote_miss username s Hvalid Hup0 Hup1 Hupm Hkey) as Hmiss.
    cbv zeta in Hmiss. rewrite Hrow, Hdata in Hmiss.
    destruct Hmiss as (Hr & _ & Hk & Ht & Hq).
    split; [exact Hr|]. split; [|auto]. rewrite Hk. apply lookup_insert_eq.
  - intros Hup0 Hup1 Hupm Hkey Hrow.
    pose proof (GetUserVote_miss username s Hvalid Hup0 Hup1 Hupm Hkey) as Hmiss.
    cbv zeta in Hmiss. rewrite Hrow in Hmiss. destruct Hmiss as (Hr & Hredis & _). auto.
  - intros msg rest row Hdown Hupm Hrow.
    exact (GetUserVote_cache_down username msg rest s row Hvalid Hdown Hupm Hrow).
Qed.

(** X25. When the stores answer, the cache has no entry for a valid username,
    the database has its row and the JSON codec reads back what it writes
    for that row, two GetUserVote in a row return the same UserVote, and
    the second one is served by the cache: it sends no query of its own to
    the database and no write to the cache. *)
Theorem GetUserVote_twice (username data : string) (row : UserVoteRow) (s : Reads) :
  VoteService.valid_username username = true ->
  (forall k, ~ fails (redis_faults (stores s)) k) ->
  ~ fails (mysql_faults (stores s)) 0 ->
  rkeys (redis (stores s)) !! (RedisRepository.UserVoteKey +:+ username) = None ->
  user_votes (mysql (stores s)) !! username = Some row ->
  let userVote := {| Username := username; Votes := votes row; UpdatedAt := updated_at row |} in
  Marshal userVote = inl data ->
  Unmarshal data = inl userVote ->
  let first := VoteService.GetUserVote username s in
  let second := VoteService.GetUserVote username first.2 in
  first.1 = inl userVote /\
  second.1 = inl userVote /\
  queries second.2 = queries first.2 /\
  mysql_faults (stores second.2) = mysql_faults (stores first.2).
Proof.
  intros Hvalid Hup Hupm Hkey Hrow. cbv zeta. intros Hdata Hback.
  pose proof (GetUserVote_miss username s Hvalid (Hup 0%nat) (Hup 1%nat) Hupm Hkey) as Hmiss.
  cbv zeta in Hmiss. rewrite Hrow, Hdata in Hmiss.
  destruct Hmiss as (Hr & _ & Hk & _ & _).
  split; [exact Hr|].
  assert (redis_faults (stores (VoteService.GetUserVote username s).2) =
          tail (tail (redis_faults (stores s)))) as Hplan.
  { clear Hk Hr. destruct s as [[[rk rt rs] [uv vl tk] k rf mf kf sh cfg clk ent tr] qs].
    cbn [stores redis redis_faults mysql_faults rkeys mysql user_votes] in *.
    unfold VoteService.GetUserVote. rewrite Hvalid.
    destruct rf as [|[m0|] [|[m1|] plan]].
    all: try (destruct (Hup 0%nat); apply fails_head).
    all: try (destruct (Hup 1%nat); apply fails_second).
    all: destruct mf as [|[mm|] mplan]; try (destruct Hupm; apply fails_head).
    all: qexec; rewrite Hkey; qexec; rewrite Hrow; qexec; rewrite Hdata; qexec; reflexivity. }
  assert (~ fails (redis_faults (stores (VoteService.GetUserVote username s).2)) 0) as Hup'.
  { rewrite Hplan. apply fails_tail, fails_tail, Hup. }
  assert (rkeys (redis (stores (VoteService.GetUserVote username s).2))
            !! (RedisRepository.UserVoteKey +:+ username) = Some (RStr data)) as Hkey'.
  { rewrite Hk. apply lookup_insert_eq. }
  destruct (GetUserVote_hit username data _ _ Hvalid Hup' Hkey' Hback)
    as (Hr2 & Hq2 & _ & _ & Hmf2 & _).
  auto.
Qed.

(** X26. After a ProcessVoteEvent that returned nil, with a fast tier that
    answers every call and a database that answers the read, GetUserVote
    of a valid username named in the event returns the new tally, the old
    one plus the number of times the user is named in the event, whatever
    the cache held before: the settlement deleted the entry. *)
Theorem GetUserVote_after_ProcessVoteEvent (event : VoteEvent) (w : World) (u : string)
  (old : Z) (asked : list Query) :
  (VoteService.ProcessVoteEvent event w).1 = None ->
  (forall k, ~ fails (redis_faults w) k) ->
  ~ fails (mysql_faults (VoteService.ProcessVoteEvent event w).2) 0 ->
  In u (ev_Usernames event) ->
  VoteService.valid_username u = true ->
  tally (mysql w) u = Some old ->
  exists userVote,
    (VoteService.GetUserVote u
       {| stores := (VoteService.ProcessVoteEvent event w).2; queries := asked |}).1
      = inl userVote /\
    Username userVote = u /\
    Votes userVote = old + occurrences (ev_Usernames event) u.
Proof.
  intros Hok Hup Hupm Hin Hvalid Hold.
  destruct (ProcessVoteEvent_settled event w Hok) as (Hgone & Hplan & Htally).
  apply list_elem_of_In, list_elem_of_lookup in Hin as [i Hi].
  set (s := {| stores := (VoteService.ProcessVoteEvent event w).2; queries := asked |}).
  assert (forall k, ~ fails (redis_faults (stores s)) k) as Hup'.
  { intros k. cbn [stores s]. rewrite Hplan, fails_drop. apply Hup. }
  pose proof (GetUserVote_miss u s Hvalid (Hup' 0%nat) (Hup' 1%nat) Hupm
                (Hgone i u Hi (Hup i))) as Hmiss.
  cbv zeta in Hmiss. specialize (Htally u old Hold). unfold tally in Htally.
  cbn [stores s] in Hmiss.
  destruct (user_votes (mysql (VoteService.ProcessVoteEvent event w).2) !! u) as [row|];
    [|discriminate].
  destruct Hmiss as (Hr & _). eexists. split; [exact Hr|]. split; [reflexivity|].
  cbn in Htally |- *. congruence.
Qed.

End ReadPath.

Lemma sample_user_vote :
  @Unmarshal colon_json "A:0:0" = inl {| Username := "A"; Votes := 0; UpdatedAt := 0 |}.
Proof. vm_compute. reflexivity. Qed.

Lemma GetUserVote_twice_witness :
  let s := {| stores := world100 3 3 [] [] []; queries := [] |} in
  let first := @VoteService.GetUserVote colon_json "A" s in
  let second := @VoteService.GetUserVote colon_json "A" first.2 in
  first.1 = inl {| Username := "A"; Votes := 0; UpdatedAt := 0 |} /\
  second.1 = first.1 /\
  queries first.2 = [SelectUserVote "A"; SETEX "user:vote:A" "A:0:0" 3600] /\
  queries second.2 = queries first.2.
Proof.
  cbv zeta. set (s := {| stores := world100 3 3 [] [] []; queries := [] |}).
  assert (VoteService.valid_username "A" = true) as Hvalid by reflexivity.
  assert (forall k, ~ fails (redis_faults (stores s)) k) as Hup by (intros k; apply fails_nil).
  assert (~ fails (mysql_faults (stores s)) 0) as Hupm by apply fails_nil.
  assert (rkeys (redis (stores s)) !! (RedisRepository.UserVoteKey +:+ "A") = None) as Hkey
    by (vm_compute; reflexivity).
  assert (user_votes (mysql (stores s)) !! "A" = Some {| votes := 0; updated_at := 0 |})
    as Hrow by (vm_compute; reflexivity).
  pose proof (@GetUserVote_twice colon_json "A" "A:0:0" _ s Hvalid Hup Hupm Hkey Hrow) as Hw.
  cbv zeta in Hw. destruct (Hw eq_refl sample_user_vote) as (H1 & H2 & Hq & _).
  split; [exact H1|]. split; [now rewrite H1, H2|]. split; [vm_compute; reflexivity | exact Hq].
Defined.

Lemma GetUserVote_after_ProcessVoteEvent_witness :
  exists userVote,
    (@VoteService.GetUserVote colon_json "D"
       {| stores := (VoteService.ProcessVoteEvent event_D (world100 3 3 [] [] [])).2;
          queries := [] |}).1 = inl userVote /\
    Username userVote = "D" /\ Votes userVote = 5 + 1.
Proof.
  assert ((VoteService.ProcessVoteEvent event_D (world100 3 3 [] [] [])).1 = None) as Hok
    by (vm_compute; reflexivity).
  assert (forall k, ~ fails (redis_faults (world100 3 3 [] [] [])) k) as Hup
    by (intros k; apply fails_nil).
  assert (~ fails (mysql_faults (VoteService.ProcessVoteEvent event_D
                                   (world100 3 3 [] [] [])).2) 0) as Hupm.
  { intros [msg Hm]. vm_compute in Hm. discriminate. }
  assert (In "D" (ev_Usernames event_D)) as Hin by (now left).
  assert (tally (mysql (world100 3 3 [] [] [])) "D" = Some 5) as Hold
    by (vm_compute; reflexivity).
  exact (@GetUserVote_after_ProcessVoteEvent colon_json event_D _ "D" 5 []
           Hok Hup Hupm Hin eq_refl Hold).
Defined.

Section Stale.
Context `{UserVoteJSON}.

(** X28. When ProcessVoteEvent commits the increments and then fails on the
    ticket decrement, it returns before clearing the cache: a GetUserVote
    that follows still returns the entry cached before the event, while
    the durable tally of the user has already grown by the user's
    occurrences in the event. *)
Theorem GetUserVote_stale_after_partial_settlement (event : VoteEvent) (w wi wd : World)
  (n : Z) (e u data : string) (cached : UserVote) (asked : list Query) :
  MySQLRepository.IncrementVotes (ev_Usernames event) (TicketVersion event) w = (None, wi) ->
  MySQLRepository.DecrementTicketUsage (TicketVersion event) wi = ((n, Some e), wd) ->
  VoteService.valid_username u = true ->
  ~ fails (redis_faults w) 0 ->
  rkeys (redis w) !! (RedisRepository.UserVoteKey +:+ u) = Some (RStr data) ->
  Unmarshal data = inl cached ->
  let settled := (VoteService.ProcessVoteEvent event w).2 in
  (VoteService.GetUserVote u {| stores := settled; queries := asked |}).1 = inl cached /\
  (forall old, tally (mysql w) u = Some old ->
               tally (mysql settled) u = Some (old + occurrences (ev_Usernames event) u)).
Proof.
  intros Hinc Hdec Hvalid Hup Hkey Hdata. cbv zeta.
  pose proof (ProcessVoteEvent_partial event w wi wd n e Hinc Hdec) as Hp. cbv zeta in Hp.
  destruct Hp as (_ & Htally & _ & _ & Hredis).
  assert (redis_faults (VoteService.ProcessVoteEvent event w).2 = redis_faults w) as Hplan.
  { rewrite ProcessVoteEvent_stages, Hinc, Hdec. cbn [fst snd].
    pose proof (IncrementVotes_keeps_redis_faults (ev_Usernames event) (TicketVersion event) w)
      as Hif.
    pose proof (mysql_DecrementTicketUsage_keeps_redis_faults (TicketVersion event) wi) as Hdf.
    rewrite Hinc in Hif. rewrite Hdec in Hdf. cbn [snd] in *. congruence. }
  split; [|intros old Hold; now apply Htally].
  set (s := {| stores := (VoteService.ProcessVoteEvent event w).2; queries := asked |}).
  assert (~ fails (redis_faults (stores s)) 0) as Hup' by (cbn [stores s]; now rewrite Hplan).
  assert (rkeys (redis (stores s)) !! (RedisRepository.UserVoteKey +:+ u) = Some (RStr data))
    as Hkey' by (cbn [stores s]; now rewrite Hredis).
  apply (GetUserVote_hit u data cached s Hvalid Hup' Hkey' Hdata).
Qed.

End Stale.

Lemma GetUserVote_stale_after_partial_settlement_witness :
  let settled := (VoteService.ProcessVoteEvent event_D world100_cached).2 in
  (@VoteService.GetUserVote colon_json "D" {| stores := settled; queries := [] |}).1 =
    inl {| Username := "D"; Votes := 5; UpdatedAt := 0 |} /\
  tally (mysql settled) "D" = Some 6.
Proof.
  set (w := world100_cached).
  set (wi := (MySQLRepository.IncrementVotes ["D"] "100" w).2).
  set (wd := (MySQLRepository.DecrementTicketUsage "100" wi).2).
  assert (MySQLRepository.IncrementVotes (ev_Usernames event_D) (TicketVersion event_D) w =
          (None, wi)) as Hinc by (vm_compute; reflexivity).
  assert (MySQLRepository.DecrementTicketUsage (TicketVersion event_D) wi =
          ((0, Some "票据使用次数已耗尽"), wd)) as Hdec by (vm_compute; reflexivity).
  assert (~ fails (redis_faults w) 0) as Hup by apply fails_nil.
  assert (rkeys (redis w) !! (RedisRepository.UserVoteKey +:+ "D") = Some (RStr "D:5:0"))
    as Hkey by (vm_compute; reflexivity).
  assert (@Unmarshal colon_json "D:5:0" = inl {| Username := "D"; Votes := 5; UpdatedAt := 0 |})
    as Hdata by (vm_compute; reflexivity).
  pose proof (@GetUserVote_stale_after_partial_settlement colon_json event_D w wi wd 0 _ "D"
                "D:5:0" _ [] Hinc Hdec eq_refl Hup Hkey Hdata) as Hw.
  cbv zeta in Hw |- *. destruct Hw as [Hread Htally].
  split; [exact Hread|]. apply (Htally 5). vm_compute. reflexivity.
Defined.

(** ** From getTicket to vote *)

Section Flow.
Context `{TimeLayout}.

Lemma parse_ticket_spendable_fields (version value : string) (h : gmap string string) (n : Z) :
  h !! "value" = Some value ->
  h !! "remainingUsages" = Some (itoa n) ->
  reads_time (RedisRepository.field h "expiresAt") ->
  reads_time (RedisRepository.field h "createdAt") ->
  exists stored,
    RedisRepository.parse_ticket version h = inl stored /\
    Value stored = value /\ Version stored = version /\ RemainingUsages stored = n.
Proof.
  intros Hv Hn He Hc. unfold RedisRepository.parse_ticket, RedisRepository.field in *.
  rewrite Hv, Hn. cbn [default from_option id].
  destruct (decide (itoa n = "")) as [Hempty|_]; [now destruct (itoa_nonempty n)|].
  unfold Sscanf_d. rewrite atoi_itoa.
  destruct (decide (default "" (h !! "expiresAt") = "")) as [_|Hne].
  - destruct (decide (default "" (h !! "createdAt") = "")) as [_|Hnc].
    + eexists. repeat split.
    + destruct Hc as [Hc | [t Hc]]; [contradiction|]. rewrite Hc. eexists. repeat split.
  - destruct He as [He | [t He]]; [contradiction|]. rewrite He.
    destruct (decide (default "" (h !! "createdAt") = "")) as [_|Hnc].
    + eexists. repeat split.
    + destruct Hc as [Hc | [t' Hc]]; [contradiction|]. rewrite Hc. eexists. repeat split.
Qed.

Lemma GetCurrentTicket_spendable (clientID : string) (ticket : Ticket) (n : Z) (w : World) :
  spendable ticket n w ->
  0 < n ->
  exists stored w1,
    TicketService.GetCurrentTicket clientID w = (inl stored, w1) /\
    Value stored = Value ticket /\ Version stored = Version ticket /\
    RemainingUsages stored = n /\
    spendable ticket n w1 /\
    kafka w1 = kafka w /\ kafka_faults w1 = kafka_faults w /\ clock w1 = clock w.
Proof.
  intros (Hup & Hscript & Hptr & h & Hrec & Hv & Hn & He & Hc) Hpos.
  destruct (next_fault_up _ Hup) as [_ Hup1].
  destruct (next_fault_up _ Hup1) as [_ Hup2].
  unfold TicketService.GetCurrentTicket, RedisRepository.GetNewestTicketVersion,
    RedisRepository.GetTicket, RedisRepository.Get, RedisRepository.HGetAll, bind.
  rewrite (redis_call_up _ _ _ Hup).
  unfold RedisRepository.run_GET at 1 2. rewrite Hptr. cbn [fst snd]. unfold ret at 1.
  cbn [fst snd].
  rewrite redis_call_up by exact Hup1.
  unfold RedisRepository.run_HGETALL. cbn [redis set_redis record set_redis_faults].
  rewrite Hrec. cbn [fst snd].
  destruct (decide (size h = 0%nat)) as [Hsize|_].
  { apply map_size_empty_inv in Hsize. subst h. rewrite lookup_empty in Hv. discriminate. }
  destruct (parse_ticket_spendable_fields (Version ticket) _ _ _ Hv Hn He Hc)
    as (stored & Hp & Hval & Hver & Hrem).
  unfold ret. rewrite Hp. cbn [fst snd]. rewrite Hrem.
  destruct (Z.leb_spec n 0); [lia|].
  eexists _, _. split; [reflexivity|]. repeat split; try assumption.
  unfold spendable. cbn. destruct (redis w) eqn:Hr. cbn in *.
  repeat split; try assumption. exists h. auto.
Qed.

(** X27. On a replica whose fast tier answers and holds the current ticket
    with n > 0 usages, and whose event bus takes the write, a client that
    calls getTicket and sends the fields it received back in a vote for
    valid usernames gets the ticket with n usages and no error, then the
    success response; one message for the usernames and the ticket's
    version is on the bus and the fast tier holds n - 1 usages. *)
Theorem getTicket_then_vote (ticket : Ticket) (n : Z) (w : World) (first : string)
  (others : list string) :
  spendable ticket n w ->
  0 < n ->
  VoteService.first_invalid (first :: others) = None ->
  ~ fails (kafka_faults w) 0 ->
  (forall t, exists t', Parse (Format t) = inl t') ->
  let got := Resolver.GetTicket w in
  let Input := {| Resolver.in_Usernames := first :: others;
                  Resolver.in_Ticket := TicketInput_of (Resolver.TicketResolver got.1.1) |} in
  let voted := Resolver.Vote Input got.2 in
  got.1.2 = None /\
  Version got.1.1 = Version ticket /\
  RemainingUsages got.1.1 = n /\
  voted.1 = ({| Success := true; Message := "投票成功"; Usernames := first :: others;
                Timestamp := clock w |}, None) /\
  (exists msg, kafka voted.2 = kafka w ++ [msg] /\
               Key msg = first /\
               ev_Usernames (Val msg) = first :: others /\
               TicketVersion (Val msg) = Version ticket) /\
  fast_remaining (redis voted.2) (Version ticket) = Some (n - 1).
Proof.
  intros Hs Hpos Hvalid Hbus Hlayout. cbv zeta.
  destruct (GetCurrentTicket_spendable ("client-" +:+ itoa (clock w)) ticket n w Hs Hpos)
    as (stored & w1 & Hget & Hval & Hver & Hrem & Hs1 & Hk & Hkf & Hclk).
  assert (Resolver.GetTicket w = ((stored, None), w1)) as Hgot.
  { unfold Resolver.GetTicket, VoteService.GetTicket, bind, Now, ret. now rewrite Hget. }
  rewrite Hgot. cbn [fst snd].
  destruct (Hlayout (ExpiresAt stored)) as [expiresAt Hpe].
  destruct (Hlayout (CreatedAt stored)) as [createdAt Hpc].
  pose proof (ticket_over_the_wire (first :: others) stored w1 expiresAt createdAt Hpe Hpc)
    as Hwire. rewrite Hwire. clear Hwire. cbv zeta.
  rewrite (Vote_reads_version_and_value (first :: others) stored ticket w1)
    by assumption.
  destruct (UseTicket_spendable ticket n w1 Hs1) as (wu & Huse & Hsu).
  destruct (Z.ltb_spec 0 n) as [_|]; [|lia].
  assert (~ fails (kafka_faults w1) 0) as Hbus1 by now rewrite Hkf.
  pose proof (Vote_happy {| req_Usernames := first :: others; req_Ticket := ticket |}
                w1 wu first others eq_refl Hvalid Huse Hbus1) as Hvote.
  cbv zeta in Hvote. cbn [req_Usernames req_Ticket] in Hvote.
  destruct Hvote as (Hres & Hkafka & _ & Hredis & _).
  destruct (VoteService.Vote {| req_Usernames := first :: others; req_Ticket := ticket |} w1)
    as [[response err] wv]. cbn [fst snd] in *.
  injection Hres as -> ->. cbn [fst snd].
  repeat split; try assumption.
  - now rewrite Hclk.
  - eexists. split; [rewrite Hkafka, Hk; reflexivity|]. repeat split.
  - rewrite Hredis. destruct Hsu as (_ & _ & _ & h & Hrec & _ & Hcount & _).
    unfold fast_remaining. rewrite Hrec. cbn. rewrite Hcount. cbn. apply atoi_itoa.
Qed.

End Flow.

Lemma decimal_layout_reads_back (t : Time) :
  exists t', @Parse decimal_layout (@Format decimal_layout t) = inl t'.
Proof. exists t. cbn. now rewrite atoi_itoa. Qed.

Lemma world100_spendable (n : Z) :
  @spendable decimal_layout ticket100 n (world100 n 3 [] [] []).
Proof.
  split; [intros k; apply fails_nil|].
  split; [exists (sha1 DecrementTicketUsageScript); split; vm_compute; reflexivity|].
  split; [vm_compute; reflexivity|].
  exists (hash100 n). split; [reflexivity|].
  split; [vm_compute; reflexivity|]. split; [reflexivity|].
  split; right; eexists; vm_compute; reflexivity.
Qed.

Lemma getTicket_then_vote_witness :
  let got := @Resolver.GetTicket decimal_layout (world100 3 3 [] [] []) in
  let Input := {| Resolver.in_Usernames := ["D"];
                  Resolver.in_Ticket :=
                    TicketInput_of (@Resolver.TicketResolver decimal_layout got.1.1) |} in
  let voted := @Resolver.Vote decimal_layout Input got.2 in
  got.1 = (ticket100, None) /\
  voted.1 = ({| Success := true; Message := "投票成功"; Usernames := ["D"];
                Timestamp := 1000 |}, None) /\
  fast_remaining (redis voted.2) "100" = Some 2.
Proof.
  assert (0 < 3) as Hpos by lia.
  assert (~ fails (kafka_faults (world100 3 3 [] [] [])) 0) as Hbus by apply fails_nil.
  pose proof (@getTicket_then_vote decimal_layout ticket100 3 (world100 3 3 [] [] []) "D" []
                (world100_spendable 3) Hpos eq_refl Hbus decimal_layout_reads_back) as Hw.
  cbv zeta in Hw |- *. destruct Hw as (_ & _ & _ & Hvoted & _ & Hfast).
  split; [vm_compute; reflexivity|]. split; [exact Hvoted | exact Hfast].
Defined.
